(** * GMfold: the DP fill, the exterior resolver and the traceback

    A shallow embedding of [src/GMfold.py].  Python floats are idealised as
    rationals extended with the two infinities and NaN; exceptions are values
    of an error monad; the cache is a list of rows that is threaded through
    the functions which mutate it in place. *)

From Stdlib Require Import QArith Qround Qabs Lqa Ascii String.
From stdpp Require Import base option list gmap strings pretty.

Local Open Scope string_scope.
Local Open Scope list_scope.
Local Open Scope Z_scope.

(** ** Floats *)

Module Float.

Inductive energy : Type :=
| NegInf
| Fin (q : Q)
| PosInf
| NaN.

Definition zero : energy := Fin 0.

Definition add (a b : energy) : energy :=
  match a, b with
  | NaN, _ | _, NaN => NaN
  | Fin x, Fin y => Fin (x + y)
  | PosInf, NegInf | NegInf, PosInf => NaN
  | PosInf, _ | _, PosInf => PosInf
  | NegInf, _ | _, NegInf => NegInf
  end.

Definition sub (a b : energy) : energy :=
  match a, b with
  | NaN, _ | _, NaN => NaN
  | Fin x, Fin y => Fin (x - y)
  | PosInf, PosInf | NegInf, NegInf => NaN
  | PosInf, _ | _, NegInf => PosInf
  | NegInf, _ | _, PosInf => NegInf
  end.

(** [a < b] *)
Definition lt (a b : energy) : bool :=
  match a, b with
  | NaN, _ | _, NaN => false
  | NegInf, NegInf => false
  | NegInf, _ => true
  | _, NegInf => false
  | PosInf, _ => false
  | Fin _, PosInf => true
  | Fin x, Fin y => negb (Qle_bool y x)
  end.

(** [a == b] *)
Definition eq (a b : energy) : bool :=
  match a, b with
  | NegInf, NegInf | PosInf, PosInf => true
  | Fin x, Fin y => Qeq_bool x y
  | _, _ => false
  end.

(** [a != b] *)
Definition ne (a b : energy) : bool := negb (eq a b).

(** [a > b] *)
Definition gt (a b : energy) : bool := lt b a.

(** [a <= b] *)
Definition le (a b : energy) : bool := lt a b || eq a b.

(** Rounding to the nearest integer, ties to the even one. *)
Definition round_half_even (x : Q) : Z :=
  let f := Qfloor x in
  match (x - inject_Z f ?= 1 # 2)%Q with
  | Lt => f
  | Gt => f + 1
  | Eq => if Z.even f then f else f + 1
  end.

(** [round(x, 1)] on a finite value. *)
Definition round1_Q (x : Q) : Q :=
  (inject_Z (round_half_even (x * 10)) / 10)%Q.

(** [round(a, 1)]: the infinities and NaN are returned as they are. *)
Definition round1 (a : energy) : energy :=
  match a with
  | Fin x => Fin (round1_Q x)
  | _ => a
  end.

Definition is_fin (a : energy) : bool :=
  match a with Fin _ => true | _ => false end.

End Float.

Import Float.

(** ** Structs *)

(** Modelled from the spec: the [Struct] type of [gm_energy_functions], a
    module that is not among the sources: "energy (real, or one of two
    sentinels), a descriptive label, and a list of 0, 1, or >= 2 enclosed
    base-pair references".  The spec leaves [==] and the truth value of a
    struct open; they are taken from the [Struct] of seqfold, the code the
    header of the source says it is based on: two structs compare equal when
    energy and children agree, and a struct is truthy when its energy is
    neither infinity. *)
Record Struct : Type := mkStruct {
  e : energy;
  desc : string;
  ij : list (Z * Z)
}.

(** [Struct(x)]: the label and the children take their defaults. *)
Definition Struct1 (x : energy) : Struct := mkStruct x "" [].

Definition ij_eqb (a b : list (Z * Z)) : bool := bool_decide (a = b).

Definition struct_eqb (a b : Struct) : bool :=
  Float.eq (e a) (e b) && ij_eqb (ij a) (ij b).

Definition truthy (s : Struct) : bool :=
  Float.ne (e s) PosInf && Float.ne (e s) NegInf.

Definition with_ij (s : Struct) (l : list (Z * Z)) : Struct :=
  mkStruct (e s) (desc s) l.

Definition STRUCT_DEFAULT : Struct := Struct1 NegInf.
Definition STRUCT_NULL : Struct := Struct1 PosInf.

(** ** [_min_struct] *)

Definition _min_struct (structs : list Struct) : Struct :=
  fold_left
    (fun s struct =>
       if Float.ne (e struct) NegInf && Float.lt (e struct) (e s)
       then struct else s)
    structs STRUCT_NULL.

(** ** The Python run time: exceptions, indexing, strings *)

Inductive exn : Type :=
| TypeError (msg : string)
| ValueError (msg : string)
| KeyError
| IndexError
| UnboundLocalError (name : string).

(** The outcome of a call: a value, a raised exception, or no answer within
    the fuel given to a loop that need not terminate. *)
Inductive result (A : Type) : Type :=
| Ok (a : A)
| Raise (x : exn)
| Timeout.
Arguments Ok {A} a.
Arguments Raise {A} x.
Arguments Timeout {A}.

Global Instance result_ret : MRet result := fun A a => Ok a.
Global Instance result_bind : MBind result := fun A B f m =>
  match m with
  | Ok a => f a
  | Raise x => Raise x
  | Timeout => Timeout
  end.

Fixpoint foldM {A B : Type} (f : A -> B -> result A) (a : A) (l : list B)
  : result A :=
  match l with
  | [] => Ok a
  | b :: l => a' ← f a b; foldM f a' l
  end.

(** What [raise] is applied to. *)
#[warnings="-register-all"]
Inductive pyobj : Type :=
| PyExcClass (mk : string -> exn)
| PyExc (x : exn)
| PyStr (s : string)
| PyTuple (l : list pyobj).

(** [raise v]: only exception classes and instances can be raised. *)
Definition py_raise {A : Type} (v : pyobj) : result A :=
  match v with
  | PyExcClass mk => Raise (mk "")
  | PyExc x => Raise x
  | _ => Raise (TypeError "exceptions must derive from BaseException")
  end.

(** The position a subscript denotes in a sequence of length [n]: negative
    subscripts count from the end. *)
Definition py_norm (n : nat) (i : Z) : option nat :=
  let k := if i <? 0 then i + Z.of_nat n else i in
  if (0 <=? k) && (k <? Z.of_nat n) then Some (Z.to_nat k) else None.

(** [l[i]] *)
Definition getitem {A : Type} (l : list A) (i : Z) : result A :=
  match py_norm (length l) i ≫= (fun k => l !! k) with
  | Some x => Ok x
  | None => Raise IndexError
  end.

(** [l[i] = x] *)
Definition setitem {A : Type} (l : list A) (i : Z) (x : A) : result (list A) :=
  match py_norm (length l) i with
  | Some k => Ok (<[k:=x]> l)
  | None => Raise IndexError
  end.

(** [d[k]] on a dict. *)
Definition dict_get `{Countable K} {V : Type} (d : gmap K V) (k : K) : result V :=
  match d !! k with
  | Some v => Ok v
  | None => Raise KeyError
  end.

Definition slice_bound (n : nat) (k : Z) : nat :=
  Z.to_nat (Z.min (Z.of_nat n) (if k <? 0 then Z.max 0 (k + Z.of_nat n) else k)).

(** [l[a:b]] *)
Definition py_slice {A : Type} (l : list A) (a b : Z) : list A :=
  let lo := slice_bound (length l) a in
  let hi := slice_bound (length l) b in
  take (hi - lo) (drop lo l).

Definition chars (s : string) : list ascii := list_ascii_of_string s.
Definition len (s : string) : Z := Z.of_nat (String.length s).

(** [s[a:b]] on a string. *)
Definition str_slice (s : string) (a b : Z) : string :=
  string_of_list_ascii (py_slice (chars s) a b).

(** [s[::-1]] *)
Definition str_rev (s : string) : string :=
  string_of_list_ascii (rev (chars s)).

Definition upper_ascii (c : ascii) : ascii :=
  let n := nat_of_ascii c in
  if (97 <=? n)%nat && (n <=? 122)%nat then ascii_of_nat (n - 32) else c.

(** [s.upper()] *)
Definition upper (s : string) : string :=
  string_of_list_ascii (upper_ascii <$> chars s).

(** ** The data of a fold *)

Abbreviation Cache := (list (list Struct)).

(** [e_cache[i][j]] *)
Definition cell (e_cache : Cache) (i j : Z) : result Struct :=
  row ← getitem e_cache i; getitem row j.

(** [e_cache[i][j] = s]: each row is a list of its own, so only that row
    changes. *)
Definition set_cell (e_cache : Cache) (i j : Z) (s : Struct) : result Cache :=
  row ← getitem e_cache i;
  row' ← setitem row j s;
  setitem e_cache i row'.

(** The struct at row [r], column [k] of the cache, read without the
    wrap-around of negative subscripts. *)
Definition at_pos (e_cache : Cache) (r k : nat) : option Struct :=
  e_cache !! r ≫= (fun row => row !! k).

(** Lines 145 to 148: [n] rows of [n] unfilled cells. *)
Definition new_cache (n : Z) : Cache :=
  replicate (Z.to_nat n) (replicate (Z.to_nat n) STRUCT_DEFAULT).

(** An energy table ([DNA_ENERGIES], [RNA_ENERGIES]): the two members the
    fold reads. *)
Record Energies : Type := mkEnergies {
  COMPLEMENT : gmap ascii ascii;
  NN : gset string
}.

(** The candidate pair index: [dict_Sij] keyed by the text of the pair,
    [dict_d] as its entries in insertion order with the key read through
    [int], and [bps]. *)
Abbreviation Sdict := (gmap string (list (Z * Z))).
Abbreviation Ddict := (list (Z * list (Z * Z))).

(** What the fold imports: the energy tables and functions, the combination
    generator, the graph matching stage, and the order in which Python
    iterates over a set. *)
Class Externals : Type := {
  DNA_ENERGIES : Energies;
  RNA_ENERGIES : Energies;
  _pair : string -> Z -> Z -> Z -> Z -> string;
  _hairpin : string -> Z -> Z -> Q -> Energies -> energy;
  _stack : string -> Z -> Z -> Z -> Z -> Q -> Energies -> energy;
  _bulge : string -> Z -> Z -> Z -> Z -> Q -> Energies -> energy;
  _internal_loop : string -> Z -> Z -> Z -> Z -> Q -> Energies -> energy;
  gm_multi_branch :
    string -> Z -> Z -> Q -> Cache -> Energies -> list (Z * Z) -> Struct;
  all_combinations : list (Z * Z) -> option Z -> Z -> list (list (Z * Z));
  open_ending_branch : Cache -> list (Z * Z) -> Struct;
  Aptamer_match :
    string -> string -> Z -> Z -> result (Sdict * Ddict * list (Z * Z));
  (** [for x in set(l)] *)
  set_iter : list (Z * Z) -> list (Z * Z);
  set_iter_perm : forall l, set_iter l ≡ₚ remove_dups l;
  (** [list(set(l) - s)] *)
  set_diff_iter : list (Z * Z) -> gset (Z * Z) -> list (Z * Z);
  set_diff_iter_perm : forall l s,
    set_diff_iter l s ≡ₚ remove_dups (filter (fun bp => bp ∉ s) l)
}.

(** What [_e] hands back: a bare struct on two of its paths, a pair on the
    others. *)
Inductive e_ret : Type :=
| RetStruct (s : Struct)
| RetPair (s : Struct) (non_branches : gset (Z * Z)).

(** ** The DP fill *)

Section Fold.
Context `{X : Externals}.

(** [emap.COMPLEMENT[seq[a]] != seq[b]] *)
Definition not_complementary (emap : Energies) (seq : string) (a b : Z)
  : result bool :=
  x ← getitem (chars seq) a;
  cx ← dict_get (COMPLEMENT emap) x;
  y ← getitem (chars seq) b;
  mret (negb (Ascii.eqb cx y)).

(** [i > 0 and j == n - 1 or i == 0 and j < n - 1]: the pair has a dangling
    end. *)
Definition dangling (i j n : Z) : bool :=
  (0 <? i) && (j =? n - 1) || (i =? 0) && (j <? n - 1).

(** ['({}, {})'.format(i, j)] *)
Definition S_key (i j : Z) : string :=
  "(" +:+ pretty i +:+ ", " +:+ pretty j +:+ ")".

(** The energy and the label of the loop between [(i, j)] and [(i1, j1)],
    or [None] where the source skips the pair at [continue]
    (lines 260 to 298). *)
Definition loop_candidate (seq : string) (i j i1 j1 : Z) (temp : Q)
    (emap : Energies) (n : Z) : option (energy * string) :=
  let pair := _pair seq i i1 j j1 in
  let pair_left := _pair seq i (i + 1) j (j - 1) in
  let pair_right := _pair seq (i1 - 1) i1 (j1 + 1) j1 in
  let pair_inner :=
    bool_decide (pair_left ∈ NN emap) || bool_decide (pair_right ∈ NN emap) in
  let stack := (i1 =? i + 1) && (j1 =? j - 1) in
  let bulge_left := i + 1 <? i1 in
  let bulge_right := j1 <? j - 1 in
  if stack then
    Some (_stack seq i i1 j j1 temp emap,
          if dangling i j n then "STACK_DE:" +:+ pair else "STACK:" +:+ pair)
  else if bulge_left && bulge_right && negb pair_inner then
    Some (_internal_loop seq i i1 j j1 temp emap,
          if (i1 - i =? 2) && (j - j1 =? 2) then
            let loop_left := str_slice seq i (i1 + 1) in
            let loop_right := str_slice seq j1 (j + 1) in
            "STACK:" +:+ loop_left +:+ "/" +:+ str_rev loop_right
          else "INTERIOR_LOOP:" +:+ pretty (i1 - i) +:+ "/" +:+ pretty (j - j1))
  else if bulge_left && negb bulge_right then
    Some (_bulge seq i i1 j j1 temp emap, "BULGE:" +:+ pretty (i1 - i))
  else if negb bulge_left && bulge_right then
    Some (_bulge seq i i1 j j1 temp emap, "BULGE:" +:+ pretty (j - j1))
  else None.

(** One turn of [for bp in S[key]] (lines 252 to 303). *)
Definition e2_step (seq : string) (i j : Z) (temp : Q) (e_cache : Cache)
    (emap : Energies) (n : Z) (e2 : Struct) (bp : Z * Z) : result Struct :=
  let i1 := bp.1 in
  let j1 := bp.2 in
  nc ← not_complementary emap seq i1 j1;
  if nc : bool then mret e2 else
  match loop_candidate seq i j i1 j1 temp emap n with
  | None => mret e2
  | Some (e2_test, e2_test_type) =>
      inner ← cell e_cache i1 j1;
      let e2_test := Float.add e2_test (e inner) in
      if Float.ne e2_test NegInf && Float.lt e2_test (e e2)
      then mret (mkStruct e2_test e2_test_type [(i1, j1)])
      else mret e2
  end.

(** One turn of [for combo in combos] (lines 315 to 319). *)
Definition e3_step (seq : string) (i j : Z) (temp : Q) (e_cache : Cache)
    (emap : Energies) (e3 : Struct) (combo : list (Z * Z)) : Struct :=
  let e3_test := gm_multi_branch seq i j temp e_cache emap combo in
  if truthy e3_test && Float.lt (e e3_test) (e e3) then e3_test else e3.

(** The multi-branch candidate (lines 307 to 319). *)
Definition e3_candidate (seq : string) (i j : Z) (temp : Q) (e_cache : Cache)
    (emap : Energies) (bps : list (Z * Z)) (non_branches : gset (Z * Z))
    (n_branches : Z) (isolated_outer : bool) : Struct :=
  let e3 := STRUCT_NULL in
  if negb isolated_outer || (i =? 0) || (j =? len seq - 1) then
    let branches := set_diff_iter bps non_branches in
    if (2 <=? length branches)%nat then
      let combos := all_combinations branches (Some 2) n_branches in
      fold_left (e3_step seq i j temp e_cache emap) combos e3
    else e3
  else e3.

(** Lines 232 to 234: the outer neighbours are looked at only when the pair
    touches neither end of the sequence. *)
Definition isolated_outer_check (emap : Energies) (seq : string) (i j : Z)
  : result bool :=
  if negb (i =? 0) && (j <? len seq - 1)
  then not_complementary emap seq (i - 1) (j + 1)
  else mret true.

(** Lines 242 and 243: the hairpin candidate [e1]. *)
Definition hairpin_struct (seq : string) (i j : Z) (temp : Q)
    (emap : Energies) : Struct :=
  let pair := _pair seq i (i + 1) j (j - 1) in
  mkStruct (_hairpin seq i j temp emap) ("HAIRPIN:" +:+ pair) [].

Definition _e (seq : string) (i j : Z) (temp : Q) (e_cache : Cache)
    (emap : Energies) (S : Sdict) (non_branches : gset (Z * Z))
    (n_branches : Z) : result (Cache * e_ret) :=
  cached ← cell e_cache i j;
  if negb (struct_eqb cached STRUCT_DEFAULT) then
    r ← cell e_cache i j;
    mret (e_cache, RetStruct r)
  else
  isolated_outer ← isolated_outer_check emap seq i j;
  isolated_inner ← not_complementary emap seq (i + 1) (j - 1);
  if isolated_outer && isolated_inner then
    e_cache ← set_cell e_cache i j (Struct1 (Fin 5000));
    r ← cell e_cache i j;
    mret (e_cache, RetStruct r)
  else
  let e1 := hairpin_struct seq i j temp emap in
  if j - i =? 4 then
    e_cache ← set_cell e_cache i j e1;
    r ← cell e_cache i j;
    mret (e_cache, RetPair r non_branches)
  else
  let n := len seq in
  let key := S_key i j in
  bps ← dict_get S key;
  e2 ← foldM (e2_step seq i j temp e_cache emap n) (Struct1 PosInf) bps;
  let e3 :=
    e3_candidate seq i j temp e_cache emap bps non_branches n_branches
      isolated_outer in
  let e_min := _min_struct [e1; e2; e3] in
  let non_branches :=
    if Float.gt (e e_min) (Fin 0) || struct_eqb e_min e3 || struct_eqb e_min e1
    then {[ (i, j) ]} ∪ non_branches
    else non_branches in
  e_cache ← set_cell e_cache i j e_min;
  mret (e_cache, RetPair e_min non_branches).

(** The locals of [_cache] that its loops update; [fs_e] is the local [e],
    unbound until the first assignment. *)
Record fill_state : Type := mkFill {
  fs_cache : Cache;
  fs_non_branches : gset (Z * Z);
  fs_min_struct : option (Z * Z);
  fs_min_ene : energy;
  fs_e : option Struct
}.

(** [if e.e < min_ene: min_struct = bp; min_ene = e.e] *)
Definition update_min (st : fill_state) (bp : Z * Z) : result fill_state :=
  match fs_e st with
  | None => Raise (UnboundLocalError "e")
  | Some e_ =>
      if Float.lt (e e_) (fs_min_ene st)
      then mret (mkFill (fs_cache st) (fs_non_branches st) (Some bp) (e e_)
                   (fs_e st))
      else mret st
  end.

(** [e, non_branches = _e(...)]: a struct cannot be unpacked. *)
Definition call_e (seq : string) (temp : Q) (emap : Energies) (S : Sdict)
    (n_branches : Z) (st : fill_state) (bp : Z * Z) : result fill_state :=
  '(e_cache, r) ←
    _e seq bp.1 bp.2 temp (fs_cache st) emap S (fs_non_branches st) n_branches;
  match r with
  | RetStruct _ => Raise (TypeError "cannot unpack non-iterable Struct object")
  | RetPair e_ non_branches =>
      mret (mkFill e_cache non_branches (fs_min_struct st) (fs_min_ene st)
              (Some e_))
  end.

(** The body of the loop when there is no stem (lines 159 to 162). *)
Definition fill_step (seq : string) (temp : Q) (emap : Energies) (S : Sdict)
    (n_branches : Z) (st : fill_state) (bp : Z * Z) : result fill_state :=
  st ← call_e seq temp emap S n_branches st bp;
  update_min st bp.

(** The forced stack of a stem pair (lines 169 to 188); [None] is the
    [continue] of line 175. *)
Definition stem_write (seq : string) (temp : Q) (emap : Energies) (n : Z)
    (e_cache : Cache) (bp : Z * Z) : result (option Cache) :=
  let i := bp.1 in
  let j := bp.2 in
  let i1 := i + 1 in
  let j1 := j - 1 in
  nc ← not_complementary emap seq i1 j1;
  if nc : bool then mret None else
  let e2 := Struct1 PosInf in
  let pair := _pair seq i i1 j j1 in
  let e2_test := _stack seq i i1 j j1 temp emap in
  let e2_test_type :=
    if dangling i j n then "STACK_DE:" +:+ pair else "STACK:" +:+ pair in
  inner ← cell e_cache i1 j1;
  let e2_test := Float.add e2_test (e inner) in
  let e2 :=
    if Float.ne e2_test NegInf && Float.lt e2_test (e e2)
    then mkStruct e2_test e2_test_type [(i1, j1)]
    else e2 in
  e_cache ← set_cell e_cache i j e2;
  mret (Some e_cache).

(** [[(k, n-1-k) for k in range(l_fix-1)]] *)
Definition fixed_bp (n l_fix : Z) : list (Z * Z) :=
  (fun k => (k, n - 1 - k)) <$> seqZ 0 (l_fix - 1).

(** The body of the loop when there is a stem (lines 168 to 193). *)
Definition stem_step (seq : string) (temp : Q) (emap : Energies) (S : Sdict)
    (n_branches : Z) (n l_fix : Z) (st : fill_state) (bp : Z * Z)
  : result fill_state :=
  if bool_decide (bp ∈ fixed_bp n l_fix) then
    w ← stem_write seq temp emap n (fs_cache st) bp;
    match w with
    | None => mret st
    | Some e_cache =>
        update_min
          (mkFill e_cache (fs_non_branches st) (fs_min_struct st)
             (fs_min_ene st) (fs_e st)) bp
    end
  else
    st ← call_e seq temp emap S n_branches st bp;
    update_min st bp.

(** [sorted(..., key=int)] on the entries of [D]: a stable insertion sort. *)
Fixpoint insert_by_key (x : Z * list (Z * Z)) (l : Ddict) : Ddict :=
  match l with
  | [] => [x]
  | y :: l' => if x.1 <=? y.1 then x :: l else y :: insert_by_key x l'
  end.

Definition sorted_by_key (D : Ddict) : Ddict :=
  foldr insert_by_key [] D.

(** [for d in sorted(list(D.keys()), key=int): for bp in set(D[d]): ...] *)
Definition for_each_bp (D : Ddict)
    (body : fill_state -> Z * Z -> result fill_state) (st : fill_state)
  : result fill_state :=
  foldM (fun st entry => foldM body st (set_iter entry.2)) st (sorted_by_key D).

(** Lines 138 to 143: the energy table of the mode. *)
Definition emap_of_mode (mode : string) : result Energies :=
  if String.eqb mode "dna" then mret DNA_ENERGIES
  else if String.eqb mode "rna" then mret RNA_ENERGIES
  else py_raise
         (PyTuple [PyExcClass ValueError;
                   PyStr ("mode must be either [dna, rna] but found value "
                          +:+ mode)]).

Definition _cache (seq : string) (temp : Q) (S : Sdict) (D : Ddict)
    (l_fix : Z) (n_branches : Z) (mode : string)
  : result (Cache * option (Z * Z) * energy) :=
  let seq := upper seq in
  let temp := (temp + (27315 # 100))%Q in
  emap ← emap_of_mode mode;
  let n := len seq in
  let e_cache := new_cache n in
  let st := mkFill e_cache ∅ None PosInf None in
  st ←
    (if l_fix =? 0
     then for_each_bp D (fill_step seq temp emap S n_branches) st
     else mret st);
  st ←
    (if 0 <? l_fix
     then for_each_bp D (stem_step seq temp emap S n_branches n l_fix) st
     else mret st);
  mret (fs_cache st, fs_min_struct st, fs_min_ene st).

(** ** The traceback *)

(** [Struct(round(s.e - x, 1), s.desc, list(s.ij))] *)
Definition marginal (s : Struct) (x : energy) : Struct :=
  mkStruct (Float.round1 (Float.sub (e s) x)) (desc s) (ij s).

Definition _trackback_energy (structs : list Struct) : list Struct :=
  imap
    (fun index struct =>
       let e_next :=
         if bool_decide (Z.of_nat index = Z.of_nat (length structs) - 1)
         then Fin 0
         else match structs !! S index with
              | Some next => e next
              | None => Fin 0
              end in
       marginal struct e_next)
    structs.

(** One turn of [for i1, j1 in s.ij] (lines 393 to 397); [traceback] is the
    recursive call. *)
Definition branch_step (traceback : Z -> Z -> result (list Struct))
    (e_cache : Cache) (acc : energy * list Struct) (bp : Z * Z)
  : result (energy * list Struct) :=
  let '(e_sum, branches) := acc in
  let '(i1, j1) := bp in
  tb ← traceback i1 j1;
  match tb with
  | t :: _ =>
      if bool_decide (ij t ≠ []) then
        child ← cell e_cache i1 j1;
        mret (Float.add e_sum (e child), branches ++ tb)
      else mret acc
  | [] => mret acc
  end.

(** The [while True] loop of [gm_traceback] (lines 374 to 403).  A call of
    [gm_traceback] with [l_fix = 0], as the one on each branch is, is this
    loop on an empty list. *)
Fixpoint gm_traceback_loop (fuel : nat) (e_cache : Cache) (i j : Z)
    (structs : list Struct) : result (list Struct) :=
  match fuel with
  | O => Timeout
  | S fuel =>
      s ← cell e_cache i j;
      let structs := structs ++ [with_ij s [(i, j)]] in
      match ij s with
      | [] => mret (_trackback_energy structs)
      | [(i1, j1)] => gm_traceback_loop fuel e_cache i1 j1 structs
      | children =>
          let structs := _trackback_energy structs in
          '(e_sum, branches) ←
            foldM
              (branch_step
                 (fun i1 j1 => gm_traceback_loop fuel e_cache i1 j1 [])
                 e_cache)
              (Fin 0, []) children;
          last ← getitem structs (-1);
          structs ← setitem structs (-1) (marginal last e_sum);
          mret (structs ++ branches)
      end
  end.

(** One turn of [for k in range(1, l_fix)] (lines 365 and 366).  The
    assignment [s.ij[0] = ...] changes the list of the struct held by the
    cell.  The only structs shared between cells are the two sentinels, whose
    list is empty, and there the assignment raises; so updating the one cell
    is what the shared store does. *)
Definition stem_rewrite (e_cache : Cache) (k : Z) : result Cache :=
  let n := Z.of_nat (length e_cache) in
  s ← cell e_cache (k - 1) (n - k);
  children ← setitem (ij s) 0 (k, n - 1 - k);
  set_cell e_cache (k - 1) (n - k) (mkStruct (e s) (desc s) children).

Definition gm_traceback (fuel : nat) (i j : Z) (e_cache : Cache) (l_fix : Z)
  : result (list Struct) :=
  if 1 <? l_fix then
    e_cache ← foldM stem_rewrite e_cache (seqZ 1 (l_fix - 1));
    gm_traceback_loop fuel e_cache 0 (Z.of_nat (length e_cache) - 1) []
  else if l_fix =? 1 then
    gm_traceback_loop fuel e_cache 0 (Z.of_nat (length e_cache) - 1) []
  else gm_traceback_loop fuel e_cache i j [].


(** The sum of the energies of a list of structs. *)
Definition energy_sum (structs : list Struct) : energy :=
  foldr (fun s acc => Float.add (e s) acc) (Fin 0) structs.

(** The same sum as a rational, for a list of structs of finite energy. *)
Definition value (a : energy) : Q :=
  match a with Fin q => q | _ => 0 end.





(** The energy cached for a pair. *)
Definition cached_energy (e_cache : Cache) (bp : Z * Z) : energy :=
  match cell e_cache bp.1 bp.2 with
  | Ok s => e s
  | _ => NaN
  end.


(** ** The fold *)

(** [min_struct[0]], [min_struct[1]]: [None] has no items. *)
Definition subscript (min_struct : option (Z * Z)) : result (Z * Z) :=
  match min_struct with
  | Some bp => Ok bp
  | None => Raise (TypeError "'NoneType' object is not subscriptable")
  end.

(** One turn of [for combo in combos] (lines 88 to 92). *)
Definition exterior_step (n : Z) (st : Cache * option (Z * Z))
    (combo : list (Z * Z)) : result (Cache * option (Z * Z)) :=
  let e3_test := open_ending_branch st.1 combo in
  if truthy e3_test then
    ms ← subscript st.2;
    best ← cell st.1 ms.1 ms.2;
    if Float.lt (e e3_test) (e best) then
      e_cache ← set_cell st.1 0 (n - 1) e3_test;
      mret (e_cache, Some (0, n - 1))
    else mret st
  else mret st.

(** The exterior multi-branch resolver (lines 77 to 92). *)
Definition resolve_exterior (n l_fix n_branches : Z) (bps : list (Z * Z))
    (e_cache : Cache) (min_struct : option (Z * Z)) (min_ene : energy)
  : result (Cache * option (Z * Z)) :=
  whole ← cell e_cache 0 (n - 1);
  if (Float.gt (e whole) min_ene || struct_eqb whole STRUCT_DEFAULT)
     && (l_fix =? 0) then
    branches ←
      foldM
        (fun branches bp =>
           c ← cell e_cache bp.1 bp.2;
           if Float.lt (e c) (Fin 0) then mret (branches ++ [bp])
           else mret branches)
        [] (set_iter bps);
    let combos := all_combinations branches None n_branches in
    foldM (exterior_step n) (e_cache, min_struct) combos
  else mret (e_cache, min_struct).

Definition gmfold (fuel : nat) (seq : string) (temp : Q) (l_fix : Z)
    (n_branches : Z) (mode : string) : result (list Struct) :=
  '(Sij, D, bps) ← Aptamer_match mode seq 4 l_fix;
  '(e_cache, min_struct, min_ene) ←
    _cache seq temp Sij D l_fix n_branches mode;
  let n := len seq in
  '(e_cache, min_struct) ←
    resolve_exterior n l_fix n_branches bps e_cache min_struct min_ene;
  ms ← subscript min_struct;
  gm_traceback fuel ms.1 ms.2 e_cache l_fix.

(** ** Labels and children *)

Definition is_hairpin_label (d : string) : bool := String.prefix "HAIRPIN:" d.

Definition is_link_label (d : string) : bool :=
  String.prefix "STACK:" d || String.prefix "STACK_DE:" d
  || String.prefix "BULGE:" d || String.prefix "INTERIOR_LOOP:" d.

(** A struct that the multi-branch function of the energy model returned. *)
Definition is_multi_branch (s : Struct) : Prop :=
  exists seq i j temp e_cache emap combo,
    s = gm_multi_branch seq i j temp e_cache emap combo.

(** The classification by the number of children, as the data model states
    it: no child, a hairpin; one child, a stack, bulge or interior loop; two
    or more, a multi-branch loop. *)
Definition classified_by_children (s : Struct) : Prop :=
  match ij s with
  | [] => is_hairpin_label (desc s) = true
  | [_] => is_link_label (desc s) = true
  | _ => is_multi_branch s
  end.

(** The same with the two unlabelled structs the fill also writes: the
    penalty of an isolated pair, and "no valid structure". *)
Definition classified_or_sentinel (s : Struct) : Prop :=
  match ij s with
  | [] =>
      is_hairpin_label (desc s) = true
      \/ s = Struct1 (Fin 5000) \/ s = Struct1 PosInf
  | [_] => is_link_label (desc s) = true
  | _ => is_multi_branch s
  end.

(** Every struct of the cache is unfilled or classified. *)
Definition all_classified (e_cache : Cache) : Prop :=
  forall r k s,
    at_pos e_cache r k = Some s ->
    s = STRUCT_DEFAULT \/ classified_or_sentinel s.

End Fold.

(** ** The dot-bracket encoder *)

Definition gm_dot_bracket (seq : string) (structs : list Struct)
  : result string :=
  let result := replicate (String.length seq) "." in
  first ← getitem structs 0;
  let structs :=
    if String.eqb (str_slice (desc first) 0 24) "OPEN_ENDING_MULTI_BRANCH"
    then drop 1 structs else structs in
  result ←
    foldM
      (fun result s =>
         match ij s with
         | [(i, j)] =>
             result ← setitem result i "(";
             setitem result j ")"
         | _ => mret result
         end)
      result structs;
  mret (String.concat "" result).

(** One turn of [for s in structs] in the dot-bracket encoder (lines 112 to
    116). *)
Definition mark_pair (buf : list string) (s : Struct) : result (list string) :=
  match ij s with
  | [(i, j)] =>
      buf ← setitem buf i "(";
      setitem buf j ")"
  | _ => mret buf
  end.

(** ** The structural matrix *)

(** [np.zeros((n, n), dtype=int)] *)
Definition np_zeros (n : Z) : result (list (list Z)) :=
  if n <? 0 then Raise (ValueError "negative dimensions are not allowed")
  else mret (replicate (Z.to_nat n) (replicate (Z.to_nat n) 0)).

(** [M[i, j] = v] on a two-dimensional array: a subscript outside its axis
    raises, a negative one counts from the end. *)
Definition np_set (M : list (list Z)) (i j : Z) (v : Z)
  : result (list (list Z)) :=
  row ← getitem M i;
  row' ← setitem row j v;
  setitem M i row'.

(** Lines 38 to 41: a [size] that is absent or zero gives way to the length
    of the sequence. *)
Definition matrix_size (seq : string) (size : option Z) : Z :=
  match size with
  | Some k => if k =? 0 then len seq else k
  | None => len seq
  end.

(** Lines 45 and 46, as lines 109 and 110: a leading open loop is left
    out. *)
Definition skip_open_loop (first : Struct) (structs : list Struct)
  : list Struct :=
  if String.eqb (str_slice (desc first) 0 24) "OPEN_ENDING_MULTI_BRANCH"
  then drop 1 structs else structs.

(** One turn of [for s in structs] (lines 48 to 52). *)
Definition set_pair (M : list (list Z)) (s : Struct) : result (list (list Z)) :=
  match ij s with
  | [(i, j)] =>
      M ← np_set M i j 1;
      np_set M j i 1
  | _ => mret M
  end.

Definition gm_s_matrix (seq : string) (structs : list Struct)
    (size : option Z) : result (list (list Z)) :=
  let n := matrix_size seq size in
  M ← np_zeros n;
  first ← getitem structs 0;
  let structs := skip_open_loop first structs in
  foldM set_pair M structs.

(** ** Notions the properties are stated with *)

(** The entry at row [r], column [k] of a matrix. *)
Definition mat_at (M : list (list Z)) (r k : nat) : option Z :=
  M !! r ≫= (fun row => row !! k).

(** [n] rows of [n] entries. *)
Definition square {A : Type} (n : nat) (M : list (list A)) : Prop :=
  length M = n /\ Forall (fun row => length row = n) M.

(** The structs that the two encoders go through. *)
Definition encoded (structs : list Struct) : list Struct :=
  match structs with
  | first :: _ => skip_open_loop first structs
  | [] => []
  end.

(** The pairs of positions, in a sequence of length [n], that the structs
    with exactly one entry in [ij] name, and the positions in them. *)
Definition named_pairs (n : nat) (structs : list Struct) : list (nat * nat) :=
  flat_map
    (fun s =>
       match ij s with
       | [(i, j)] =>
           match py_norm n i, py_norm n j with
           | Some a, Some b => [(a, b)]
           | _, _ => []
           end
       | _ => []
       end)
    structs.

Definition named_positions (n : nat) (structs : list Struct) : list nat :=
  flat_map (fun p => [p.1; p.2]) (named_pairs n structs).

(** Every subscript of the structs with one entry in [ij] is within a
    sequence of length [n]. *)
Definition subscripts_within (n : nat) (structs : list Struct) : Prop :=
  Forall
    (fun s =>
       forall i j, ij s = [(i, j)] ->
         is_Some (py_norm n i) /\ is_Some (py_norm n j))
    structs.

(** The struct names a cell of the cache and carries its label. *)
Definition names_cell (e_cache : Cache) (t : Struct) : Prop :=
  exists a b s, ij t = [(a, b)] /\ cell e_cache a b = Ok s /\ desc t = desc s.

(** The pair is listed in the candidate index [D]. *)
Definition in_D (D : Ddict) (bp : Z * Z) : Prop :=
  exists d l, (d, l) ∈ D /\ bp ∈ l.

(** The cache is square, and only cells of candidate pairs are filled. *)
Definition filled_within (n : nat) (D : Ddict) (c : Cache) : Prop :=
  square n c
  /\ forall r k s, at_pos c r k = Some s -> s <> STRUCT_DEFAULT ->
       exists bp, in_D D bp /\ py_norm n bp.1 = Some r
                  /\ py_norm n bp.2 = Some k.

(** What holds between the turns of the loop of lines 166 to 193: the energy
    left in [e] is not below [min_ene], and the root is a pair that is not
    forced. *)
Definition stem_inv (n l_fix : Z) (D : Ddict) (st : fill_state) : Prop :=
  (forall e_, fs_e st = Some e_ -> Float.lt (e e_) (fs_min_ene st) = false)
  /\ forall m, fs_min_struct st = Some m ->
       in_D D m /\ m ∉ fixed_bp n l_fix.

(** What the fill with a stem keeps true of the cells of the forced pairs:
    one that has a child belongs to a pair of [D] whose inner neighbours are
    complementary. *)
Definition stem_cells_inv (seq : string) (emap : Energies) (n l_fix : Z)
    (D : Ddict) (c : Cache) : Prop :=
  forall k s, 0 <= k < l_fix - 1 ->
    cell c k (n - 1 - k) = Ok s -> ij s <> [] ->
    in_D D (k, n - 1 - k)
    /\ not_complementary emap seq (k + 1) (n - 2 - k) = Ok false.

(** The string holds no occurrence of the character. *)
Definition free_of (c : ascii) (s : string) : Prop :=
  Forall (fun x => x <> c) (chars s).

(** The struct that a call of [_e] hands back, bare or in a pair. *)
Definition returned (ret : e_ret) : Struct :=
  match ret with
  | RetStruct s => s
  | RetPair s _ => s
  end.

Section Notions.
Context `{X : Externals}.

(** What holds between the turns of the loop of lines 157 to 162, [V] being
    the pairs visited so far: each of their cells has an energy that is not
    below [min_ene], a cell that still compares equal to the unfilled one is
    a hairpin of span four, and the root is a visited pair whose cell has the
    energy [min_ene]. *)
Definition root_inv (seq : string) (temp : Q) (emap : Energies)
    (V : list (Z * Z)) (st : fill_state) : Prop :=
  (forall bp, bp ∈ V ->
     0 <= bp.1 /\ 0 <= bp.2
     /\ exists s,
          cell (fs_cache st) bp.1 bp.2 = Ok s
          /\ Float.lt (e s) (fs_min_ene st) = false
          /\ (struct_eqb s STRUCT_DEFAULT = true ->
              bp.2 - bp.1 = 4 /\ s = hairpin_struct seq bp.1 bp.2 temp emap))
  /\ match fs_min_struct st with
     | Some m =>
         m ∈ V
         /\ exists s, cell (fs_cache st) m.1 m.2 = Ok s /\ e s = fs_min_ene st
     | None => fs_min_ene st = PosInf
     end.

(** The energy that the loop of lines 252 to 303 tries for the pair [bp] of
    [S[key]]: that of the loop between [(i, j)] and [bp] plus the energy
    cached for [bp]; [None] where the pair is skipped. *)
Definition loop_energy (seq : string) (i j : Z) (temp : Q) (c : Cache)
    (emap : Energies) (bp : Z * Z) : option energy :=
  match not_complementary emap seq bp.1 bp.2,
        loop_candidate seq i j bp.1 bp.2 temp emap (len seq),
        cell c bp.1 bp.2 with
  | Ok false, Some (en, _), Ok inner => Some (Float.add en (e inner))
  | _, _, _ => None
  end.

End Notions.

(** ** A small energy model and candidate index

    The collaborators of the fold are not among the sources; this instance is
    what the closed examples below run the fold on. *)

Module Toy.

Definition dna : Energies :=
  mkEnergies
    (list_to_map
       [("A", "T"); ("T", "A"); ("G", "C"); ("C", "G"); ("N", "N")]%char)
    ∅.

Definition rna : Energies :=
  mkEnergies
    (list_to_map
       [("A", "U"); ("U", "A"); ("G", "C"); ("C", "G"); ("N", "N")]%char)
    ∅.

Definition char_at (s : string) (i : Z) : string :=
  if i <? 0 then "."
  else match getitem (chars s) i with
       | Ok c => String c ""
       | _ => "."
       end.

Definition pair (s : string) (i i1 j j1 : Z) : string :=
  char_at s i +:+ char_at s i1 +:+ "/" +:+ char_at s j +:+ char_at s j1.

(** Modelled from the spec: the hairpin function of the energy model, which
    is not among the sources: a hairpin candidate exists only "when the span
    is large enough to enclose a minimal loop"; below that span the energy
    is the infinite one of "no valid structure". *)
Definition hairpin (seq : string) (i j : Z) (temp : Q) (emap : Energies)
  : energy :=
  if j - i <? 4 then PosInf else Fin (13 # 4).

Definition stack (seq : string) (i i1 j j1 : Z) (temp : Q) (emap : Energies)
  : energy := Fin (- (29 # 20)).

Definition bulge (seq : string) (i i1 j j1 : Z) (temp : Q) (emap : Energies)
  : energy := Fin (14 # 5).

Definition internal_loop (seq : string) (i i1 j j1 : Z) (temp : Q)
    (emap : Energies) : energy := Fin (33 # 10).

(** The sum of the cached energies of the pairs of [combo]. *)
Definition branch_sum (e_cache : Cache) (combo : list (Z * Z)) : energy :=
  foldr
    (fun bp acc =>
       match cell e_cache bp.1 bp.2 with
       | Ok s => Float.add (e s) acc
       | _ => NaN
       end)
    (Fin 0) combo.

Definition multi_branch (seq : string) (i j : Z) (temp : Q) (e_cache : Cache)
    (emap : Energies) (combo : list (Z * Z)) : Struct :=
  mkStruct (Float.add (Fin (17 # 5)) (branch_sum e_cache combo))
    "BIFURCATION" combo.

Definition open_ending (e_cache : Cache) (combo : list (Z * Z)) : Struct :=
  mkStruct (branch_sum e_cache combo) "OPEN_ENDING_MULTI_BRANCH" combo.

Fixpoint sublists {A : Type} (l : list A) : list (list A) :=
  match l with
  | [] => [[]]
  | x :: l => ((fun c => x :: c) <$> sublists l) ++ sublists l
  end.

Definition disjoint (a b : Z * Z) : bool :=
  (a.2 <? b.1) || (b.2 <? a.1).

Fixpoint non_overlapping (c : list (Z * Z)) : bool :=
  match c with
  | [] => true
  | a :: c => forallb (disjoint a) c && non_overlapping c
  end.

Definition combinations (branches : list (Z * Z)) (r1 : option Z) (r2 : Z)
  : list (list (Z * Z)) :=
  filter
    (fun c =>
       Is_true
         ((default 1 r1 <=? Z.of_nat (length c))
          && (Z.of_nat (length c) <=? r2)
          && non_overlapping c))
    (sublists branches).

Definition nested (a b : Z * Z) : bool :=
  (a.1 <? b.1) && (b.1 <? b.2) && (b.2 <? a.2).

(** The index of a list of candidate pairs: the pairs nested in each pair,
    and the pairs by span. *)
Definition Sij_of (bps : list (Z * Z)) : Sdict :=
  list_to_map
    ((fun a => (S_key a.1 a.2, filter (fun b => Is_true (nested a b)) bps))
       <$> bps).

Definition D_of (bps : list (Z * Z)) : Ddict :=
  (fun d => (d, filter (fun b => b.2 - b.1 = d) bps))
    <$> remove_dups ((fun b => b.2 - b.1) <$> bps).

Definition index_of (bps : list (Z * Z))
  : result (Sdict * Ddict * list (Z * Z)) :=
  Ok (Sij_of bps, D_of bps, bps).

Definition externals
    (index : string -> string -> Z -> Z -> result (Sdict * Ddict * list (Z * Z)))
  : Externals :=
  {| DNA_ENERGIES := dna;
     RNA_ENERGIES := rna;
     _pair := pair;
     _hairpin := hairpin;
     _stack := stack;
     _bulge := bulge;
     _internal_loop := internal_loop;
     gm_multi_branch := multi_branch;
     all_combinations := combinations;
     open_ending_branch := open_ending;
     Aptamer_match := index;
     set_iter := remove_dups;
     set_iter_perm := fun l => Permutation_refl _;
     set_diff_iter := fun l s => remove_dups (filter (fun bp => bp ∉ s) l);
     set_diff_iter_perm := fun l s => Permutation_refl _ |}.

(** A cache of ten rows with a favourable structure on (0, 4) and one on
    (5, 9), and the same cache once the exterior resolver has written the
    open loop over both into the whole-sequence cell. *)
Definition favourable : Struct := mkStruct (Fin (- (11 # 10))) "HAIRPIN:GA/CA" [].

Definition two_hairpins : Cache :=
  <[0%nat := <[4%nat := favourable]> (replicate 10 STRUCT_DEFAULT)]>
    (<[5%nat := <[9%nat := favourable]> (replicate 10 STRUCT_DEFAULT)]>
       (new_cache 10)).

Definition two_hairpins_resolved : Cache :=
  <[0%nat :=
      <[9%nat := open_ending two_hairpins [(0, 4); (5, 9)]]>
        (<[4%nat := favourable]> (replicate 10 STRUCT_DEFAULT))]>
    two_hairpins.

(** The collaborators with a candidate index made of the pairs [bps]. *)
Definition with_pairs (bps : list (Z * Z)) : Externals :=
  externals (fun _ _ _ _ => index_of bps).

(** The fill of GGGGAAAACCCC with a forced stem of two pairs, over a
    candidate index that proposes the four pairs of its helix. *)
Definition helix : list (Z * Z) := [(0, 11); (1, 10); (2, 9); (3, 8)].

Definition helix_fill : list (list Struct) * option (Z * Z) * energy :=
  Eval vm_compute in
    match
      _cache (X:=with_pairs helix) "GGGGAAAACCCC" 37 (Sij_of helix)
        (D_of helix) 2 4 "dna"
    with
    | Ok r => r
    | _ => ([], None, NaN)
    end.

(** The fill of GGGGAAAACCCC without a stem, and the fold it leads to. *)
Definition helix_free_fill : list (list Struct) * option (Z * Z) * energy :=
  Eval vm_compute in
    match
      _cache (X:=with_pairs helix) "GGGGAAAACCCC" 37 (Sij_of helix)
        (D_of helix) 0 4 "dna"
    with
    | Ok r => r
    | _ => ([], None, NaN)
    end.

Definition helix_fold : list Struct :=
  Eval vm_compute in
    match gmfold (X:=with_pairs helix) 10 "GGGGAAAACCCC" 37 0 4 "dna" with
    | Ok L => L
    | _ => []
    end.

(** The cache of GGGGAAAACCCC once the innermost pair (3, 8) is resolved. *)
Definition helix_inner : list (list Struct) :=
  Eval vm_compute in
    match
      _e (X:=with_pairs helix) "GGGGAAAACCCC" 3 8 (31015 # 100) (new_cache 12)
        dna (Sij_of helix) ∅ 4
    with
    | Ok (c, _) => c
    | _ => []
    end.

(** A cache of two rows whose cell (0, 1) is a link to itself. *)
Definition self_linked : list (list Struct) :=
  [[STRUCT_DEFAULT; mkStruct (Fin 0) "STACK:AA/TT" [(0, 1)]];
   [STRUCT_DEFAULT; STRUCT_DEFAULT]].

End Toy.

(** * Properties *)

(** ** Order on energies *)

Module FloatFacts.

Lemma lt_spec_fin x y : Float.lt (Fin x) (Fin y) = true <-> (x < y)%Q.
Proof.
  simpl. rewrite negb_true_iff. split.
  - intros H. apply Qnot_le_lt. intros Hle.
    apply Qle_bool_iff in Hle. congruence.
  - intros H. destruct (Qle_bool y x) eqn:E; [|done].
    apply Qle_bool_iff in E. lra.
Qed.

Lemma eq_spec_fin x y : Float.eq (Fin x) (Fin y) = true <-> (x == y)%Q.
Proof. simpl. apply Qeq_bool_iff. Qed.

Lemma le_spec_fin x y : Float.le (Fin x) (Fin y) = true <-> (x <= y)%Q.
Proof.
  unfold Float.le. rewrite orb_true_iff, lt_spec_fin, eq_spec_fin. lra.
Qed.

Lemma lt_le a b : Float.lt a b = true -> Float.le a b = true.
Proof. unfold Float.le. intros ->. done. Qed.

Lemma le_refl a : a <> NaN -> Float.le a a = true.
Proof.
  destruct a; try done. intros _. apply le_spec_fin. lra.
Qed.

Lemma le_trans a b c :
  Float.le a b = true -> Float.le b c = true -> Float.le a c = true.
Proof.
  destruct a, b, c; try done; rewrite !le_spec_fin; lra.
Qed.

Lemma le_total a b :
  a <> NaN -> b <> NaN -> Float.lt a b = false -> Float.le b a = true.
Proof.
  destruct a, b; try done; intros _ _ H.
  apply le_spec_fin. destruct (Qlt_le_dec q q0) as [Hlt|Hle]; [|done].
  apply lt_spec_fin in Hlt. congruence.
Qed.

Lemma lt_not_nan a b : Float.lt a b = true -> a <> NaN /\ b <> NaN.
Proof. destruct a, b; done. Qed.

Lemma lt_PosInf_fin a :
  Float.ne a NegInf = true -> Float.lt a PosInf = true -> Float.is_fin a = true.
Proof. destruct a; done. Qed.

End FloatFacts.

(** ** [_min_struct] *)

Section MinStruct.

Let pick (s struct : Struct) : Struct :=
  if Float.ne (e struct) NegInf && Float.lt (e struct) (e s)
  then struct else s.

(** The loop of [_min_struct] started from any struct [s] whose energy is a
    number other than minus infinity. *)
Lemma min_loop_inv (l : list Struct) (s : Struct) :
  e s <> NaN -> e s <> NegInf ->
  (fold_left pick l s = s
   \/ (fold_left pick l s ∈ l /\ Float.is_fin (e (fold_left pick l s)) = true))
  /\ e (fold_left pick l s) <> NaN /\ e (fold_left pick l s) <> NegInf
  /\ Float.le (e (fold_left pick l s)) (e s) = true
  /\ (forall x, x ∈ l -> e x <> NaN -> e x <> NegInf ->
        Float.le (e (fold_left pick l s)) (e x) = true).
Proof.
  revert s. induction l as [|a l IH]; intros s Hn Hi; cbn [fold_left].
  - repeat split; auto using FloatFacts.le_refl.
    intros x Hx. by apply elem_of_nil in Hx.
  - destruct (Float.ne (e a) NegInf && Float.lt (e a) (e s)) eqn:E.
    + assert (pick s a = a) as -> by (unfold pick; by rewrite E).
      apply andb_true_iff in E as [E1 E2].
      pose proof (FloatFacts.lt_not_nan _ _ E2) as [Ha _].
      assert (Hai : e a <> NegInf) by (destruct (e a); done).
      assert (Hfin : Float.is_fin (e a) = true).
      { destruct (e a), (e s); done. }
      destruct (IH a Ha Hai) as (Hr & Hrn & Hri & Hle & Hall).
      repeat split; auto.
      * right. destruct Hr as [-> | [Hr Hf]].
        -- split; [apply elem_of_cons; auto | done].
        -- split; [apply elem_of_cons; auto | done].
      * eapply FloatFacts.le_trans; [exact Hle|]. by apply FloatFacts.lt_le.
      * intros x Hx Hxn Hxi. apply elem_of_cons in Hx as [-> | Hx]; auto.
    + assert (pick s a = s) as -> by (unfold pick; by rewrite E).
      destruct (IH s Hn Hi) as (Hr & Hrn & Hri & Hle & Hall).
      repeat split; auto.
      * destruct Hr as [-> | [Hr Hf]]; [by left|right].
        split; [apply elem_of_cons; auto | done].
      * intros x Hx Hxn Hxi. apply elem_of_cons in Hx as [-> | Hx]; auto.
        eapply FloatFacts.le_trans; [exact Hle|].
        apply FloatFacts.le_total; auto.
        apply andb_false_iff in E as [E | E]; [|done].
        destruct (e a); done.
Qed.


Lemma min_struct_cases (structs : list Struct) :
  (_min_struct structs = STRUCT_NULL
   \/ (_min_struct structs ∈ structs
       /\ Float.is_fin (e (_min_struct structs)) = true))
  /\ e (_min_struct structs) <> NaN.
Proof.
  destruct (min_loop_inv structs STRUCT_NULL) as (Hr & Hrn & _); [done..|].
  done.
Qed.



End MinStruct.

(** ** The error monad, subscripts and cache cells *)

Lemma bind_Ok {A B : Type} (m : result A) (f : A -> result B) (b : B) :
  m ≫= f = Ok b <-> exists a, m = Ok a /\ f a = Ok b.
Proof.
  destruct m as [a| |]; simpl; split; try done.
  - intros H. by exists a.
  - by intros (a' & [= ->] & H).
  - by intros (a' & [=] & _).
  - by intros (a' & [=] & _).
Qed.

Lemma bind_Ok_l {A B : Type} (m : result A) (f : A -> result B) (a : A) :
  m = Ok a -> m ≫= f = f a.
Proof. by intros ->. Qed.

(** Splits a hypothesis [x ← m; k = Ok b] into [m = Ok a] and [k a = Ok b]. *)
Tactic Notation "inv_bind" hyp(H) "as" ident(a) ident(Ha) :=
  apply bind_Ok in H as (a & Ha & H).

Lemma py_norm_lt (n : nat) (i : Z) (k : nat) :
  py_norm n i = Some k -> (k < n)%nat.
Proof.
  unfold py_norm. intros H.
  destruct (_ && _) eqn:E; [|done]. injection H as <-.
  apply andb_true_iff in E as [E1 E2]. lia.
Qed.

Lemma py_norm_nonneg (n : nat) (i : Z) :
  0 <= i < Z.of_nat n -> py_norm n i = Some (Z.to_nat i).
Proof.
  intros H. unfold py_norm.
  destruct (i <? 0) eqn:E; [lia|].
  destruct (_ && _) eqn:E'; [done|].
  apply andb_false_iff in E' as [E'|E']; lia.
Qed.

Lemma py_norm_nonneg_inv (n : nat) (i : Z) (k : nat) :
  0 <= i -> py_norm n i = Some k -> k = Z.to_nat i /\ i < Z.of_nat n.
Proof.
  intros Hi. unfold py_norm. destruct (i <? 0) eqn:E; [lia|].
  destruct (_ && _) eqn:E'; [|done]. intros [= <-].
  apply andb_true_iff in E' as [_ E']. lia.
Qed.

Lemma py_norm_last (n : nat) :
  (0 < n)%nat -> py_norm n (-1) = Some (n - 1)%nat.
Proof.
  intros H. unfold py_norm. simpl.
  destruct (_ && _) eqn:E.
  - f_equal. lia.
  - apply andb_false_iff in E as [E|E]; lia.
Qed.

Lemma getitem_Ok {A : Type} (l : list A) (i : Z) (x : A) :
  getitem l i = Ok x <->
  exists k, py_norm (length l) i = Some k /\ l !! k = Some x.
Proof.
  unfold getitem. destruct (py_norm (length l) i) as [k|]; simpl.
  - destruct (l !! k) as [y|] eqn:E; split.
    + intros [= ->]. eauto.
    + intros (k' & [= <-] & H). congruence.
    + done.
    + intros (k' & [= <-] & H). congruence.
  - split; [done|]. by intros (k & H & _).
Qed.

Lemma setitem_Ok {A : Type} (l : list A) (i : Z) (x : A) (l' : list A) :
  setitem l i x = Ok l' <->
  exists k, py_norm (length l) i = Some k /\ l' = <[k:=x]> l.
Proof.
  unfold setitem. destruct (py_norm (length l) i) as [k|]; split.
  - intros [= <-]. eauto.
  - by intros (k' & [= <-] & ->).
  - done.
  - by intros (k & H & _).
Qed.

Lemma getitem_setitem {A : Type} (l : list A) (i : Z) (x : A) (l' : list A) :
  setitem l i x = Ok l' -> getitem l' i = Ok x.
Proof.
  intros (k & Hk & ->)%setitem_Ok. apply getitem_Ok. exists k.
  rewrite length_insert. split; [done|].
  apply list_lookup_insert_eq. by eapply py_norm_lt.
Qed.

Lemma setitem_of_getitem {A : Type} (l : list A) (i : Z) (x y : A) :
  getitem l i = Ok y -> exists l', setitem l i x = Ok l'.
Proof.
  intros (k & Hk & _)%getitem_Ok. exists (<[k:=x]> l).
  apply setitem_Ok. eauto.
Qed.

Lemma cell_Ok (e_cache : Cache) (i j : Z) (s : Struct) :
  cell e_cache i j = Ok s <->
  exists r k row,
    py_norm (length e_cache) i = Some r /\ e_cache !! r = Some row
    /\ py_norm (length row) j = Some k /\ row !! k = Some s.
Proof.
  unfold cell. rewrite bind_Ok. split.
  - intros (row & (r & Hr & Hrow)%getitem_Ok & (k & Hk & Hs)%getitem_Ok).
    by exists r, k, row.
  - intros (r & k & row & Hr & Hrow & Hk & Hs). exists row.
    split; apply getitem_Ok; eauto.
Qed.

(** An assignment to a cell succeeds exactly where the cell can be read, the
    cell then holds the struct, the shape of the cache is kept, and no other
    position changes. *)
Lemma set_cell_Ok (e_cache : Cache) (i j : Z) (s : Struct) (c' : Cache) :
  set_cell e_cache i j s = Ok c' ->
  exists r k row,
    py_norm (length e_cache) i = Some r /\ e_cache !! r = Some row
    /\ py_norm (length row) j = Some k
    /\ c' = <[r:=<[k:=s]> row]> e_cache.
Proof.
  unfold set_cell. intros H.
  inv_bind H as row Hget. apply getitem_Ok in Hget as (r & Hr & Hrow).
  inv_bind H as row' Hset. apply setitem_Ok in Hset as (k & Hk & ->).
  apply setitem_Ok in H as (r' & Hr' & ->).
  assert (r' = r) as -> by congruence.
  by exists r, k, row.
Qed.

Lemma set_cell_of_cell (e_cache : Cache) (i j : Z) (s s0 : Struct) :
  cell e_cache i j = Ok s0 -> exists c', set_cell e_cache i j s = Ok c'.
Proof.
  intros (r & k & row & Hr & Hrow & Hk & Hs)%cell_Ok.
  exists (<[r:=<[k:=s]> row]> e_cache). unfold set_cell.
  assert (getitem e_cache i = Ok row) as -> by (apply getitem_Ok; eauto).
  simpl.
  assert (setitem row j s = Ok (<[k:=s]> row)) as ->
    by (apply setitem_Ok; eauto).
  simpl. apply setitem_Ok. eauto.
Qed.

Lemma cell_set_cell (e_cache : Cache) (i j : Z) (s : Struct) (c' : Cache) :
  set_cell e_cache i j s = Ok c' -> cell c' i j = Ok s.
Proof.
  intros (r & k & row & Hr & Hrow & Hk & ->)%set_cell_Ok.
  pose proof (py_norm_lt _ _ _ Hr). pose proof (py_norm_lt _ _ _ Hk).
  apply cell_Ok. exists r, k, (<[k:=s]> row).
  split_and!.
  - by rewrite length_insert.
  - by apply list_lookup_insert_eq.
  - by rewrite length_insert.
  - by apply list_lookup_insert_eq.
Qed.

Lemma set_cell_length (e_cache : Cache) (i j : Z) (s : Struct) (c' : Cache) :
  set_cell e_cache i j s = Ok c' -> length c' = length e_cache.
Proof.
  intros (r & k & row & Hr & Hrow & Hk & ->)%set_cell_Ok.
  by rewrite length_insert.
Qed.

(** What an assignment to a cell does to each position of the cache. *)
Lemma at_pos_set_cell (e_cache : Cache) (i j : Z) (s : Struct) (c' : Cache)
    (r k : nat) :
  set_cell e_cache i j s = Ok c' ->
  at_pos c' r k = at_pos e_cache r k \/ at_pos c' r k = Some s.
Proof.
  intros (r0 & k0 & row & Hr & Hrow & Hk & ->)%set_cell_Ok.
  unfold at_pos. destruct (decide (r = r0)) as [->|Hne].
  - rewrite list_lookup_insert_eq by (by eapply py_norm_lt).
    rewrite Hrow. simpl.
    destruct (decide (k = k0)) as [->|Hne].
    + right. apply list_lookup_insert_eq. by eapply py_norm_lt.
    + left. by apply list_lookup_insert_ne.
  - left. by rewrite list_lookup_insert_ne.
Qed.

(** With subscripts that are not negative, the assignment changes the
    position they name and no other. *)
Lemma at_pos_set_cell_ne (e_cache : Cache) (i j : Z) (s : Struct)
    (c' : Cache) (r k : nat) :
  0 <= i -> 0 <= j ->
  set_cell e_cache i j s = Ok c' ->
  (r, k) <> (Z.to_nat i, Z.to_nat j) ->
  at_pos c' r k = at_pos e_cache r k.
Proof.
  intros Hi Hj (r0 & k0 & row & Hr & Hrow & Hk & ->)%set_cell_Ok Hne.
  pose proof (py_norm_lt _ _ _ Hr). pose proof (py_norm_lt _ _ _ Hk).
  apply py_norm_nonneg_inv in Hr as [-> _]; [|done].
  apply py_norm_nonneg_inv in Hk as [-> _]; [|done].
  unfold at_pos. destruct (decide (r = Z.to_nat i)) as [->|Hr].
  - rewrite list_lookup_insert_eq by done. rewrite Hrow. simpl.
    apply list_lookup_insert_ne. congruence.
  - by rewrite list_lookup_insert_ne.
Qed.

Lemma cell_at_pos (e_cache : Cache) (i j : Z) (s : Struct) :
  0 <= i -> 0 <= j ->
  cell e_cache i j = Ok s <-> at_pos e_cache (Z.to_nat i) (Z.to_nat j) = Some s.
Proof.
  intros Hi Hj. rewrite cell_Ok. unfold at_pos. split.
  - intros (r & k & row & Hr & Hrow & Hk & Hs).
    apply py_norm_nonneg_inv in Hr as [-> _]; [|done].
    apply py_norm_nonneg_inv in Hk as [-> _]; [|done].
    by rewrite Hrow.
  - intros H. destruct (e_cache !! Z.to_nat i) as [row|] eqn:Hrow; [|done].
    simpl in H. exists (Z.to_nat i), (Z.to_nat j), row.
    apply lookup_lt_Some in Hrow as Hlt. apply lookup_lt_Some in H as Hlt'.
    rewrite !py_norm_nonneg by lia. done.
Qed.

(** ** The paths of [_e] *)

Section EPaths.
Context `{X : Externals}.
Implicit Types (seq : string) (i j : Z) (temp : Q) (emap : Energies).
Implicit Types (non_branches : gset (Z * Z)) (n_branches : Z).

(** Line 225: the cell is already resolved. *)
Lemma e_memo_path seq i j temp (e_cache : Cache) emap (S : Sdict)
    non_branches n_branches (s : Struct) :
  cell e_cache i j = Ok s ->
  struct_eqb s STRUCT_DEFAULT = false ->
  _e seq i j temp e_cache emap S non_branches n_branches
  = Ok (e_cache, RetStruct s).
Proof.
  intros Hc Hs. unfold _e. rewrite (bind_Ok_l _ _ _ Hc), Hs. simpl.
  by rewrite (bind_Ok_l _ _ _ Hc).
Qed.

(** Lines 237 to 239: the isolated pair. *)
Lemma e_isolated_path seq i j temp (e_cache : Cache) emap (S : Sdict)
    non_branches n_branches (s0 : Struct) (c' : Cache) :
  cell e_cache i j = Ok s0 ->
  struct_eqb s0 STRUCT_DEFAULT = true ->
  isolated_outer_check emap seq i j = Ok true ->
  not_complementary emap seq (i + 1) (j - 1) = Ok true ->
  set_cell e_cache i j (Struct1 (Fin 5000)) = Ok c' ->
  _e seq i j temp e_cache emap S non_branches n_branches
  = Ok (c', RetStruct (Struct1 (Fin 5000))).
Proof.
  intros Hc Hs Ho Hi Hset. unfold _e.
  rewrite (bind_Ok_l _ _ _ Hc), Hs. simpl.
  rewrite (bind_Ok_l _ _ _ Ho), (bind_Ok_l _ _ _ Hi). simpl.
  rewrite (bind_Ok_l _ _ _ Hset).
  by rewrite (bind_Ok_l _ _ _ (cell_set_cell _ _ _ _ _ Hset)).
Qed.

(** Lines 244 to 246: the hairpin of span four. *)
Lemma e_small_hairpin_path seq i j temp (e_cache : Cache) emap (S : Sdict)
    non_branches n_branches (s0 : Struct) (io ii : bool) (c' : Cache) :
  cell e_cache i j = Ok s0 ->
  struct_eqb s0 STRUCT_DEFAULT = true ->
  isolated_outer_check emap seq i j = Ok io ->
  not_complementary emap seq (i + 1) (j - 1) = Ok ii ->
  io && ii = false ->
  j - i = 4 ->
  set_cell e_cache i j (hairpin_struct seq i j temp emap) = Ok c' ->
  _e seq i j temp e_cache emap S non_branches n_branches
  = Ok (c', RetPair (hairpin_struct seq i j temp emap) non_branches).
Proof.
  intros Hc Hs Ho Hi Hiso Hspan Hset. unfold _e.
  rewrite (bind_Ok_l _ _ _ Hc), Hs. simpl.
  rewrite (bind_Ok_l _ _ _ Ho), (bind_Ok_l _ _ _ Hi), Hiso.
  rewrite Hspan. simpl.
  rewrite (bind_Ok_l _ _ _ Hset).
  by rewrite (bind_Ok_l _ _ _ (cell_set_cell _ _ _ _ _ Hset)).
Qed.

(** Lines 248 to 328: the resolution among the three candidates. *)
Lemma e_resolution_path seq i j temp (e_cache : Cache) emap (S : Sdict)
    non_branches n_branches (s0 : Struct) (io ii : bool)
    (bps : list (Z * Z)) (e2 : Struct) (c' : Cache) :
  cell e_cache i j = Ok s0 ->
  struct_eqb s0 STRUCT_DEFAULT = true ->
  isolated_outer_check emap seq i j = Ok io ->
  not_complementary emap seq (i + 1) (j - 1) = Ok ii ->
  io && ii = false ->
  j - i <> 4 ->
  dict_get S (S_key i j) = Ok bps ->
  foldM (e2_step seq i j temp e_cache emap (len seq)) (Struct1 PosInf) bps
  = Ok e2 ->
  let e1 := hairpin_struct seq i j temp emap in
  let e3 :=
    e3_candidate seq i j temp e_cache emap bps non_branches n_branches io in
  let e_min := _min_struct [e1; e2; e3] in
  set_cell e_cache i j e_min = Ok c' ->
  _e seq i j temp e_cache emap S non_branches n_branches
  = Ok (c',
        RetPair e_min
          (if Float.gt (e e_min) (Fin 0) || struct_eqb e_min e3
              || struct_eqb e_min e1
           then {[ (i, j) ]} ∪ non_branches else non_branches)).
Proof.
  intros Hc Hs Ho Hi Hiso Hspan HS He2 e1 e3 e_min Hset. unfold _e.
  rewrite (bind_Ok_l _ _ _ Hc), Hs. simpl.
  rewrite (bind_Ok_l _ _ _ Ho), (bind_Ok_l _ _ _ Hi), Hiso.
  destruct (j - i =? 4) eqn:E; [lia|].
  rewrite (bind_Ok_l _ _ _ HS), (bind_Ok_l _ _ _ He2).
  fold e1. fold e3. fold e_min.
  by rewrite (bind_Ok_l _ _ _ Hset).
Qed.

(** Every successful call of [_e] went down one of the four paths. *)
Lemma e_inv seq i j temp (e_cache : Cache) emap (S : Sdict)
    non_branches n_branches (c' : Cache) (r : e_ret) :
  _e seq i j temp e_cache emap S non_branches n_branches = Ok (c', r) ->
  exists s0, cell e_cache i j = Ok s0 /\
  ((struct_eqb s0 STRUCT_DEFAULT = false /\ c' = e_cache /\ r = RetStruct s0)
   \/ (struct_eqb s0 STRUCT_DEFAULT = true /\
       exists io ii,
         isolated_outer_check emap seq i j = Ok io
         /\ not_complementary emap seq (i + 1) (j - 1) = Ok ii
         /\ ((io && ii = true
              /\ set_cell e_cache i j (Struct1 (Fin 5000)) = Ok c'
              /\ r = RetStruct (Struct1 (Fin 5000)))
             \/ (io && ii = false /\ j - i = 4
                 /\ set_cell e_cache i j (hairpin_struct seq i j temp emap)
                    = Ok c'
                 /\ r = RetPair (hairpin_struct seq i j temp emap)
                          non_branches)
             \/ (io && ii = false /\ j - i <> 4 /\
                 exists bps e2,
                   dict_get S (S_key i j) = Ok bps
                   /\ foldM (e2_step seq i j temp e_cache emap (len seq))
                        (Struct1 PosInf) bps = Ok e2
                   /\ let e1 := hairpin_struct seq i j temp emap in
                      let e3 :=
                        e3_candidate seq i j temp e_cache emap bps
                          non_branches n_branches io in
                      let e_min := _min_struct [e1; e2; e3] in
                      set_cell e_cache i j e_min = Ok c'
                      /\ r = RetPair e_min
                               (if Float.gt (e e_min) (Fin 0)
                                   || struct_eqb e_min e3
                                   || struct_eqb e_min e1
                                then {[ (i, j) ]} ∪ non_branches
                                else non_branches))))).
Proof.
  unfold _e. intros H.
  inv_bind H as s0 Hc. exists s0. split; [done|].
  destruct (struct_eqb s0 STRUCT_DEFAULT) eqn:Hs; simpl in H.
  - right. split; [done|].
    inv_bind H as io Ho. inv_bind H as ii Hi. exists io, ii.
    split; [done|]. split; [done|].
    destruct (io && ii) eqn:Hiso.
    + left. inv_bind H as c1 Hset. inv_bind H as r1 Hr.
      rewrite (cell_set_cell _ _ _ _ _ Hset) in Hr.
      injection Hr as <-. injection H as <- <-. done.
    + right. destruct (j - i =? 4) eqn:Hspan.
      * left. inv_bind H as c1 Hset. inv_bind H as r1 Hr.
        rewrite (cell_set_cell _ _ _ _ _ Hset) in Hr.
        injection Hr as <-. injection H as <- <-.
        split; [done|]. split; [lia|]. done.
      * right. split; [done|]. split; [lia|].
        inv_bind H as bps HS. inv_bind H as e2 He2. exists bps, e2.
        split; [done|]. split; [done|].
        inv_bind H as c1 Hset. injection H as <- <-. done.
  - left. rewrite (bind_Ok_l _ _ _ Hc) in H. by injection H as <- <-.
Qed.

End EPaths.

(** ** The isolated pair *)

(** C7.  Take a pair whose cell is still unfilled, whose inner neighbours
    [(i+1, j-1)] are not complementary, and whose outer neighbours
    [(i-1, j+1)] are not complementary either, a pair that touches an end of
    the sequence being exempt from the outer check.  Then [_e] writes the
    fixed penalty struct of energy 5000 into the cell and returns it; the
    cache it leaves is the same whatever the energy functions, the
    combination generator, the candidate sets and [non_branches] are, even a
    candidate set with no entry for the pair: the hairpin, loop and
    multi-branch candidates are not computed. *)
Theorem isolated_pair_penalty (seq : string) (i j : Z) (e_cache : Cache)
    (emap : Energies) (s0 : Struct) :
  cell e_cache i j = Ok s0 ->
  struct_eqb s0 STRUCT_DEFAULT = true ->
  (i = 0 \/ len seq - 1 <= j
   \/ not_complementary emap seq (i - 1) (j + 1) = Ok true) ->
  not_complementary emap seq (i + 1) (j - 1) = Ok true ->
  exists c' : Cache,
    set_cell e_cache i j (Struct1 (Fin 5000)) = Ok c'
    /\ cell c' i j = Ok (Struct1 (Fin 5000))
    /\ (forall r k, at_pos c' r k = at_pos e_cache r k
                    \/ at_pos c' r k = Some (Struct1 (Fin 5000)))
    /\ forall (X : Externals) (temp : Q) (S : Sdict)
         (non_branches : gset (Z * Z)) (n_branches : Z),
         _e seq i j temp e_cache emap S non_branches n_branches
         = Ok (c', RetStruct (Struct1 (Fin 5000))).
Proof.
  intros Hc Hs Hout Hin.
  destruct (set_cell_of_cell e_cache i j (Struct1 (Fin 5000)) s0 Hc)
    as [c' Hset].
  exists c'. split_and!; [done|by eapply cell_set_cell| |].
  - intros r k. by eapply at_pos_set_cell.
  - intros X temp S non_branches n_branches.
    eapply e_isolated_path; eauto.
    unfold isolated_outer_check.
    destruct (negb (i =? 0) && (j <? len seq - 1)) eqn:E; [|done].
    apply andb_true_iff in E as [E1 E2].
    destruct Hout as [->|[Hj|Hout]]; [done|lia|done].
Qed.

(** The pair (0, 7) of GAAAAAAC touches both ends and has A and A inside. *)
Lemma isolated_pair_penalty_witness :
  exists c' : Cache,
    set_cell (new_cache 8) 0 7 (Struct1 (Fin 5000)) = Ok c'
    /\ cell c' 0 7 = Ok (Struct1 (Fin 5000))
    /\ (forall r k, at_pos c' r k = at_pos (new_cache 8) r k
                    \/ at_pos c' r k = Some (Struct1 (Fin 5000)))
    /\ forall (X : Externals) (temp : Q) (S : Sdict)
         (non_branches : gset (Z * Z)) (n_branches : Z),
         _e "GAAAAAAC" 0 7 temp (new_cache 8) Toy.dna S non_branches n_branches
         = Ok (c', RetStruct (Struct1 (Fin 5000))).
Proof.
  apply (isolated_pair_penalty "GAAAAAAC" 0 7 (new_cache 8) Toy.dna
           STRUCT_DEFAULT).
  - reflexivity.
  - reflexivity.
  - left. reflexivity.
  - vm_compute. reflexivity.
Defined.

(** ** What [_e] returns, and the unpacking in the fill loop *)

Section Unpack.
Context `{X : Externals}.

(** C10 fails on the code.  When the cell of the pair is already resolved,
    or when the pair is isolated, [_e] returns a bare struct and not a pair
    of a struct and a set, and the assignment
    [e, non_branches = _e(...)] of the fill loop raises a [TypeError]. *)
Theorem e_returns_bare_struct (seq : string) (temp : Q) (emap : Energies)
    (S : Sdict) (n_branches : Z) (st : fill_state) (bp : Z * Z)
    (s0 : Struct) :
  cell (fs_cache st) bp.1 bp.2 = Ok s0 ->
  struct_eqb s0 STRUCT_DEFAULT = false
  \/ (struct_eqb s0 STRUCT_DEFAULT = true
      /\ isolated_outer_check emap seq bp.1 bp.2 = Ok true
      /\ not_complementary emap seq (bp.1 + 1) (bp.2 - 1) = Ok true) ->
  (exists (c' : Cache) (s : Struct),
     _e seq bp.1 bp.2 temp (fs_cache st) emap S (fs_non_branches st)
       n_branches
     = Ok (c', RetStruct s))
  /\ call_e seq temp emap S n_branches st bp
     = Raise (TypeError "cannot unpack non-iterable Struct object").
Proof.
  intros Hc [Hs | (Hs & Ho & Hi)].
  - pose proof (e_memo_path seq bp.1 bp.2 temp (fs_cache st) emap S
                  (fs_non_branches st) n_branches s0 Hc Hs) as He.
    split; [eauto|]. unfold call_e. by rewrite He.
  - destruct (set_cell_of_cell (fs_cache st) bp.1 bp.2 (Struct1 (Fin 5000))
                s0 Hc) as [c' Hset].
    pose proof (e_isolated_path seq bp.1 bp.2 temp (fs_cache st) emap S
                  (fs_non_branches st) n_branches s0 c' Hc Hs Ho Hi Hset)
      as He.
    split; [eauto|]. unfold call_e. by rewrite He.
Qed.

End Unpack.

(** The first pair the fill meets on GAAAAAAC, (0, 7), is isolated. *)
Lemma e_returns_bare_struct_witness :
  let X := Toy.with_pairs [(0, 7)] in
  let st := mkFill (new_cache 8) ∅ None PosInf None in
  (exists (c' : Cache) (s : Struct),
     _e "GAAAAAAC" 0 7 (31015 # 100) (fs_cache st) Toy.dna
       (Toy.Sij_of [(0, 7)]) (fs_non_branches st) 4
     = Ok (c', RetStruct s))
  /\ call_e "GAAAAAAC" (31015 # 100) Toy.dna (Toy.Sij_of [(0, 7)]) 4 st (0, 7)
     = Raise (TypeError "cannot unpack non-iterable Struct object").
Proof.
  intros X st.
  apply (e_returns_bare_struct (X:=X) "GAAAAAAC" (31015 # 100) Toy.dna
           (Toy.Sij_of [(0, 7)]) 4 st (0, 7) STRUCT_DEFAULT).
  - reflexivity.
  - right. split_and!; vm_compute; reflexivity.
Defined.

(** ** The hairpin of span four *)

Section SmallHairpin.
Context `{X : Externals}.

(** C8 fails on the code.  A pair of span four that is not isolated is
    resolved to its hairpin, a struct with no children, and [non_branches]
    is returned as it was: the pair is not added to it. *)
Theorem small_hairpin_not_added (seq : string) (i j : Z) (temp : Q)
    (e_cache : Cache) (emap : Energies) (S : Sdict)
    (non_branches : gset (Z * Z)) (n_branches : Z) (s0 : Struct)
    (io ii : bool) :
  cell e_cache i j = Ok s0 ->
  struct_eqb s0 STRUCT_DEFAULT = true ->
  isolated_outer_check emap seq i j = Ok io ->
  not_complementary emap seq (i + 1) (j - 1) = Ok ii ->
  io && ii = false ->
  j - i = 4 ->
  (i, j) ∉ non_branches ->
  exists (c' : Cache) (chosen : Struct) (nb' : gset (Z * Z)),
    _e seq i j temp e_cache emap S non_branches n_branches
    = Ok (c', RetPair chosen nb')
    /\ cell c' i j = Ok chosen
    /\ chosen = hairpin_struct seq i j temp emap
    /\ ij chosen = []
    /\ (i, j) ∉ nb'.
Proof.
  intros Hc Hs Ho Hi Hiso Hspan Hnb.
  destruct (set_cell_of_cell e_cache i j (hairpin_struct seq i j temp emap)
              s0 Hc) as [c' Hset].
  exists c', (hairpin_struct seq i j temp emap), non_branches.
  split_and!; try done.
  - eapply e_small_hairpin_path; eauto.
  - by eapply cell_set_cell.
Qed.

End SmallHairpin.

(** The pair (1, 5) of GGAAACC: its outer neighbours G and C pair. *)
Lemma small_hairpin_not_added_witness :
  let X := Toy.with_pairs [(1, 5); (0, 6)] in
  exists (c' : Cache) (chosen : Struct) (nb' : gset (Z * Z)),
    _e "GGAAACC" 1 5 (31015 # 100) (new_cache 7) Toy.dna
      (Toy.Sij_of [(1, 5); (0, 6)]) ∅ 4
    = Ok (c', RetPair chosen nb')
    /\ cell c' 1 5 = Ok chosen
    /\ chosen = hairpin_struct "GGAAACC" 1 5 (31015 # 100) Toy.dna
    /\ ij chosen = []
    /\ (1, 5) ∉ nb'.
Proof.
  intros X.
  apply (small_hairpin_not_added (X:=X) "GGAAACC" 1 5 (31015 # 100)
           (new_cache 7) Toy.dna (Toy.Sij_of [(1, 5); (0, 6)]) ∅ 4
           STRUCT_DEFAULT false true).
  - reflexivity.
  - reflexivity.
  - vm_compute. reflexivity.
  - vm_compute. reflexivity.
  - reflexivity.
  - reflexivity.
  - set_solver.
Defined.

(** ** The mode *)

Section Mode.
Context `{X : Externals}.

(** C5 fails on the code.  For a mode other than dna and rna, [_cache]
    raises before it builds the cache, but what it raises is a [TypeError]:
    the operand of its [raise] is a tuple, not the [ValueError] named in it. *)
Theorem unsupported_mode_raises_TypeError (seq : string) (temp : Q)
    (S : Sdict) (D : Ddict) (bps : list (Z * Z)) (l_fix n_branches : Z)
    (mode : string) (fuel : nat) :
  mode <> "dna" -> mode <> "rna" ->
  _cache seq temp S D l_fix n_branches mode
  = Raise (TypeError "exceptions must derive from BaseException")
  /\ (Aptamer_match mode seq 4 l_fix = Ok (S, D, bps) ->
      gmfold fuel seq temp l_fix n_branches mode
      = Raise (TypeError "exceptions must derive from BaseException")).
Proof.
  intros Hd Hr.
  assert (_cache seq temp S D l_fix n_branches mode
          = Raise (TypeError "exceptions must derive from BaseException"))
    as Hcache.
  { unfold _cache, emap_of_mode.
    apply String.eqb_neq in Hd, Hr. rewrite Hd, Hr. reflexivity. }
  split; [done|]. intros HA. unfold gmfold. rewrite HA. simpl.
  by rewrite Hcache.
Qed.

(** For the two supported modes the energy table is selected and nothing is
    raised. *)
Lemma supported_mode_selects_table :
  emap_of_mode "dna" = Ok DNA_ENERGIES /\ emap_of_mode "rna" = Ok RNA_ENERGIES.
Proof. split; reflexivity. Qed.

End Mode.

Lemma unsupported_mode_raises_TypeError_witness :
  let X := Toy.with_pairs Toy.helix in
  _cache "GGGGAAAACCCC" 37 (Toy.Sij_of Toy.helix) (Toy.D_of Toy.helix) 0 4
    "protein"
  = Raise (TypeError "exceptions must derive from BaseException")
  /\ (Aptamer_match "protein" "GGGGAAAACCCC" 4 0
      = Ok (Toy.Sij_of Toy.helix, Toy.D_of Toy.helix, Toy.helix) ->
      gmfold 10 "GGGGAAAACCCC" 37 0 4 "protein"
      = Raise (TypeError "exceptions must derive from BaseException")).
Proof.
  intros X.
  apply (unsupported_mode_raises_TypeError (X:=X) "GGGGAAAACCCC" 37
           (Toy.Sij_of Toy.helix) (Toy.D_of Toy.helix) Toy.helix 0 4
           "protein" 10).
  - discriminate.
  - discriminate.
Defined.

(** ** Loops of the fill and of the resolver *)

Lemma foldM_Ok_id {A B : Type} (f : A -> B -> result A) (a : A) (l : list B) :
  (forall b, b ∈ l -> f a b = Ok a) -> foldM f a l = Ok a.
Proof.
  induction l as [|b l IH]; intros H; simpl; [done|].
  rewrite H by (apply elem_of_cons; auto). simpl.
  apply IH. intros b' Hb'. apply H, elem_of_cons; auto.
Qed.

Lemma foldM_no_timeout {A B : Type} (f : A -> B -> result A) (a : A)
    (l : list B) :
  (forall a b, f a b <> Timeout) -> foldM f a l <> Timeout.
Proof.
  intros Hf. revert a. induction l as [|b l IH]; intros a; simpl; [done|].
  destruct (f a b) as [a'| |] eqn:E; simpl; [apply IH|done|].
  by destruct (Hf a b).
Qed.

Lemma getitem_no_timeout {A : Type} (l : list A) (i : Z) : getitem l i <> Timeout.
Proof. unfold getitem. by destruct (_ ≫= _). Qed.

Lemma cell_no_timeout (e_cache : Cache) (i j : Z) : cell e_cache i j <> Timeout.
Proof.
  unfold cell. destruct (getitem e_cache i) as [row| |] eqn:E; simpl; try done.
  - apply getitem_no_timeout.
  - by destruct (getitem_no_timeout e_cache i).
Qed.

Lemma set_cell_no_timeout (e_cache : Cache) (i j : Z) (s : Struct) :
  set_cell e_cache i j s <> Timeout.
Proof.
  unfold set_cell, setitem.
  destruct (getitem e_cache i) as [row| |] eqn:E; simpl; try done.
  - destruct (py_norm (length row) j); simpl; [|done].
    by destruct (py_norm (length e_cache) i).
  - by destruct (getitem_no_timeout e_cache i).
Qed.

Lemma elem_of_insert_by_key (x y : Z * list (Z * Z)) (l : Ddict) :
  y ∈ insert_by_key x l <-> y = x \/ y ∈ l.
Proof.
  induction l as [|z l IH]; simpl.
  - rewrite list_elem_of_singleton, elem_of_nil. tauto.
  - destruct (x.1 <=? z.1); rewrite !elem_of_cons; [done|].
    rewrite IH. tauto.
Qed.

Lemma elem_of_sorted_by_key (y : Z * list (Z * Z)) (D : Ddict) :
  y ∈ sorted_by_key D <-> y ∈ D.
Proof.
  unfold sorted_by_key. induction D as [|x D IH]; simpl; [done|].
  rewrite elem_of_insert_by_key, elem_of_cons, IH. tauto.
Qed.

Section Loops.
Context `{X : Externals}.

Lemma set_iter_nil : set_iter [] = [].
Proof. apply Permutation_nil. symmetry. apply (set_iter_perm []). Qed.

(** A candidate index with no pair leaves the state of the fill as it is. *)
Lemma for_each_bp_no_pairs (D : Ddict)
    (body : fill_state -> Z * Z -> result fill_state) (st : fill_state) :
  (forall d l, (d, l) ∈ D -> l = []) -> for_each_bp D body st = Ok st.
Proof.
  intros HD. unfold for_each_bp. apply foldM_Ok_id.
  intros [d l] Hin. apply (proj1 (elem_of_sorted_by_key _ _)) in Hin.
  rewrite (HD d l Hin). simpl. by rewrite set_iter_nil.
Qed.

Lemma cache_no_pairs (seq : string) (temp : Q) (S : Sdict) (D : Ddict)
    (l_fix n_branches : Z) (mode : string) :
  (forall d l, (d, l) ∈ D -> l = []) ->
  _cache seq temp S D l_fix n_branches mode
  = Ok (new_cache (len (upper seq)), None, PosInf)
  \/ exists x, _cache seq temp S D l_fix n_branches mode = Raise x.
Proof.
  intros HD. unfold _cache.
  destruct (emap_of_mode mode) as [emap|x|] eqn:E; simpl.
  - left. destruct (l_fix =? 0), (0 <? l_fix);
      rewrite ?for_each_bp_no_pairs by done; simpl;
      rewrite ?for_each_bp_no_pairs by done; done.
  - right. eauto.
  - unfold emap_of_mode in E.
    by destruct (String.eqb mode "dna"), (String.eqb mode "rna").
Qed.

Lemma exterior_step_no_timeout (n : Z) (st : Cache * option (Z * Z))
    (combo : list (Z * Z)) :
  exterior_step n st combo <> Timeout.
Proof.
  unfold exterior_step. destruct (truthy _); [|done].
  destruct (subscript st.2) as [ms| |] eqn:E; simpl; try done.
  - destruct (cell st.1 ms.1 ms.2) as [best| |] eqn:E'; simpl; try done.
    + destruct (Float.lt _ _); [|done].
      destruct (set_cell st.1 0 (n - 1) _) as [c| |] eqn:E''; simpl; try done.
      by destruct (set_cell_no_timeout _ _ _ _ E'').
    + by destruct (cell_no_timeout _ _ _ E').
  - by destruct st.2.
Qed.

(** With no best pair yet, the loop of the resolver changes nothing or
    raises at [min_struct[0]]. *)
Lemma exterior_loop_None (n : Z) (e_cache : Cache)
    (combos : list (list (Z * Z))) :
  foldM (exterior_step n) (e_cache, None) combos = Ok (e_cache, None)
  \/ exists x, foldM (exterior_step n) (e_cache, None) combos = Raise x.
Proof.
  induction combos as [|combo combos IH]; simpl; [by left|].
  assert (exterior_step n (e_cache, None) combo = Ok (e_cache, None)
          \/ exists x, exterior_step n (e_cache, None) combo = Raise x)
    as [-> | [x ->]]; simpl; [|done|eauto].
  unfold exterior_step. simpl.
  destruct (truthy (open_ending_branch e_cache combo)); simpl; eauto.
Qed.

Lemma resolve_exterior_no_timeout (n l_fix n_branches : Z)
    (bps : list (Z * Z)) (e_cache : Cache) (min_struct : option (Z * Z))
    (min_ene : energy) :
  resolve_exterior n l_fix n_branches bps e_cache min_struct min_ene
  <> Timeout.
Proof.
  unfold resolve_exterior.
  destruct (cell e_cache 0 (n - 1)) as [whole| |] eqn:E; simpl; try done.
  - destruct (_ && _); [|done].
    match goal with |- context [foldM ?f [] ?l] =>
      pose proof (foldM_no_timeout f [] l) as Hb;
      destruct (foldM f [] l) as [branches| |] eqn:Eb end; simpl; try done.
    + apply foldM_no_timeout. apply exterior_step_no_timeout.
    + exfalso. apply Hb; [|done]. intros a b.
      destruct (cell e_cache b.1 b.2) as [c| |] eqn:Ec; simpl; try done.
      * by destruct (Float.lt _ _).
      * by destruct (cell_no_timeout _ _ _ Ec).
  - by destruct (cell_no_timeout _ _ _ E).
Qed.

(** C2 fails on the code.  When the candidate index holds no pair, so that
    the fill leaves every cell unfilled and no best pair, [gmfold] does not
    return an empty list: it raises (at [min_struct[0]], or earlier).  And
    the dot-bracket encoder raises an [IndexError] on an empty list, at
    [structs[0]]. *)
Theorem degenerate_input_raises (fuel : nat) (seq : string) (temp : Q)
    (l_fix n_branches : Z) (mode : string) (S : Sdict) (D : Ddict)
    (bps : list (Z * Z)) :
  Aptamer_match mode seq 4 l_fix = Ok (S, D, bps) ->
  (forall d l, (d, l) ∈ D -> l = []) ->
  (exists x, gmfold fuel seq temp l_fix n_branches mode = Raise x)
  /\ gm_dot_bracket seq [] = Raise IndexError.
Proof.
  intros HA HD. split; [|done].
  unfold gmfold. rewrite HA. simpl.
  destruct (cache_no_pairs seq temp S D l_fix n_branches mode HD)
    as [-> | [x ->]]; simpl; [|eauto].
  pose proof (resolve_exterior_no_timeout (len seq) l_fix n_branches bps
                (new_cache (len (upper seq))) None PosInf) as Hnt.
  destruct (resolve_exterior _ _ _ _ _ _ _) as [[c ms]|x|] eqn:E; simpl;
    [|eauto|done].
  assert (ms = None) as ->; [|simpl; eauto].
  unfold resolve_exterior in E.
  inv_bind E as whole Hw.
  destruct (_ && _); [|by injection E].
  inv_bind E as branches Hb.
  destruct (exterior_loop_None (len seq) (new_cache (len (upper seq)))
              (all_combinations branches None n_branches)) as [H | [x H]];
    rewrite H in E; [by injection E|done].
Qed.

End Loops.

(** The sequence AAA, for which the index proposes no pair. *)
Lemma degenerate_input_raises_witness :
  (exists x, gmfold (X:=Toy.with_pairs []) 10 "AAA" 37 0 4 "dna" = Raise x)
  /\ gm_dot_bracket "AAA" [] = Raise IndexError.
Proof.
  apply (degenerate_input_raises (X:=Toy.with_pairs []) 10 "AAA" 37 0 4 "dna"
           ∅ [] []).
  - reflexivity.
  - intros d l H. by apply elem_of_nil in H.
Defined.

(** ** The exterior multi-branch resolver *)

Section Exterior.
Context `{X : Externals}.

(** A turn of the loop either leaves the cache and the best pair as they
    are, or finds the open loop strictly below the best cell and writes it
    into the whole-sequence cell. *)
Lemma exterior_step_spec (n : Z) (c : Cache) (ms : option (Z * Z))
    (combo : list (Z * Z)) (c1 : Cache) (ms1 : option (Z * Z)) :
  exterior_step n (c, ms) combo = Ok (c1, ms1) ->
  (c1 = c /\ ms1 = ms)
  \/ exists m best,
       ms = Some m /\ cell c m.1 m.2 = Ok best
       /\ Float.lt (e (open_ending_branch c combo)) (e best) = true
       /\ set_cell c 0 (n - 1) (open_ending_branch c combo) = Ok c1
       /\ ms1 = Some (0, n - 1).
Proof.
  unfold exterior_step. simpl. intros H.
  destruct (truthy (open_ending_branch c combo)); [|left; by injection H].
  inv_bind H as m Hm. inv_bind H as best Hbest.
  destruct (Float.lt _ _) eqn:Hlt; [|left; by injection H].
  inv_bind H as c2 Hset. injection H as <- <-.
  right. exists m, best. destruct ms; [|done]. injection Hm as ->. done.
Qed.

Lemma exterior_loop_spec (n : Z) (combos : list (list (Z * Z)))
    (c0 : Cache) (ms0 : option (Z * Z)) (c' : Cache) (ms' : option (Z * Z)) :
  0 < n ->
  foldM (exterior_step n) (c0, ms0) combos = Ok (c', ms') ->
  (forall r k, (r, k) <> (0%nat, Z.to_nat (n - 1)) ->
     at_pos c' r k = at_pos c0 r k)
  /\ ((c' = c0 /\ ms' = ms0)
      \/ exists combo c1 m best,
           combo ∈ combos
           /\ (forall r k, (r, k) <> (0%nat, Z.to_nat (n - 1)) ->
                 at_pos c1 r k = at_pos c0 r k)
           /\ (Some m = ms0 \/ m = (0, n - 1))
           /\ cell c1 m.1 m.2 = Ok best
           /\ Float.lt (e (open_ending_branch c1 combo)) (e best) = true
           /\ set_cell c1 0 (n - 1) (open_ending_branch c1 combo) = Ok c'
           /\ ms' = Some (0, n - 1)).
Proof.
  intros Hn. revert c0 ms0.
  induction combos as [|combo combos IH]; intros c0 ms0 H; simpl in H.
  - injection H as <- <-. split; [done|by left].
  - inv_bind H as st1 Hstep. destruct st1 as [c1 ms1].
    apply exterior_step_spec in Hstep.
    destruct (IH _ _ H) as [Hframe Hlast].
    assert (Hf01 : forall r k, (r, k) <> (0%nat, Z.to_nat (n - 1)) ->
                     at_pos c1 r k = at_pos c0 r k).
    { destruct Hstep as [[-> _] | (m & best & _ & _ & _ & Hset & _)]; [done|].
      intros r k Hne. eapply at_pos_set_cell_ne; [| |exact Hset|done]; lia. }
    split.
    + intros r k Hne. rewrite Hframe by done. by apply Hf01.
    + destruct Hlast as [[-> ->] | (cb & c2 & m & best & Hin & Hf & Hm & Hb
                                     & Hlt & Hset & ->)].
      * destruct Hstep as [[-> ->] | (m & best & -> & Hb & Hlt & Hset & ->)];
          [by left|right].
        exists combo, c0, m, best. split_and!; auto.
        apply elem_of_cons; auto.
      * right. exists cb, c2, m, best. split_and!; auto.
        -- apply elem_of_cons; auto.
        -- intros r k Hne. rewrite Hf by done. by apply Hf01.
        -- destruct Hm as [Hm | ->]; [|by right].
           destruct Hstep as [[_ ->] | (_ & _ & _ & _ & _ & _ & ->)];
             [by left|right]. by injection Hm.
Qed.

(** C4.  The resolver leaves the cache and the chosen root as they are when
    a fixed stem is requested; when it runs, no position of the cache other
    than the whole-sequence cell (0, n-1) changes; and if the cache changes
    at all, some combination's open loop had an energy strictly below that
    of the cell then chosen as best (the root of the fill, or the
    whole-sequence cell once overwritten), and it is this struct that was
    written into the whole-sequence cell. *)
Theorem exterior_resolver_frame (n l_fix n_branches : Z)
    (bps : list (Z * Z)) (e_cache : Cache) (min_struct : option (Z * Z))
    (min_ene : energy) (c' : Cache) (ms' : option (Z * Z)) :
  0 < n ->
  resolve_exterior n l_fix n_branches bps e_cache min_struct min_ene
  = Ok (c', ms') ->
  (l_fix <> 0 -> c' = e_cache /\ ms' = min_struct)
  /\ (forall r k, (r, k) <> (0%nat, Z.to_nat (n - 1)) ->
        at_pos c' r k = at_pos e_cache r k)
  /\ (c' <> e_cache ->
      exists combo c1 m best,
        (forall r k, (r, k) <> (0%nat, Z.to_nat (n - 1)) ->
           at_pos c1 r k = at_pos e_cache r k)
        /\ (Some m = min_struct \/ m = (0, n - 1))
        /\ cell c1 m.1 m.2 = Ok best
        /\ Float.lt (e (open_ending_branch c1 combo)) (e best) = true
        /\ set_cell c1 0 (n - 1) (open_ending_branch c1 combo) = Ok c'
        /\ ms' = Some (0, n - 1)).
Proof.
  intros Hn H. unfold resolve_exterior in H.
  inv_bind H as whole Hw.
  destruct (l_fix =? 0) eqn:Hl.
  - destruct (_ || _); simpl in H.
    + inv_bind H as branches Hb.
      destruct (exterior_loop_spec _ _ _ _ _ _ Hn H) as [Hframe Hlast].
      split_and!; [lia|done|].
      intros Hne.
      destruct Hlast as [[-> _] | (cb & c1 & m & best & _ & Hf & Hm & Hbest
                                   & Hlt & Hset & ->)]; [done|].
      by exists cb, c1, m, best.
    + injection H as <- <-. split_and!; done.
  - rewrite andb_false_r in H. injection H as <- <-. split_and!; done.
Qed.

End Exterior.

(** Two favourable hairpins side by side: the open loop over both is written
    into the cell (0, 9), and nowhere else. *)
Lemma exterior_resolver_frame_witness :
  let X := Toy.with_pairs [(0, 4); (5, 9)] in
  let c' := Toy.two_hairpins_resolved in
  (0 <> 0 -> c' = Toy.two_hairpins /\ Some (0, 9) = Some (0, 4))
  /\ (forall r k, (r, k) <> (0%nat, Z.to_nat (10 - 1)) ->
        at_pos c' r k = at_pos Toy.two_hairpins r k)
  /\ (c' <> Toy.two_hairpins ->
      exists combo c1 m best,
        (forall r k, (r, k) <> (0%nat, Z.to_nat (10 - 1)) ->
           at_pos c1 r k = at_pos Toy.two_hairpins r k)
        /\ (Some m = Some (0, 4) \/ m = (0, 10 - 1))
        /\ cell c1 m.1 m.2 = Ok best
        /\ Float.lt (e (open_ending_branch c1 combo)) (e best) = true
        /\ set_cell c1 0 (10 - 1) (open_ending_branch c1 combo) = Ok c'
        /\ Some (0, 9) = Some (0, 10 - 1)).
Proof.
  intros X c'.
  apply (exterior_resolver_frame (X:=X) 10 0 4 [(0, 4); (5, 9)]
           Toy.two_hairpins (Some (0, 4)) (Fin (- (11 # 10))) c'
           (Some (0, 9))).
  - lia.
  - vm_compute. reflexivity.
Defined.

(** ** Children and labels of the structs the fill writes *)

Lemma foldM_inv {A B : Type} (P : A -> Prop) (f : A -> B -> result A)
    (l : list B) (a a' : A) :
  (forall a b a', b ∈ l -> P a -> f a b = Ok a' -> P a') ->
  P a -> foldM f a l = Ok a' -> P a'.
Proof.
  revert a. induction l as [|b l IH]; intros a Hf Ha H; simpl in H.
  - by injection H as <-.
  - inv_bind H as a1 H1. apply (IH a1); auto.
    + intros a2 b2 a3 Hb2. apply Hf, elem_of_cons; auto.
    + eapply Hf; [|done..]. apply elem_of_cons; auto.
Qed.

Lemma fold_left_inv {A B : Type} (P : A -> Prop) (f : A -> B -> A)
    (l : list B) (a : A) :
  (forall a b, b ∈ l -> P a -> P (f a b)) -> P a -> P (fold_left f l a).
Proof.
  revert a. induction l as [|b l IH]; intros a Hf Ha; simpl; [done|].
  apply IH.
  - intros a2 b2 Hb2. apply Hf, elem_of_cons; auto.
  - apply Hf; [apply elem_of_cons; auto|done].
Qed.

Section Classification.
Context `{X : Externals}.

(** What the combination generator and the multi-branch function are
    assumed to do together: a multi-branch struct that counts as a candidate
    lists at least the two branches of its combination. *)
Hypothesis mb_children :
  forall seq i j temp (e_cache : Cache) emap branches n_branches combo,
    combo ∈ all_combinations branches (Some 2) n_branches ->
    truthy (gm_multi_branch seq i j temp e_cache emap combo) = true ->
    (2 <= length (ij (gm_multi_branch seq i j temp e_cache emap combo)))%nat.

Lemma link_label_stack x : is_link_label ("STACK:" +:+ x) = true.
Proof. unfold is_link_label. cbv [String.append]. by destruct x. Qed.

Lemma link_label_stack_de x : is_link_label ("STACK_DE:" +:+ x) = true.
Proof. unfold is_link_label. cbv [String.append]. by destruct x. Qed.

Lemma link_label_bulge x : is_link_label ("BULGE:" +:+ x) = true.
Proof. unfold is_link_label. cbv [String.append]. by destruct x. Qed.

Lemma link_label_interior x : is_link_label ("INTERIOR_LOOP:" +:+ x) = true.
Proof. unfold is_link_label. cbv [String.append]. by destruct x. Qed.

Lemma hairpin_label_hairpin x : is_hairpin_label ("HAIRPIN:" +:+ x) = true.
Proof. unfold is_hairpin_label. cbv [String.append]. by destruct x. Qed.

Lemma link_label_of_candidate seq i j i1 j1 temp emap n en ty :
  loop_candidate seq i j i1 j1 temp emap n = Some (en, ty) ->
  is_link_label ty = true.
Proof.
  unfold loop_candidate. intros H.
  repeat match type of H with
         | (if ?b then _ else _) = _ => destruct b
         | Some (_, if ?b then _ else _) = _ => destruct b
         end; try discriminate H; injection H as <- <-;
    auto using link_label_stack, link_label_stack_de, link_label_bulge,
      link_label_interior.
Qed.

Lemma e2_step_inv seq i j temp (e_cache : Cache) emap n e2 bp e2' :
  e2_step seq i j temp e_cache emap n e2 bp = Ok e2' ->
  e2' = e2 \/ (exists p, ij e2' = [p]) /\ is_link_label (desc e2') = true.
Proof.
  unfold e2_step. intros H. inv_bind H as nc Hnc.
  destruct nc; [left; by injection H|].
  destruct (loop_candidate _ _ _ _ _ _ _ _) as [[en ty]|] eqn:Hc;
    [|left; by injection H].
  inv_bind H as inner Hin.
  destruct (_ && _); injection H as <-; [right|by left].
  simpl. split; [eauto|]. by eapply link_label_of_candidate.
Qed.

Lemma e2_loop_inv seq i j temp (e_cache : Cache) emap n bps e2 :
  foldM (e2_step seq i j temp e_cache emap n) (Struct1 PosInf) bps = Ok e2 ->
  e2 = Struct1 PosInf
  \/ (exists p, ij e2 = [p]) /\ is_link_label (desc e2) = true.
Proof.
  apply (foldM_inv
           (fun s => s = Struct1 PosInf
                     \/ (exists p, ij s = [p]) /\ is_link_label (desc s) = true));
    [|by left].
  intros a b a' _ Ha Hstep.
  apply e2_step_inv in Hstep as [-> | Hstep]; auto.
Qed.

Lemma e3_candidate_inv seq i j temp (e_cache : Cache) emap bps non_branches
    n_branches io :
  let e3 :=
    e3_candidate seq i j temp e_cache emap bps non_branches n_branches io in
  e3 = STRUCT_NULL
  \/ (is_multi_branch e3 /\ (2 <= length (ij e3))%nat).
Proof.
  unfold e3_candidate.
  destruct (_ || _); [|by left].
  destruct (2 <=? _)%nat; [|by left].
  apply (fold_left_inv
           (fun s => s = STRUCT_NULL
                     \/ (is_multi_branch s /\ (2 <= length (ij s))%nat)));
    [|by left].
  intros a combo Hin Ha. unfold e3_step.
  destruct (truthy _ && _) eqn:E; [|done].
  apply andb_true_iff in E as [E _]. right. split.
  - by exists seq, i, j, temp, e_cache, emap, combo.
  - by eapply mb_children.
Qed.

Lemma hairpin_struct_classified seq i j temp emap :
  classified_or_sentinel (hairpin_struct seq i j temp emap).
Proof. left. apply hairpin_label_hairpin. Qed.

(** The struct chosen among the three candidates. *)
Lemma resolved_struct_classified seq i j temp (e_cache : Cache) emap bps
    non_branches n_branches io e2 :
  foldM (e2_step seq i j temp e_cache emap (len seq)) (Struct1 PosInf) bps
  = Ok e2 ->
  classified_or_sentinel
    (_min_struct
       [hairpin_struct seq i j temp emap; e2;
        e3_candidate seq i j temp e_cache emap bps non_branches n_branches io]).
Proof.
  intros He2.
  destruct (min_struct_cases
              [hairpin_struct seq i j temp emap; e2;
               e3_candidate seq i j temp e_cache emap bps non_branches
                 n_branches io]) as [[-> | [Hin _]] _].
  { right. by right. }
  set (m := _min_struct _) in *. clearbody m.
  rewrite !elem_of_cons, elem_of_nil in Hin.
  destruct Hin as [-> | [-> | [-> | []]]].
  - apply hairpin_struct_classified.
  - apply e2_loop_inv in He2 as [-> | [[p Hp] Hl]].
    + right. by right.
    + unfold classified_or_sentinel. by rewrite Hp.
  - destruct (e3_candidate_inv seq i j temp e_cache emap bps non_branches
                n_branches io) as [-> | [Hmb Hlen]].
    + right. by right.
    + unfold classified_or_sentinel.
      destruct (ij _) as [|a [|b l]]; simpl in Hlen; [lia|lia|done].
Qed.

(** Each position of the cache after a call of [_e] holds what it held
    before, or a struct the classification covers. *)
Lemma e_writes_classified seq i j temp (e_cache : Cache) emap (S : Sdict)
    non_branches n_branches (c' : Cache) (ret : e_ret) (r k : nat) :
  _e seq i j temp e_cache emap S non_branches n_branches = Ok (c', ret) ->
  at_pos c' r k = at_pos e_cache r k
  \/ exists s, at_pos c' r k = Some s /\ classified_or_sentinel s.
Proof.
  intros H. apply e_inv in H as (s0 & Hc & H).
  destruct H as [(_ & -> & _) | (_ & io & ii & Ho & Hi & H)]; [by left|].
  destruct H as [(_ & Hset & _) | [(_ & _ & Hset & _)
                | (_ & _ & bps & e2 & HS & He2 & Hset & _)]].
  - destruct (at_pos_set_cell _ _ _ _ _ r k Hset) as [?|Hw]; [by left|].
    right. eexists. split; [done|]. right. by left.
  - destruct (at_pos_set_cell _ _ _ _ _ r k Hset) as [?|Hw]; [by left|].
    right. eexists. split; [done|]. apply hairpin_struct_classified.
  - destruct (at_pos_set_cell _ _ _ _ _ r k Hset) as [?|Hw]; [by left|].
    right. eexists. split; [done|]. by apply resolved_struct_classified.
Qed.

(** The same for the forced stack of a stem pair. *)
Lemma stem_writes_classified seq temp emap n (e_cache : Cache) bp (c' : Cache)
    (r k : nat) :
  stem_write seq temp emap n e_cache bp = Ok (Some c') ->
  at_pos c' r k = at_pos e_cache r k
  \/ exists s, at_pos c' r k = Some s /\ classified_or_sentinel s.
Proof.
  unfold stem_write. intros H. inv_bind H as nc Hnc.
  destruct nc; [done|]. inv_bind H as inner Hin. inv_bind H as c1 Hset.
  injection H as ->.
  destruct (at_pos_set_cell _ _ _ _ _ r k Hset) as [?|Hw]; [by left|].
  right. eexists. split; [done|].
  destruct (_ && _).
  - unfold classified_or_sentinel. simpl.
    destruct (dangling _ _ _);
      auto using link_label_stack, link_label_stack_de.
  - right. by right.
Qed.

Lemma all_classified_step (c c' : Cache) :
  all_classified c ->
  (forall r k, at_pos c' r k = at_pos c r k
               \/ exists s, at_pos c' r k = Some s /\ classified_or_sentinel s) ->
  all_classified c'.
Proof.
  intros Hc Hstep r k s Hs.
  destruct (Hstep r k) as [Heq | (s' & Hs' & Hcl)].
  - apply (Hc r k). by rewrite <- Heq.
  - right. congruence.
Qed.

Lemma new_cache_all_default (n : Z) : all_classified (new_cache n).
Proof.
  intros r k s. unfold at_pos, new_cache. intros H. left.
  destruct (replicate _ _ !! r) as [row|] eqn:Hrow; [|done]. simpl in H.
  apply lookup_replicate in Hrow as [-> _].
  by apply lookup_replicate in H as [-> _].
Qed.

Lemma update_min_cache st bp st' :
  update_min st bp = Ok st' -> fs_cache st' = fs_cache st.
Proof.
  unfold update_min. destruct (fs_e st); [|done].
  destruct (Float.lt _ _); by intros [= <-].
Qed.

Lemma call_e_classified seq temp emap (S : Sdict) n_branches st bp st' :
  call_e seq temp emap S n_branches st bp = Ok st' ->
  all_classified (fs_cache st) -> all_classified (fs_cache st').
Proof.
  unfold call_e. intros H Hc. inv_bind H as cr He. destruct cr as [c ret].
  destruct ret; [done|]. injection H as <-. simpl.
  eapply all_classified_step; [done|].
  intros r k. by eapply e_writes_classified.
Qed.

Lemma fill_step_classified seq temp emap (S : Sdict) n_branches st bp st' :
  fill_step seq temp emap S n_branches st bp = Ok st' ->
  all_classified (fs_cache st) -> all_classified (fs_cache st').
Proof.
  unfold fill_step. intros H Hc. inv_bind H as st1 H1.
  rewrite (update_min_cache _ _ _ H). by eapply call_e_classified.
Qed.

Lemma stem_step_classified seq temp emap (S : Sdict) n_branches n l_fix st bp
    st' :
  stem_step seq temp emap S n_branches n l_fix st bp = Ok st' ->
  all_classified (fs_cache st) -> all_classified (fs_cache st').
Proof.
  unfold stem_step. intros H Hc. destruct (bool_decide _).
  - inv_bind H as w Hw. destruct w as [c1|]; [|by injection H as <-].
    rewrite (update_min_cache _ _ _ H). simpl.
    eapply all_classified_step; [done|].
    intros r k. by eapply stem_writes_classified.
  - inv_bind H as st1 H1.
    rewrite (update_min_cache _ _ _ H). by eapply call_e_classified.
Qed.

Lemma for_each_bp_classified (D : Ddict) body st st' :
  (forall st bp st', body st bp = Ok st' ->
     all_classified (fs_cache st) -> all_classified (fs_cache st')) ->
  for_each_bp D body st = Ok st' ->
  all_classified (fs_cache st) -> all_classified (fs_cache st').
Proof.
  intros Hbody H Hc. unfold for_each_bp in H.
  revert H. apply (foldM_inv (fun st => all_classified (fs_cache st))); [|done].
  intros a entry a' _ Ha.
  apply (foldM_inv (fun st => all_classified (fs_cache st))); [|done].
  intros a1 bp a2 _ Ha1 Hb. by eapply Hbody.
Qed.

(** C9, as amended.  Provided a multi-branch struct that counts as a
    candidate lists at least two branches: every call of [_e] and every
    forced stack of a stem pair leaves in each position of the cache what
    was there or a struct that is classified by its children, and in the
    cache of a completed fill every struct is unfilled or so classified.
    Classified means: with no child, the struct is labelled a hairpin or is
    one of the two unlabelled structs, the penalty of an isolated pair and
    "no valid structure"; with one child, it is labelled a stack, a bulge or
    an interior loop; with two or more, it came from the multi-branch
    function. *)
Theorem fill_writes_classified_structs :
  (forall seq i j temp (e_cache : Cache) emap (S : Sdict) non_branches
          n_branches (c' : Cache) ret r k,
     _e seq i j temp e_cache emap S non_branches n_branches = Ok (c', ret) ->
     at_pos c' r k = at_pos e_cache r k
     \/ exists s, at_pos c' r k = Some s /\ classified_or_sentinel s)
  /\ (forall seq temp emap n (e_cache : Cache) bp (c' : Cache) r k,
        stem_write seq temp emap n e_cache bp = Ok (Some c') ->
        at_pos c' r k = at_pos e_cache r k
        \/ exists s, at_pos c' r k = Some s /\ classified_or_sentinel s)
  /\ (forall seq temp (S : Sdict) (D : Ddict) l_fix n_branches mode
             (e_cache : Cache) min_struct min_ene r k s,
        _cache seq temp S D l_fix n_branches mode
        = Ok (e_cache, min_struct, min_ene) ->
        at_pos e_cache r k = Some s ->
        s = STRUCT_DEFAULT \/ classified_or_sentinel s).
Proof.
  split_and!.
  - intros. by eapply e_writes_classified.
  - intros. by eapply stem_writes_classified.
  - intros seq temp S D l_fix n_branches mode e_cache min_struct min_ene r k s
      H. revert r k s. change (all_classified e_cache).
    unfold _cache in H. inv_bind H as emap Hemap.
    inv_bind H as st1 H1. inv_bind H as st2 H2. injection H as <- _ _.
    assert (all_classified (fs_cache st1)) as Hc1.
    { destruct (l_fix =? 0).
      - eapply for_each_bp_classified; [|exact H1|apply new_cache_all_default].
        intros *. apply fill_step_classified.
      - injection H1 as <-. apply new_cache_all_default. }
    destruct (0 <? l_fix).
    + eapply for_each_bp_classified; [|exact H2|exact Hc1].
      intros *. apply stem_step_classified.
    + by injection H2 as <-.
Qed.

End Classification.

(** The combinations of the small model have at least two members and its
    multi-branch struct lists them all. *)
Lemma toy_mb_children (bps : list (Z * Z)) :
  let X := Toy.with_pairs bps in
  forall seq i j temp (e_cache : Cache) emap branches n_branches combo,
    combo ∈ all_combinations branches (Some 2) n_branches ->
    truthy (gm_multi_branch seq i j temp e_cache emap combo) = true ->
    (2 <= length (ij (gm_multi_branch seq i j temp e_cache emap combo)))%nat.
Proof.
  intros X seq i j temp e_cache emap branches n_branches combo Hin _.
  simpl in *. unfold Toy.combinations in Hin.
  apply list_elem_of_filter in Hin as [Hin _].
  apply Is_true_true in Hin. rewrite !andb_true_iff in Hin.
  destruct Hin as [[Hlen _] _]. simpl in Hlen. lia.
Qed.

Lemma fill_writes_classified_structs_witness :
  let X := Toy.with_pairs [(0, 7)] in
  (forall seq i j temp (e_cache : Cache) emap (S : Sdict) non_branches
          n_branches (c' : Cache) ret r k,
     _e seq i j temp e_cache emap S non_branches n_branches = Ok (c', ret) ->
     at_pos c' r k = at_pos e_cache r k
     \/ exists s, at_pos c' r k = Some s /\ classified_or_sentinel s)
  /\ (forall seq temp emap n (e_cache : Cache) bp (c' : Cache) r k,
        stem_write seq temp emap n e_cache bp = Ok (Some c') ->
        at_pos c' r k = at_pos e_cache r k
        \/ exists s, at_pos c' r k = Some s /\ classified_or_sentinel s)
  /\ (forall seq temp (S : Sdict) (D : Ddict) l_fix n_branches mode
             (e_cache : Cache) min_struct min_ene r k s,
        _cache seq temp S D l_fix n_branches mode
        = Ok (e_cache, min_struct, min_ene) ->
        at_pos e_cache r k = Some s ->
        s = STRUCT_DEFAULT \/ classified_or_sentinel s).
Proof.
  intros X.
  apply (fill_writes_classified_structs (X:=X) (toy_mb_children [(0, 7)])).
Defined.

(** C9, as stated, fails: the struct that [_e] writes into the cell of the
    isolated pair (0, 7) of GAAAAAAC has no child and no label, so it is not
    labelled a hairpin. *)
Lemma penalty_struct_is_not_a_hairpin :
  let X := Toy.with_pairs [(0, 7)] in
  exists (c' : Cache) (s : Struct),
    _e "GAAAAAAC" 0 7 (31015 # 100) (new_cache 8) Toy.dna
      (Toy.Sij_of [(0, 7)]) ∅ 4
    = Ok (c', RetStruct s)
    /\ cell c' 0 7 = Ok s
    /\ cell (new_cache 8) 0 7 = Ok STRUCT_DEFAULT
    /\ ij s = []
    /\ desc s = ""
    /\ ~ classified_by_children s.
Proof.
  intros X. eexists; eexists.
  split; [vm_compute; reflexivity|].
  split_and!; try reflexivity.
  unfold classified_by_children. simpl. discriminate.
Qed.

(** ** Rounding *)

Module RoundFacts.



End RoundFacts.

(** ** [_trackback_energy] *)



Lemma trackback_energy_length (l : list Struct) :
  length (_trackback_energy l) = length l.
Proof. apply length_imap. Qed.

(** Each entry keeps the label and the children of the struct at its place;
    its energy is that of the struct minus the energy of the next struct,
    or minus zero at the end of the list, rounded. *)
Lemma trackback_energy_lookup (l : list Struct) (idx : nat) (s : Struct) :
  l !! idx = Some s ->
  _trackback_energy l !! idx
  = Some (marginal s (match l !! S idx with
                      | Some next => e next
                      | None => Fin 0
                      end)).
Proof.
  intros Hs. unfold _trackback_energy. rewrite list_lookup_imap, Hs. simpl.
  f_equal. f_equal. case_bool_decide as E; [|done].
  rewrite lookup_ge_None_2; [done|lia].
Qed.

Lemma trackback_energy_snoc (l : list Struct) (a : Struct) :
  exists init,
    _trackback_energy (l ++ [a]) = init ++ [marginal a (Fin 0)]
    /\ length init = length l.
Proof.
  exists (take (length l) (_trackback_energy (l ++ [a]))). split.
  - rewrite <- (take_drop (length l) (_trackback_energy (l ++ [a]))) at 1.
    f_equal. apply list_eq. intros idx.
    rewrite lookup_drop. destruct idx as [|idx].
    + rewrite Nat.add_0_r.
      erewrite trackback_energy_lookup
        by (rewrite lookup_app_r, Nat.sub_diag by done; done).
      rewrite lookup_ge_None_2; [done|]. rewrite length_app. simpl. lia.
    + simpl. apply lookup_ge_None_2.
      rewrite trackback_energy_length, length_app. simpl. lia.
  - rewrite length_take, trackback_energy_length, length_app. simpl. lia.
Qed.

(** ** The loop of the traceback *)

Lemma getitem_last {A : Type} (l : list A) (x : A) :
  getitem (l ++ [x]) (-1) = Ok x.
Proof.
  apply getitem_Ok. exists (length l). split.
  - rewrite py_norm_last by (rewrite length_app; simpl; lia).
    f_equal. rewrite length_app. simpl. lia.
  - by rewrite lookup_app_r, Nat.sub_diag.
Qed.

Lemma setitem_last {A : Type} (l : list A) (x y : A) :
  setitem (l ++ [x]) (-1) y = Ok (l ++ [y]).
Proof.
  apply setitem_Ok. exists (length l). split.
  - rewrite py_norm_last by (rewrite length_app; simpl; lia).
    f_equal. rewrite length_app. simpl. lia.
  - rewrite insert_app_r_alt, Nat.sub_diag by done. done.
Qed.

(** The branches of a multi-branch: what the loop of line 393 returns when
    every traceback of a child starts with a struct that has children. *)
Lemma branch_loop_spec (traceback : Z -> Z -> result (list Struct))
    (e_cache : Cache) (children : list (Z * Z)) (e_sum0 : energy)
    (branches0 : list Struct) (e_sum : energy) (branches : list Struct) :
  (forall bp tb, bp ∈ children -> traceback bp.1 bp.2 = Ok tb ->
     exists t rest, tb = t :: rest /\ ij t <> []) ->
  foldM (branch_step traceback e_cache) (e_sum0, branches0) children
  = Ok (e_sum, branches) ->
  exists tbs,
    Forall2 (fun bp tb => traceback bp.1 bp.2 = Ok tb
                          /\ exists s, cell e_cache bp.1 bp.2 = Ok s)
      children tbs
    /\ e_sum
       = fold_left (fun acc bp => Float.add acc (cached_energy e_cache bp))
           children e_sum0
    /\ branches = branches0 ++ concat tbs.
Proof.
  revert e_sum0 branches0.
  induction children as [|[i1 j1] children IH]; intros e_sum0 branches0 Hhead H;
    simpl in H.
  - injection H as <- <-. exists []. by rewrite app_nil_r.
  - inv_bind H as acc1 Hstep. destruct acc1 as [e_sum1 branches1].
    unfold branch_step in Hstep. inv_bind Hstep as tb Htb.
    destruct (Hhead (i1, j1) tb) as (t & rest & -> & Hij);
      [apply elem_of_cons; auto|done|].
    rewrite bool_decide_eq_true_2 in Hstep by done.
    inv_bind Hstep as child Hchild. injection Hstep as <- <-.
    destruct (IH _ _ (fun bp tb Hin => Hhead bp tb
                        (proj2 (elem_of_cons _ _ _) (or_intror Hin))) H)
      as (tbs & Hall & -> & ->).
    exists ((t :: rest) :: tbs). split_and!.
    + constructor; [|done]. split; [done|eauto].
    + assert (cached_energy e_cache (i1, j1) = e child) as Hce
        by (unfold cached_energy; simpl; by rewrite Hchild).
      cbn [fold_left]. by rewrite Hce.
    + simpl. by rewrite <- app_assoc.
Qed.

(** What a turn of the loop does at a cell, by the number of children. *)
Lemma loop_leaf (fuel : nat) (c : Cache) (i j : Z) (acc : list Struct)
    (s : Struct) :
  cell c i j = Ok s -> ij s = [] ->
  gm_traceback_loop (S fuel) c i j acc
  = Ok (_trackback_energy (acc ++ [with_ij s [(i, j)]])).
Proof. intros Hc Hij. simpl. rewrite Hc. simpl. by rewrite Hij. Qed.

Lemma loop_link (fuel : nat) (c : Cache) (i j : Z) (acc : list Struct)
    (s : Struct) (i1 j1 : Z) :
  cell c i j = Ok s -> ij s = [(i1, j1)] ->
  gm_traceback_loop (S fuel) c i j acc
  = gm_traceback_loop fuel c i1 j1 (acc ++ [with_ij s [(i, j)]]).
Proof. intros Hc Hij. simpl. rewrite Hc. simpl. by rewrite Hij. Qed.

Lemma loop_multi (fuel : nat) (c : Cache) (i j : Z) (acc : list Struct)
    (s : Struct) (p1 p2 : Z * Z) (l : list (Z * Z)) :
  cell c i j = Ok s -> ij s = p1 :: p2 :: l ->
  exists init,
    _trackback_energy (acc ++ [with_ij s [(i, j)]])
    = init ++ [marginal (with_ij s [(i, j)]) (Fin 0)]
    /\ length init = length acc
    /\ gm_traceback_loop (S fuel) c i j acc
       = (r ← foldM
                (branch_step
                   (fun i1 j1 => gm_traceback_loop fuel c i1 j1 []) c)
                (Fin 0, []) (p1 :: p2 :: l);
          mret (init
                ++ [marginal (marginal (with_ij s [(i, j)]) (Fin 0)) r.1]
                ++ r.2)).
Proof.
  intros Hc Hij.
  destruct (trackback_energy_snoc acc (with_ij s [(i, j)]))
    as (init & Hinit & Hlen).
  exists init. split_and!; [done..|].
  cbn [gm_traceback_loop]. rewrite Hc. cbn [mbind result_bind].
  rewrite Hij. destruct p1 as [a b].
  destruct (foldM _ _ _) as [[e_sum branches]| |]; [|done..].
  cbn [mbind result_bind]. rewrite Hinit, getitem_last.
  cbn [mbind result_bind]. rewrite setitem_last. simpl.
  by rewrite <- app_assoc.
Qed.

(** The list returned starts with one entry for each struct of the buffer
    and one for the cell, with their labels and children. *)
Lemma loop_prefix (fuel : nat) (c : Cache) (i j : Z) (acc L : list Struct) :
  gm_traceback_loop fuel c i j acc = Ok L ->
  exists root,
    cell c i j = Ok root
    /\ forall idx s,
         (acc ++ [with_ij root [(i, j)]]) !! idx = Some s ->
         exists t, L !! idx = Some t /\ ij t = ij s /\ desc t = desc s.
Proof.
  revert i j acc L. induction fuel as [|fuel IH]; intros i j acc L H; [done|].
  destruct (cell c i j) as [s| |] eqn:Hc;
    [|simpl in H; rewrite Hc in H; simpl in H; discriminate H..].
  exists s. split; [done|].
  destruct (ij s) as [|[i1 j1] [|p2 l]] eqn:Hij.
  - rewrite (loop_leaf _ _ _ _ _ _ Hc Hij) in H. injection H as <-.
    intros idx s1 Hs1. eexists.
    split; [by apply trackback_energy_lookup|done].
  - rewrite (loop_link _ _ _ _ _ _ _ _ Hc Hij) in H.
    apply IH in H as (root1 & _ & H). intros idx s1 Hs1.
    apply H. by apply lookup_app_l_Some.
  - destruct (loop_multi fuel c i j acc s _ _ _ Hc Hij)
      as (init & Hinit & Hlen & Heq).
    rewrite Heq in H. inv_bind H as r Hr. injection H as <-.
    intros idx s1 Hs1.
    pose proof (trackback_energy_lookup _ _ _ Hs1) as Hte.
    rewrite Hinit in Hte.
    destruct (decide (idx < length init)%nat) as [Hlt|Hge].
    + rewrite lookup_app_l in Hte by done.
      eexists. split; [by rewrite lookup_app_l|done].
    + apply lookup_lt_Some in Hs1 as Hidx.
      rewrite length_app in Hidx. simpl in Hidx.
      assert (idx = length init) as -> by lia.
      rewrite lookup_app_r, <- Hlen, Nat.sub_diag in Hs1 by lia.
      injection Hs1 as <-.
      eexists. split.
      { rewrite lookup_app_r, Nat.sub_diag by done. reflexivity. }
      done.
Qed.

Lemma loop_head (fuel : nat) (c : Cache) (i j : Z) (L : list Struct) :
  gm_traceback_loop fuel c i j [] = Ok L ->
  exists t rest, L = t :: rest /\ ij t <> [].
Proof.
  intros H. apply loop_prefix in H as (root & _ & H).
  destruct (H 0%nat (with_ij root [(i, j)]) eq_refl) as (t & Ht & Hij & _).
  destruct L as [|t' rest]; [done|]. injection Ht as ->.
  exists t, rest. split; [done|]. by rewrite Hij.
Qed.



(** ** The shape of the cache *)

Lemma length_chars_of_string (l : list ascii) :
  String.length (string_of_list_ascii l) = length l.
Proof. induction l as [|a l IH]; simpl; [done|by rewrite IH]. Qed.

Lemma length_chars (s : string) : length (chars s) = String.length s.
Proof. unfold chars. induction s as [|a s IH]; simpl; [done|by rewrite IH]. Qed.

Lemma len_upper (seq : string) : len (upper seq) = len seq.
Proof.
  unfold len, upper.
  by rewrite length_chars_of_string, length_fmap, length_chars.
Qed.

Section Shape.
Context `{X : Externals}.

Lemma e_length seq i j temp (e_cache : Cache) emap (S : Sdict) non_branches
    n_branches (c' : Cache) (ret : e_ret) :
  _e seq i j temp e_cache emap S non_branches n_branches = Ok (c', ret) ->
  length c' = length e_cache.
Proof.
  intros H. apply e_inv in H as (s0 & Hc & H).
  destruct H as [(_ & -> & _) | (_ & io & ii & Ho & Hi & H)]; [done|].
  destruct H as [(_ & Hset & _) | [(_ & _ & Hset & _)
                | (_ & _ & bps & e2 & HS & He2 & Hset & _)]];
    by eapply set_cell_length.
Qed.

Lemma call_e_length seq temp emap (S : Sdict) n_branches st bp st' :
  call_e seq temp emap S n_branches st bp = Ok st' ->
  length (fs_cache st') = length (fs_cache st).
Proof.
  unfold call_e. intros H. inv_bind H as cr He. destruct cr as [c ret].
  destruct ret; [done|]. injection H as <-. simpl. by eapply e_length.
Qed.

Lemma stem_step_length seq temp emap (S : Sdict) n_branches n l_fix st bp st' :
  stem_step seq temp emap S n_branches n l_fix st bp = Ok st' ->
  length (fs_cache st') = length (fs_cache st).
Proof.
  unfold stem_step. intros H. destruct (bool_decide _).
  - inv_bind H as w Hw. destruct w as [c1|]; [|by injection H as <-].
    rewrite (update_min_cache _ _ _ H). simpl.
    unfold stem_write in Hw. inv_bind Hw as nc Hnc. destruct nc; [done|].
    inv_bind Hw as inner Hin. inv_bind Hw as c2 Hset. injection Hw as ->.
    by eapply set_cell_length.
  - inv_bind H as st1 H1. rewrite (update_min_cache _ _ _ H).
    by eapply call_e_length.
Qed.

Lemma fill_step_length seq temp emap (S : Sdict) n_branches st bp st' :
  fill_step seq temp emap S n_branches st bp = Ok st' ->
  length (fs_cache st') = length (fs_cache st).
Proof.
  unfold fill_step. intros H. inv_bind H as st1 H1.
  rewrite (update_min_cache _ _ _ H). by eapply call_e_length.
Qed.

Lemma for_each_bp_length (D : Ddict) body st st' :
  (forall st bp st', body st bp = Ok st' ->
     length (fs_cache st') = length (fs_cache st)) ->
  for_each_bp D body st = Ok st' ->
  length (fs_cache st') = length (fs_cache st).
Proof.
  intros Hbody H. unfold for_each_bp in H. revert H.
  apply (foldM_inv (fun a => length (fs_cache a) = length (fs_cache st)));
    [|done].
  intros a entry a' _ Ha.
  apply (foldM_inv (fun a => length (fs_cache a) = length (fs_cache st)));
    [|done].
  intros a1 bp a2 _ Ha1 Hb. rewrite <- Ha1. by eapply Hbody.
Qed.

(** The cache that [_cache] returns has one row for each position of the
    sequence. *)
Lemma cache_length (seq : string) (temp : Q) (S : Sdict) (D : Ddict)
    (l_fix n_branches : Z) (mode : string) (c : Cache)
    (ms : option (Z * Z)) (me : energy) :
  _cache seq temp S D l_fix n_branches mode = Ok (c, ms, me) ->
  Z.of_nat (length c) = len seq.
Proof.
  unfold _cache. intros H. inv_bind H as emap Hemap.
  inv_bind H as st1 H1. inv_bind H as st2 H2. injection H as <- _ _.
  assert (length (fs_cache st1) = Z.to_nat (len (upper seq))) as Hl1.
  { destruct (l_fix =? 0).
    - rewrite (for_each_bp_length _ _ _ _ (fill_step_length _ _ _ _ _) H1).
      simpl. unfold new_cache. by rewrite length_replicate.
    - injection H1 as <-. simpl. unfold new_cache.
      by rewrite length_replicate. }
  assert (length (fs_cache st2) = length (fs_cache st1)) as ->.
  { destruct (0 <? l_fix).
    - by rewrite (for_each_bp_length _ _ _ _
                    (stem_step_length _ _ _ _ _ _ _) H2).
    - by injection H2 as <-. }
  rewrite Hl1, len_upper. unfold len. lia.
Qed.

End Shape.

(** ** The fixed stem *)


Section Stem.
Variables (c : Cache) (k : Z).
Let n : Z := Z.of_nat (length c).

(** The cells of the forced stem, each a link to the next pair inward. *)
Hypothesis stem_cells :
  forall m, 0 <= m < k - 1 ->
    exists s, cell c m (n - 1 - m) = Ok s /\ ij s = [(m + 1, n - 2 - m)].



End Stem.

Section FixedStem.
Context `{X : Externals}.

(** The forced stack of the fill (lines 169 to 188): where the next pair
    inward is complementary and the stack energy added to its cached energy
    is neither infinity nor NaN, the cell of the stem pair becomes a stack
    whose only child is that next pair. *)
Lemma stem_write_forced_stack (seq : string) (temp : Q) (emap : Energies)
    (n : Z) (c : Cache) (i j : Z) (inner s0 : Struct) :
  not_complementary emap seq (i + 1) (j - 1) = Ok false ->
  cell c (i + 1) (j - 1) = Ok inner ->
  Float.is_fin
    (Float.add (_stack seq i (i + 1) j (j - 1) temp emap) (e inner)) = true ->
  cell c i j = Ok s0 ->
  exists (c' : Cache) (s : Struct),
    stem_write seq temp emap n c (i, j) = Ok (Some c')
    /\ cell c' i j = Ok s
    /\ ij s = [(i + 1, j - 1)]
    /\ String.prefix "STACK" (desc s) = true.
Proof.
  intros Hnc Hin Hfin Hc. unfold stem_write. simpl.
  rewrite Hnc, Hin. simpl.
  set (en := Float.add _ _) in *.
  destruct en as [|q| |]; try discriminate Hfin. simpl.
  match goal with |- context [set_cell c i j ?s] =>
    destruct (set_cell_of_cell c i j s s0 Hc) as [c' Hset];
    exists c', s end.
  rewrite Hset. simpl. split_and!; [done|by eapply cell_set_cell|done|].
  simpl. destruct (dangling i j n); cbv [String.append];
    by destruct (_pair _ _ _ _ _).
Qed.


End FixedStem.



(** ** Sums of marginal energies *)





















(** ** [non_branches] at the resolution among the three candidates *)

Lemma struct_eqb_refl (s : Struct) :
  Float.is_fin (e s) = true -> struct_eqb s s = true.
Proof.
  unfold struct_eqb, ij_eqb. intros H. rewrite bool_decide_eq_true_2 by done.
  destruct (e s); try done. simpl. rewrite andb_true_r.
  apply Qeq_bool_iff. reflexivity.
Qed.

Lemma struct_eqb_ij (a b : Struct) : struct_eqb a b = true -> ij a = ij b.
Proof.
  unfold struct_eqb, ij_eqb. intros [_ H]%andb_true_iff.
  by apply bool_decide_eq_true in H.
Qed.

Section NonBranches.
Context `{X : Externals}.

Hypothesis mb_children :
  forall seq i j temp (e_cache : Cache) emap branches n_branches combo,
    combo ∈ all_combinations branches (Some 2) n_branches ->
    truthy (gm_multi_branch seq i j temp e_cache emap combo) = true ->
    (2 <= length (ij (gm_multi_branch seq i j temp e_cache emap combo)))%nat.

(** X1.  Lines 320 to 328.  When a pair of span other than four is resolved
    among the hairpin, the best loop and the best multi-branch, it is added
    to [non_branches] exactly when the chosen struct has no child (a
    hairpin, or "no valid structure"), has two or more children (a
    multi-branch), or has a strictly positive energy; a struct with one
    child and an energy that is not positive leaves [non_branches] as it
    was. *)
Theorem resolution_non_branches_iff (seq : string) (i j : Z) (temp : Q)
    (e_cache : Cache) (emap : Energies) (S : Sdict)
    (non_branches : gset (Z * Z)) (n_branches : Z) (c' : Cache)
    (chosen : Struct) (nb' : gset (Z * Z)) :
  _e seq i j temp e_cache emap S non_branches n_branches
  = Ok (c', RetPair chosen nb') ->
  j - i <> 4 ->
  (i, j) ∉ non_branches ->
  cell c' i j = Ok chosen
  /\ ((i, j) ∈ nb' <->
      ij chosen = [] \/ (2 <= length (ij chosen))%nat
      \/ Float.gt (e chosen) (Fin 0) = true)
  /\ (forall bp, bp <> (i, j) -> bp ∈ nb' <-> bp ∈ non_branches).
Proof.
  intros H Hspan Hnb. apply e_inv in H as (s0 & Hc & H).
  destruct H as [(_ & _ & [=]) | (_ & io & ii & Ho & Hi & H)].
  destruct H as [(_ & _ & [=]) | [(_ & ? & _) | (_ & _ & bps & e2 & HS & He2
                                               & Hset & Hret)]]; [done|].
  set (e1 := hairpin_struct seq i j temp emap) in *.
  set (e3 := e3_candidate seq i j temp e_cache emap bps non_branches
               n_branches io) in *.
  set (m := _min_struct [e1; e2; e3]) in *.
  injection Hret as -> ->.
  split; [by eapply cell_set_cell|].
  (* what the three candidates look like *)
  assert (He3 : e3 = STRUCT_NULL \/ (2 <= length (ij e3))%nat).
  { destruct (e3_candidate_inv mb_children seq i j temp e_cache emap bps
                non_branches n_branches io) as [? | [_ ?]]; auto. }
  assert (He2' : e2 = Struct1 PosInf \/ exists p, ij e2 = [p]).
  { apply e2_loop_inv in He2 as [? | [? _]]; auto. }
  destruct (min_struct_cases [e1; e2; e3]) as [Hm Hnan]. fold m in Hm, Hnan.
  assert (Hcond :
    Float.gt (e m) (Fin 0) || struct_eqb m e3 || struct_eqb m e1 = true <->
    ij m = [] \/ (2 <= length (ij m))%nat \/ Float.gt (e m) (Fin 0) = true).
  { rewrite !orb_true_iff. split.
    - intros [[Hgt | Heq] | Heq]; [auto| |].
      + apply struct_eqb_ij in Heq. rewrite Heq.
        destruct He3 as [-> | He3]; auto.
      + apply struct_eqb_ij in Heq. rewrite Heq. auto.
    - destruct Hm as [-> | [Hin Hfin]]; [intros _; by left; left|].
      rewrite !elem_of_cons, elem_of_nil in Hin.
      destruct Hin as [Hm | [Hm | [Hm | []]]].
      + intros _. right. rewrite Hm in Hfin |- *. by apply struct_eqb_refl.
      + intros [Hij | [Hlen | Hgt]]; [| |auto].
        * destruct He2' as [He2' | [p Hp]].
          -- rewrite Hm, He2' in Hfin. discriminate Hfin.
          -- rewrite Hm, Hp in Hij. discriminate Hij.
        * destruct He2' as [He2' | [p Hp]].
          -- rewrite Hm, He2' in Hfin. discriminate Hfin.
          -- rewrite Hm, Hp in Hlen. simpl in Hlen. lia.
      + intros _. left. right. rewrite Hm in Hfin |- *.
        by apply struct_eqb_refl. }
  rewrite <- Hcond. clear Hcond.
  match goal with |- context [if ?b then _ else _] =>
    change b with (Float.gt (e m) (Fin 0) || struct_eqb m e3 || struct_eqb m e1)
  end.
  destruct (Float.gt (e m) (Fin 0) || struct_eqb m e3 || struct_eqb m e1).
  - split.
    + split; [done|]. intros _.
      rewrite elem_of_union, elem_of_singleton. by left.
    + intros bp Hne. rewrite elem_of_union, elem_of_singleton. tauto.
  - split; [|done]. split; [done|discriminate].
Qed.

End NonBranches.

(** The pair (3, 8) of GGGGAAAACCCC, of span five, resolved to its hairpin. *)
Lemma resolution_non_branches_iff_witness :
  let X := Toy.with_pairs Toy.helix in
  let e1 := hairpin_struct "GGGGAAAACCCC" 3 8 (31015 # 100) Toy.dna in
  cell (<[3%nat := <[8%nat := e1]> (replicate 12 STRUCT_DEFAULT)]>
          (new_cache 12)) 3 8 = Ok e1
  /\ ((3, 8) ∈ ({[ (3, 8) ]} : gset (Z * Z)) <->
      ij e1 = [] \/ (2 <= length (ij e1))%nat
      \/ Float.gt (e e1) (Fin 0) = true)
  /\ (forall bp, bp <> (3, 8) ->
        bp ∈ ({[ (3, 8) ]} : gset (Z * Z)) <-> bp ∈ (∅ : gset (Z * Z))).
Proof.
  intros X e1.
  apply (resolution_non_branches_iff (X:=X) (toy_mb_children Toy.helix)
           "GGGGAAAACCCC" 3 8 (31015 # 100) (new_cache 12) Toy.dna
           (Toy.Sij_of Toy.helix) ∅ 4).
  - vm_compute. reflexivity.
  - lia.
  - apply not_elem_of_empty.
Defined.

(** ** The roundings add up *)

(** Two helices of four pairs side by side under the small energy model:
    the open loop over both has the cached energy -2.2, and the nine
    marginal energies returned add up to -2.0.  Each entry is within 0.05 of
    its exact value, but the sum is 0.2 away from the energy of the root. *)
Lemma rounding_deviation_accumulates :
  let pairs :=
    [(0, 10); (1, 9); (2, 8); (3, 7); (12, 22); (13, 21); (14, 20); (15, 19)] in
  let X := Toy.with_pairs pairs in
  let seq := "GGGGAAACCCCAGGGGAAACCCC" in
  exists e_cache ms me c' L,
    _cache seq 37 (Toy.Sij_of pairs) (Toy.D_of pairs) 0 4 "dna"
    = Ok (e_cache, ms, me)
    /\ resolve_exterior (len seq) 0 4 pairs e_cache ms me
       = Ok (c', Some (0, 22))
    /\ gmfold 10 seq 37 0 4 "dna" = Ok L
    /\ length L = 9%nat
    /\ (value (cached_energy c' (0, 22)%Z) == - (22 # 10))%Q
    /\ (value (energy_sum L) == - (2 # 1))%Q.
Proof.
  intros pairs X seq. do 5 eexists.
  split; [vm_compute; reflexivity|].
  split; [vm_compute; reflexivity|].
  split; [vm_compute; reflexivity|].
  split_and!; vm_compute; reflexivity.
Qed.

(** * Further properties *)

(** ** The two encoders *)

Lemma np_set_Ok (M : list (list Z)) (i j v : Z) (n r k : nat) :
  square n M -> py_norm n i = Some r -> py_norm n j = Some k ->
  exists M',
    np_set M i j v = Ok M' /\ square n M'
    /\ forall a b,
         mat_at M' a b
         = if bool_decide ((a, b) = (r, k)) then Some v else mat_at M a b.
Proof.
  intros [Hlen Hrows] Hr Hk.
  pose proof (py_norm_lt _ _ _ Hr) as Hrn.
  pose proof (py_norm_lt _ _ _ Hk) as Hkn.
  destruct (lookup_lt_is_Some_2 M r) as [row Hrow]; [lia|].
  assert (Hrl : length row = n).
  { eapply (proj1 (Forall_forall _ _) Hrows), list_elem_of_lookup_2, Hrow. }
  exists (<[r:=<[k:=v]> row]> M). split_and!.
  - unfold np_set.
    assert (getitem M i = Ok row) as ->.
    { apply getitem_Ok. exists r. by rewrite Hlen. }
    simpl.
    assert (setitem row j v = Ok (<[k:=v]> row)) as ->.
    { apply setitem_Ok. exists k. by rewrite Hrl. }
    simpl. apply setitem_Ok. exists r. by rewrite Hlen.
  - split; [by rewrite length_insert|].
    apply Forall_insert; [done|]. by rewrite length_insert.
  - intros a b. unfold mat_at. case_bool_decide as E.
    + injection E as -> ->.
      rewrite list_lookup_insert_eq by lia. simpl.
      apply list_lookup_insert_eq. lia.
    + destruct (decide (a = r)) as [->|Har].
      * rewrite list_lookup_insert_eq by lia. rewrite Hrow. simpl.
        apply list_lookup_insert_ne. congruence.
      * by rewrite list_lookup_insert_ne.
Qed.

Lemma np_set_Raise (M : list (list Z)) (i j v : Z) (n : nat) :
  square n M -> py_norm n i = None \/ py_norm n j = None ->
  np_set M i j v = Raise IndexError.
Proof.
  intros [Hlen Hrows] H. unfold np_set, getitem.
  rewrite Hlen. destruct (py_norm n i) as [r|] eqn:Hr; simpl; [|done].
  destruct H as [H|H]; [done|].
  pose proof (py_norm_lt _ _ _ Hr) as Hrn.
  destruct (lookup_lt_is_Some_2 M r) as [row Hrow]; [lia|].
  rewrite Hrow. simpl. unfold setitem.
  assert (Hrl : length row = n).
  { eapply (proj1 (Forall_forall _ _) Hrows), list_elem_of_lookup_2, Hrow. }
  by rewrite Hrl, H.
Qed.

Lemma named_pairs_cons (n : nat) (s : Struct) (l : list Struct) :
  named_pairs n (s :: l)
  = match ij s with
    | [(i, j)] =>
        match py_norm n i, py_norm n j with
        | Some a, Some b => [(a, b)]
        | _, _ => []
        end
    | _ => []
    end ++ named_pairs n l.
Proof. reflexivity. Qed.

Lemma named_positions_app (n : nat) (l1 l2 : list (nat * nat)) :
  flat_map (fun p : nat * nat => [p.1; p.2]) (l1 ++ l2)
  = flat_map (fun p : nat * nat => [p.1; p.2]) l1
    ++ flat_map (fun p : nat * nat => [p.1; p.2]) l2.
Proof. apply flat_map_app. Qed.

Lemma elem_of_named_positions (n : nat) (l : list Struct) (k : nat) :
  k ∈ named_positions n l <->
  exists b, (k, b) ∈ named_pairs n l \/ (b, k) ∈ named_pairs n l.
Proof.
  unfold named_positions. rewrite list_elem_of_In, in_flat_map. split.
  - intros ([a b] & Hin & Hk). apply list_elem_of_In in Hin.
    simpl in Hk. destruct Hk as [<- | [<- | []]]; eauto.
  - intros (b & [H | H]); apply list_elem_of_In in H; eexists; (split; [exact H|]);
      simpl; auto.
Qed.

Lemma mark_pair_other (R : list string) (s : Struct) :
  (forall i j, ij s <> [(i, j)]) -> mark_pair R s = Ok R.
Proof.
  intros Hne. unfold mark_pair.
  destruct (ij s) as [|[i j] [|p t]]; try done. by destruct (Hne i j).
Qed.

Lemma set_pair_other (M : list (list Z)) (s : Struct) :
  (forall i j, ij s <> [(i, j)]) -> set_pair M s = Ok M.
Proof.
  intros Hne. unfold set_pair.
  destruct (ij s) as [|[i j] [|p t]]; try done. by destruct (Hne i j).
Qed.

Lemma named_pairs_other (n : nat) (s : Struct) (l : list Struct) :
  (forall i j, ij s <> [(i, j)]) -> named_pairs n (s :: l) = named_pairs n l.
Proof.
  intros Hne. rewrite named_pairs_cons.
  destruct (ij s) as [|[i j] [|p t]]; try done. by destruct (Hne i j).
Qed.

(** The two loops side by side. *)
Lemma encoders_loop (n : nat) (l : list Struct) (R : list string)
    (M : list (list Z)) :
  length R = n -> square n M ->
  (subscripts_within n l /\
   exists R' M',
     foldM mark_pair R l = Ok R' /\ foldM set_pair M l = Ok M'
     /\ length R' = n /\ square n M'
     /\ (forall k, k ∉ named_positions n l -> R' !! k = R !! k)
     /\ (forall k, (k < n)%nat ->
           R !! k = Some "(" \/ R !! k = Some ")" \/ k ∈ named_positions n l ->
           R' !! k = Some "(" \/ R' !! k = Some ")")
     /\ (forall a b, (a, b) ∉ named_pairs n l -> (b, a) ∉ named_pairs n l ->
           mat_at M' a b = mat_at M a b)
     /\ (forall a b, (a < n)%nat -> (b < n)%nat ->
           mat_at M a b = Some 1 \/ (a, b) ∈ named_pairs n l
           \/ (b, a) ∈ named_pairs n l ->
           mat_at M' a b = Some 1))
  \/ (~ subscripts_within n l
      /\ foldM mark_pair R l = Raise IndexError
      /\ foldM set_pair M l = Raise IndexError).
Proof.
  revert R M. induction l as [|s l IH]; intros R M HR HM.
  - left. split; [constructor|]. exists R, M. simpl.
    split_and!; auto.
    + intros k Hk [H | [H | H]]; auto. by apply elem_of_nil in H.
    + intros a b Ha Hb [H | [H | H]]; auto; by apply elem_of_nil in H.
  - cbn [foldM].
    assert (Hskip : (forall i j, ij s <> [(i, j)]) ->
      (subscripts_within n (s :: l) /\
       exists R' M',
         mark_pair R s ≫= (fun a' => foldM mark_pair a' l) = Ok R'
         /\ set_pair M s ≫= (fun a' => foldM set_pair a' l) = Ok M'
         /\ length R' = n /\ square n M'
         /\ (forall k, k ∉ named_positions n (s :: l) -> R' !! k = R !! k)
         /\ (forall k, (k < n)%nat ->
               R !! k = Some "(" \/ R !! k = Some ")"
               \/ k ∈ named_positions n (s :: l) ->
               R' !! k = Some "(" \/ R' !! k = Some ")")
         /\ (forall a b, (a, b) ∉ named_pairs n (s :: l) ->
               (b, a) ∉ named_pairs n (s :: l) ->
               mat_at M' a b = mat_at M a b)
         /\ (forall a b, (a < n)%nat -> (b < n)%nat ->
               mat_at M a b = Some 1 \/ (a, b) ∈ named_pairs n (s :: l)
               \/ (b, a) ∈ named_pairs n (s :: l) ->
               mat_at M' a b = Some 1))
      \/ (~ subscripts_within n (s :: l)
          /\ mark_pair R s ≫= (fun a' => foldM mark_pair a' l)
             = Raise IndexError
          /\ set_pair M s ≫= (fun a' => foldM set_pair a' l)
             = Raise IndexError)).
    { intros Hne. rewrite (mark_pair_other R s Hne), (set_pair_other M s Hne).
      unfold named_positions. rewrite (named_pairs_other n s l Hne).
      cbn [mbind result_bind].
      destruct (IH R M HR HM) as [[Hw H] | (Hw & H1 & H2)].
      - left. split; [|exact H]. constructor; [|done].
        intros i j Hij. by destruct (Hne i j).
      - right. split_and!; [|done..].
        intros Hw'. apply Forall_cons in Hw' as [_ Hw']. done. }
    destruct (ij s) as [|[i j] [|p t]] eqn:Hij;
      [by apply Hskip| |by apply Hskip].
    clear Hskip.
    assert (mark_pair R s = (buf ← setitem R i "("; setitem buf j ")")) as ->
      by (unfold mark_pair; by rewrite Hij).
    assert (set_pair M s = (M ← np_set M i j 1; np_set M j i 1)) as ->
      by (unfold set_pair; by rewrite Hij).
    destruct (py_norm n i) as [ri|] eqn:Hi; cycle 1.
    { right. split_and!.
      - intros Hw. apply Forall_cons in Hw as [Hw _].
        destruct (Hw i j Hij) as [[x Hx] _]. congruence.
      - unfold setitem. by rewrite HR, Hi.
      - rewrite (np_set_Raise M i j 1 n); auto. }
    destruct (py_norm n j) as [rj|] eqn:Hj; cycle 1.
    { right. split_and!.
      - intros Hw. apply Forall_cons in Hw as [Hw _].
        destruct (Hw i j Hij) as [_ [x Hx]]. congruence.
      - unfold setitem. rewrite HR, Hi. simpl.
        by rewrite length_insert, HR, Hj.
      - rewrite (np_set_Raise M i j 1 n); auto. }
    pose proof (py_norm_lt _ _ _ Hi) as Hin.
    pose proof (py_norm_lt _ _ _ Hj) as Hjn.
    destruct (np_set_Ok M i j 1 n ri rj HM Hi Hj) as (M1 & HM1 & Hsq1 & Hat1).
    destruct (np_set_Ok M1 j i 1 n rj ri Hsq1 Hj Hi) as (M2 & HM2 & Hsq2 & Hat2).
    rewrite HM1. cbn [mbind result_bind]. rewrite HM2.
    assert (setitem R i "(" = Ok (<[ri:="("]> R)) as ->
      by (unfold setitem; by rewrite HR, Hi).
    cbn [mbind result_bind].
    assert (setitem (<[ri:="("]> R) j ")" = Ok (<[rj:=")"]> (<[ri:="("]> R)))
      as -> by (unfold setitem; by rewrite length_insert, HR, Hj).
    cbn [mbind result_bind].
    set (R2 := <[rj:=")"]> (<[ri:="("]> R)).
    assert (HR2 : length R2 = n) by (unfold R2; by rewrite !length_insert).
    assert (Hnp : named_pairs n (s :: l) = (ri, rj) :: named_pairs n l).
    { rewrite named_pairs_cons, Hij, Hi, Hj. done. }
    destruct (IH R2 M2 HR2 Hsq2) as [[Hw H] | (Hw & H1 & H2)].
    + left. split.
      { constructor; [|done]. intros i' j' Hij'. rewrite Hij in Hij'.
        injection Hij' as <- <-. rewrite Hi, Hj. eauto. }
      destruct H as (R' & M' & HfR & HfM & HlR & HsM & HRframe & HRmark
                     & HMframe & HMmark).
      exists R', M'. split_and!; auto.
      * intros k Hk. rewrite HRframe.
        -- unfold R2. rewrite !list_lookup_insert_ne; [done|..];
             intros ->; apply Hk; apply elem_of_named_positions;
             rewrite Hnp; [exists rj|exists ri]; [left|right];
             apply elem_of_cons; auto.
        -- intros Hk'. apply Hk. apply elem_of_named_positions.
           apply elem_of_named_positions in Hk' as (b & Hb).
           exists b. rewrite Hnp, !elem_of_cons. tauto.
      * intros k Hkn Hk. apply HRmark; [done|].
        destruct (decide (k = rj)) as [->|Hkj].
        { right. left. unfold R2. apply list_lookup_insert_eq.
          rewrite length_insert. lia. }
        destruct (decide (k = ri)) as [->|Hki].
        { left. unfold R2. rewrite list_lookup_insert_ne by done.
          apply list_lookup_insert_eq. lia. }
        unfold R2. rewrite !list_lookup_insert_ne by done.
        destruct Hk as [Hk | [Hk | Hk]]; auto.
        right. right. apply elem_of_named_positions.
        apply elem_of_named_positions in Hk as (b & Hb). exists b.
        rewrite Hnp, !elem_of_cons in Hb.
        destruct Hb as [[[=] | Hb] | [[=] | Hb]]; auto; congruence.
      * intros a b Hab Hba. rewrite Hnp in Hab, Hba.
        apply not_elem_of_cons in Hab as [Hab1 Hab], Hba as [Hba1 Hba].
        rewrite HMframe by done. rewrite Hat2, Hat1.
        rewrite !bool_decide_eq_false_2; [done|congruence..].
      * intros a b Ha Hb Hab. apply HMmark; [done..|].
        rewrite Hat2, Hat1. rewrite Hnp, !elem_of_cons in Hab.
        repeat case_bool_decide; auto.
        destruct Hab as [Hab | [[Hab | Hab] | [Hab | Hab]]]; auto; try done.
        injection Hab as -> ->. done.
    + right. split_and!; [|done..].
      intros Hw'. apply Forall_cons in Hw' as [_ Hw']. done.
Qed.

Lemma concat_chars (R : list string) :
  Forall (fun x => String.length x = 1%nat) R ->
  String.length (String.concat "" R) = length R
  /\ forall k, String.get k (String.concat "" R) = R !! k ≫= String.get 0.
Proof.
  induction 1 as [|x R Hx HR [IHl IHg]]; [split; [done|by intros []]|].
  destruct x as [|c [|c' x]]; try discriminate Hx.
  destruct R as [|y R].
  - split; [done|]. intros [|k]; [done|]. simpl. by destruct k.
  - change (String.concat "" (String c "" :: y :: R))
      with (String c (String.concat "" (y :: R))).
    split.
    + cbn [String.length length]. by rewrite IHl.
    + intros [|k]; [done|]. cbn [String.get]. by rewrite IHg.
Qed.

Lemma zeros_square (n : nat) : square n (replicate n (replicate n 0)).
Proof.
  split; [by rewrite length_replicate|].
  apply Forall_replicate. by rewrite length_replicate.
Qed.

Lemma mat_at_zeros (n a b : nat) :
  (a < n)%nat -> (b < n)%nat ->
  mat_at (replicate n (replicate n 0)) a b = Some 0.
Proof.
  intros Ha Hb. unfold mat_at. rewrite lookup_replicate_2 by done. simpl.
  by rewrite lookup_replicate_2.
Qed.

Lemma getitem_first {A : Type} (l : list A) :
  getitem l 0 = match l with x :: _ => Ok x | [] => Raise IndexError end.
Proof. by destruct l. Qed.

Lemma dot_bracket_unfold (seq : string) (first : Struct) (rest : list Struct) :
  gm_dot_bracket seq (first :: rest)
  = (buf ← foldM mark_pair (replicate (String.length seq) ".")
             (encoded (first :: rest));
     mret (String.concat "" buf)).
Proof. reflexivity. Qed.

Lemma s_matrix_unfold (seq : string) (first : Struct) (rest : list Struct)
    (size : option Z) :
  0 <= matrix_size seq size ->
  gm_s_matrix seq (first :: rest) size
  = foldM set_pair
      (replicate (Z.to_nat (matrix_size seq size))
         (replicate (Z.to_nat (matrix_size seq size)) 0))
      (encoded (first :: rest)).
Proof.
  intros H. unfold gm_s_matrix, np_zeros.
  destruct (matrix_size seq size <? 0) eqn:E; [lia|]. reflexivity.
Qed.

(** What the loop of the dot-bracket encoder leaves at each position. *)
Lemma marked_buffer (n : nat) (l : list Struct) (R' : list string) :
  foldM mark_pair (replicate n ".") l = Ok R' ->
  subscripts_within n l /\ length R' = n
  /\ Forall (fun x => String.length x = 1%nat) R'
  /\ forall k, (k < n)%nat ->
       if bool_decide (k ∈ named_positions n l)
       then R' !! k = Some "(" \/ R' !! k = Some ")"
       else R' !! k = Some ".".
Proof.
  intros H.
  destruct (encoders_loop n l (replicate n ".") (replicate n (replicate n 0)))
    as [[Hw (R1 & M1 & HR & _ & Hlen & _ & Hframe & Hmark & _)]
       | (_ & HR & _)];
    [by rewrite length_replicate|apply zeros_square| |congruence].
  assert (R1 = R') as -> by congruence.
  assert (Hk : forall k, (k < n)%nat ->
            if bool_decide (k ∈ named_positions n l)
            then R' !! k = Some "(" \/ R' !! k = Some ")"
            else R' !! k = Some ".").
  { intros k Hk. case_bool_decide as E.
    - apply Hmark; auto.
    - rewrite Hframe by done. by apply lookup_replicate_2. }
  split_and!; auto.
  apply Forall_lookup. intros k x Hx.
  assert (k < n)%nat as Hkn by (rewrite <- Hlen; by eapply lookup_lt_Some).
  specialize (Hk k Hkn). case_bool_decide; [destruct Hk as [Hk|Hk]|];
    rewrite Hk in Hx; by injection Hx as <-.
Qed.

Lemma get_of_buffer (R : list string) (k : nat) (c : ascii) :
  Forall (fun x => String.length x = 1%nat) R ->
  R !! k = Some (String c "") ->
  String.get k (String.concat "" R) = Some c.
Proof.
  intros HR Hk. destruct (concat_chars R HR) as [_ Hg].
  by rewrite Hg, Hk.
Qed.

(** X2.  What [gm_dot_bracket] does on every input.  It raises an
    [IndexError] when the list of structs is empty or when a struct with
    exactly one entry in [ij] holds a subscript outside the sequence, and it
    raises nothing else.  Otherwise it returns a string of the length of the
    sequence that has a bracket at each position named by such a struct
    (negative subscripts counting from the end) and a dot at every other
    position; structs with no entry or with several, and a leading open
    loop, leave no mark. *)
Theorem dot_bracket_outcome (seq : string) (structs : list Struct) :
  let n := String.length seq in
  match gm_dot_bracket seq structs with
  | Ok str =>
      structs <> [] /\ subscripts_within n (encoded structs)
      /\ String.length str = n
      /\ forall k, (k < n)%nat ->
           if bool_decide (k ∈ named_positions n (encoded structs))
           then String.get k str = Some "("%char
                \/ String.get k str = Some ")"%char
           else String.get k str = Some "."%char
  | Raise x =>
      x = IndexError
      /\ (structs = [] \/ ~ subscripts_within n (encoded structs))
  | Timeout => False
  end.
Proof.
  intros n. destruct structs as [|first rest]; [by split; [|left]|].
  rewrite dot_bracket_unfold.
  destruct (encoders_loop n (encoded (first :: rest)) (replicate n ".")
              (replicate n (replicate n 0)))
    as [[Hw (R1 & M1 & HR & _)] | (Hw & HR & _)];
    [by rewrite length_replicate|apply zeros_square| |].
  - fold n. rewrite HR. cbn [mbind result_bind mret result_ret].
    apply marked_buffer in HR as (_ & Hlen & Hone & Hk).
    destruct (concat_chars R1 Hone) as [Hl Hg].
    split_and!; [done|done|congruence|].
    intros k Hkn. specialize (Hk k Hkn).
    case_bool_decide; [destruct Hk as [Hk|Hk]; [left|right]|];
      by apply get_of_buffer.
  - fold n. rewrite HR. simpl. split; [done|by right].
Qed.


(** X5.  The two encoders agree.  On the same sequence and structs, with no
    [size], both raise an [IndexError] or both return; and when they return,
    a position carries a dot in the dot-bracket string exactly when its row
    of the matrix is all zero. *)
Theorem encoders_agree (seq : string) (structs : list Struct) :
  let n := String.length seq in
  match gm_dot_bracket seq structs, gm_s_matrix seq structs None with
  | Ok str, Ok M =>
      forall k, (k < n)%nat ->
        String.get k str = Some "."%char <->
        forall b, (b < n)%nat -> mat_at M k b = Some 0
  | Raise x, Raise y => x = IndexError /\ y = IndexError
  | _, _ => False
  end.
Proof.
  intros n.
  assert (Hsz : matrix_size seq None = Z.of_nat n) by done.
  destruct structs as [|first rest].
  { unfold gm_s_matrix, np_zeros. rewrite Hsz.
    destruct (Z.of_nat n <? 0) eqn:E; [lia|done]. }
  rewrite dot_bracket_unfold.
  rewrite s_matrix_unfold by lia. rewrite Hsz, Nat2Z.id.
  destruct (encoders_loop n (encoded (first :: rest)) (replicate n ".")
              (replicate n (replicate n 0)))
    as [[Hw (R1 & M1 & HR & HM & _ & _ & _ & _ & Hframe & Hmark)]
       | (Hw & HR & HM)];
    [by rewrite length_replicate|apply zeros_square|
    |fold n; by rewrite HR, HM].
  fold n. rewrite HR, HM. cbn [mbind result_bind mret result_ret].
  apply marked_buffer in HR as (_ & Hlen & Hone & Hk).
  intros k Hkn. specialize (Hk k Hkn).
  case_bool_decide as E.
  - split.
    + intros Hdot. destruct Hk as [Hk|Hk];
        rewrite (get_of_buffer _ _ _ Hone Hk) in Hdot; discriminate Hdot.
    + intros Hrow. apply elem_of_named_positions in E as [b Hb].
      assert (b < n)%nat as Hbn.
      { assert (b ∈ named_positions n (encoded (first :: rest))) as Hbp.
        { apply elem_of_named_positions. exists k. tauto. }
        clear -Hbp. unfold named_positions, named_pairs in Hbp.
        apply list_elem_of_In, in_flat_map in Hbp as ([x y] & Hin & Hb).
        apply in_flat_map in Hin as (s & _ & Hin).
        destruct (ij s) as [|[i j] [|? ?]]; try done.
        destruct (py_norm n i) as [ri|] eqn:Hi; [|done].
        destruct (py_norm n j) as [rj|] eqn:Hj; [|done].
        destruct Hin as [[= <- <-]|[]].
        apply py_norm_lt in Hi, Hj. simpl in Hb.
        destruct Hb as [<- | [<- | []]]; done. }
      specialize (Hrow b Hbn). rewrite Hmark in Hrow by tauto.
      discriminate Hrow.
  - split; [intros _|intros _; by apply get_of_buffer].
    intros b Hbn. rewrite Hframe.
    + by apply mat_at_zeros.
    + intros Hin. apply E, elem_of_named_positions. eauto.
    + intros Hin. apply E, elem_of_named_positions. eauto.
Qed.

(** When the structs name each position at most once, a pair has its
    opening bracket at the first position and its closing one at the
    second. *)
Lemma mark_loop_distinct (n : nat) (l : list Struct) (R R' : list string) :
  length R = n ->
  foldM mark_pair R l = Ok R' ->
  NoDup (named_positions n l) ->
  forall a b, (a, b) ∈ named_pairs n l ->
    R' !! a = Some "(" /\ R' !! b = Some ")".
Proof.
  revert R. induction l as [|s l IH]; intros R HR H Hnd a b Hab;
    [by apply elem_of_nil in Hab|].
  cbn [foldM] in H. inv_bind H as R1 H1.
  destruct (encoders_loop n l R1 (replicate n (replicate n 0)))
    as [[_ (R2 & _ & HR2 & _ & _ & _ & Hframe & _)] | (_ & HR2 & _)];
    [|apply zeros_square| |congruence].
  { unfold mark_pair in H1. destruct (ij s) as [|[i j] [|? ?]];
      try (injection H1 as <-; done).
    inv_bind H1 as R0 H0. apply setitem_Ok in H0 as (? & _ & ->).
    apply setitem_Ok in H1 as (? & _ & ->). by rewrite !length_insert. }
  assert (R2 = R') as -> by congruence.
  rewrite named_pairs_cons in Hab. unfold named_positions in Hnd.
  rewrite named_pairs_cons, flat_map_app in Hnd.
  apply NoDup_app in Hnd as (Hnd1 & Hdisj & Hnd2).
  apply elem_of_app in Hab as [Hab | Hab].
  - unfold mark_pair in H1. destruct (ij s) as [|[i j] [|? ?]];
      try (by apply elem_of_nil in Hab).
    destruct (py_norm n i) as [ri|] eqn:Hi; [|by apply elem_of_nil in Hab].
    destruct (py_norm n j) as [rj|] eqn:Hj; [|by apply elem_of_nil in Hab].
    apply list_elem_of_singleton in Hab. injection Hab as -> ->.
    simpl in Hnd1, Hdisj.
    apply NoDup_cons in Hnd1 as [Hne _].
    assert (ri <> rj) as Hne'.
    { intros ->. apply Hne, elem_of_cons. auto. }
    inv_bind H1 as R0 H0.
    unfold setitem in H0, H1. rewrite HR, Hi in H0. injection H0 as <-.
    rewrite length_insert, HR, Hj in H1. injection H1 as <-.
    pose proof (py_norm_lt _ _ _ Hi). pose proof (py_norm_lt _ _ _ Hj).
    rewrite !Hframe.
    + split.
      * rewrite list_lookup_insert_ne by done.
        apply list_lookup_insert_eq. lia.
      * apply list_lookup_insert_eq. rewrite length_insert. lia.
    + apply Hdisj. rewrite !elem_of_cons. auto.
    + apply Hdisj. rewrite !elem_of_cons. auto.
  - eapply IH; [|exact HR2|done|done].
    unfold mark_pair in H1. destruct (ij s) as [|[i j] [|? ?]];
      try (injection H1 as <-; done).
    inv_bind H1 as R0 H0. apply setitem_Ok in H0 as (? & _ & ->).
    apply setitem_Ok in H1 as (? & _ & ->). by rewrite !length_insert.
Qed.

(** X3.  When the structs name each position at most once, every pair they
    name has its opening bracket at the first position and its closing
    bracket at the second. *)
Theorem dot_bracket_distinct_pairs (seq : string) (structs : list Struct)
    (str : string) :
  gm_dot_bracket seq structs = Ok str ->
  NoDup (named_positions (String.length seq) (encoded structs)) ->
  forall a b,
    (a, b) ∈ named_pairs (String.length seq) (encoded structs) ->
    String.get a str = Some "("%char /\ String.get b str = Some ")"%char.
Proof.
  intros H Hnd a b Hab. destruct structs as [|first rest]; [done|].
  rewrite dot_bracket_unfold in H. inv_bind H as R HR. injection H as <-.
  pose proof (mark_loop_distinct _ _ _ _ ltac:(apply length_replicate) HR Hnd
                a b Hab) as [Ha Hb].
  apply marked_buffer in HR as (_ & _ & Hone & _).
  split; by apply get_of_buffer.
Qed.

(** The fold of GGGGAAAACCCC: the outermost pair (0, 11). *)
Lemma dot_bracket_distinct_pairs_witness :
  String.get 0 "((((....))))" = Some "("%char
  /\ String.get 11 "((((....))))" = Some ")"%char.
Proof.
  apply (dot_bracket_distinct_pairs "GGGGAAAACCCC" Toy.helix_fold
           "((((....))))").
  - vm_compute. reflexivity.
  - vm_compute. repeat (constructor; [rewrite ?elem_of_cons, elem_of_nil; lia|]).
    constructor.
  - vm_compute. constructor.
Defined.

(** ** What the traceback returns *)

(** An assignment to a cell, seen through the subscripts of any cell. *)
Lemma cell_after_set (c : Cache) (i j : Z) (new old : Struct) (c' : Cache) :
  set_cell c i j new = Ok c' -> cell c i j = Ok old ->
  forall a b,
    cell c' a b = cell c a b
    \/ (cell c a b = Ok old /\ cell c' a b = Ok new).
Proof.
  intros (r & k & row & Hr & Hrow & Hk & ->)%set_cell_Ok Hold a b.
  apply cell_Ok in Hold as (r' & k' & row' & Hr' & Hrow' & Hk' & Hold).
  assert (r' = r) as -> by congruence.
  assert (row' = row) as -> by congruence.
  assert (k' = k) as -> by congruence.
  pose proof (py_norm_lt _ _ _ Hr) as Hrn.
  pose proof (py_norm_lt _ _ _ Hk) as Hkn.
  unfold cell, getitem. rewrite length_insert.
  destruct (py_norm (length c) a) as [ra|] eqn:Ha; simpl; [|by left].
  destruct (decide (ra = r)) as [->|Hne].
  - rewrite list_lookup_insert_eq by done. rewrite Hrow. simpl.
    rewrite length_insert.
    destruct (py_norm (length row) b) as [kb|] eqn:Hb; simpl; [|by left].
    destruct (decide (kb = k)) as [->|Hnek].
    + right. rewrite list_lookup_insert_eq by done. by rewrite Hold.
    + left. by rewrite list_lookup_insert_ne.
  - left. by rewrite list_lookup_insert_ne.
Qed.

Lemma trackback_energy_Forall (P : Struct -> Prop) (l : list Struct) :
  (forall s x, P s -> P (marginal s x)) ->
  Forall P l -> Forall P (_trackback_energy l).
Proof.
  intros Hm Hl. apply Forall_lookup. intros idx t Ht.
  destruct (lookup_lt_is_Some_2 l idx) as [s Hs].
  { rewrite <- trackback_energy_length. by eapply lookup_lt_Some. }
  rewrite (trackback_energy_lookup _ _ _ Hs) in Ht. injection Ht as <-.
  apply Hm. by eapply (proj1 (Forall_lookup _ _) Hl).
Qed.

Lemma names_cell_marginal (c : Cache) (s : Struct) (x : energy) :
  names_cell c s -> names_cell c (marginal s x).
Proof. intros (a & b & s0 & H1 & H2 & H3). by exists a, b, s0. Qed.

(** Every struct of the list that the loop returns stands for a cell. *)
Lemma loop_sound (fuel : nat) (c : Cache) :
  forall i j acc L,
    Forall (names_cell c) acc ->
    gm_traceback_loop fuel c i j acc = Ok L ->
    Forall (names_cell c) L.
Proof.
  induction fuel as [|fuel IH]; intros i j acc L Hacc H; [done|].
  destruct (cell c i j) as [s| |] eqn:Hc;
    [|simpl in H; rewrite Hc in H; simpl in H; discriminate H..].
  assert (Hw : names_cell c (with_ij s [(i, j)])) by (by exists i, j, s).
  assert (Hacc' : Forall (names_cell c) (acc ++ [with_ij s [(i, j)]])).
  { apply Forall_app. split; [done|]. by constructor. }
  destruct (ij s) as [|[i1 j1] [|p2 l]] eqn:Hij.
  - rewrite (loop_leaf _ _ _ _ _ _ Hc Hij) in H. injection H as <-.
    apply trackback_energy_Forall; [apply names_cell_marginal|done].
  - rewrite (loop_link _ _ _ _ _ _ _ _ Hc Hij) in H. by eapply IH.
  - destruct (loop_multi fuel c i j acc s _ _ _ Hc Hij)
      as (init & Hinit & Hlen & Heq).
    rewrite Heq in H. inv_bind H as r Hr. injection H as <-.
    destruct r as [e_sum branches].
    apply branch_loop_spec in Hr as (tbs & Htbs & _ & Hbr);
      [|intros bp tb _ Htb; exact (loop_head fuel c bp.1 bp.2 tb Htb)].
    pose proof (trackback_energy_Forall (names_cell c) _
                  (names_cell_marginal c) Hacc') as Hte.
    rewrite Hinit in Hte. apply Forall_app in Hte as [Hi Hl].
    apply Forall_app. split; [done|].
    simpl. constructor.
    + apply names_cell_marginal. by apply Forall_inv in Hl.
    + rewrite Hbr. simpl. apply Forall_concat.
      clear -Htbs IH. induction Htbs as [|bp tb ps tbs' [Htb _] _ IHt];
        constructor; [|done].
      eapply IH; [|exact Htb]. constructor.
Qed.

Lemma loop_nonempty (fuel : nat) (c : Cache) (i j : Z) (acc L : list Struct) :
  gm_traceback_loop fuel c i j acc = Ok L -> (length acc < length L)%nat.
Proof.
  intros H. apply loop_prefix in H as (root & _ & H).
  destruct (H (length acc) (with_ij root [(i, j)])) as (t & Ht & _).
  { by rewrite lookup_app_r, Nat.sub_diag. }
  by eapply lookup_lt_Some.
Qed.

(** The stem rewriting keeps the labels, the energies and the number of
    children of all cells. *)
Lemma stem_rewrite_cells (c : Cache) (k : Z) (c' : Cache) :
  stem_rewrite c k = Ok c' ->
  length c' = length c
  /\ forall a b s', cell c' a b = Ok s' ->
       exists s, cell c a b = Ok s /\ desc s = desc s' /\ e s = e s'
                 /\ length (ij s) = length (ij s').
Proof.
  unfold stem_rewrite. intros H. inv_bind H as s0 Hs0.
  inv_bind H as children Hch. split; [by eapply set_cell_length|].
  intros a b s' Hs'.
  destruct (cell_after_set _ _ _ _ _ _ H Hs0 a b) as [Heq | [Hold Hnew]].
  - exists s'. by rewrite <- Heq.
  - exists s0. rewrite Hnew in Hs'. injection Hs' as <-.
    apply setitem_Ok in Hch as (? & _ & ->). simpl.
    by rewrite length_insert.
Qed.

Lemma stem_rewrites_cells (c : Cache) (ks : list Z) (c' : Cache) :
  foldM stem_rewrite c ks = Ok c' ->
  length c' = length c
  /\ forall a b s', cell c' a b = Ok s' ->
       exists s, cell c a b = Ok s /\ desc s = desc s' /\ e s = e s'
                 /\ length (ij s) = length (ij s').
Proof.
  revert c. induction ks as [|k ks IH]; intros c H; simpl in H.
  - injection H as <-. split; [done|]. eauto.
  - inv_bind H as c1 H1. apply stem_rewrite_cells in H1 as [Hl1 H1].
    apply IH in H as [Hl H]. split; [congruence|].
    intros a b s' Hs'. apply H in Hs' as (s1 & Hs1 & Hd1 & He1 & Hn1).
    apply H1 in Hs1 as (s & Hs & Hd & He & Hn). exists s.
    split_and!; congruence.
Qed.

(** The stem rewriting goes through only if each cell it visits has a
    child. *)
Lemma stem_rewrites_need_children (c : Cache) (ks : list Z) (c' : Cache) :
  foldM stem_rewrite c ks = Ok c' ->
  forall k, k ∈ ks ->
    exists s, cell c (k - 1) (Z.of_nat (length c) - k) = Ok s /\ ij s <> [].
Proof.
  revert c. induction ks as [|k0 ks IH]; intros c H k Hk;
    [by apply elem_of_nil in Hk|].
  simpl in H. inv_bind H as c1 H1.
  apply elem_of_cons in Hk as [-> | Hk].
  - unfold stem_rewrite in H1. inv_bind H1 as s0 Hs0.
    inv_bind H1 as children Hch. exists s0. split; [done|].
    intros Hnil. rewrite Hnil in Hch. discriminate Hch.
  - destruct (IH _ H k Hk) as (s1 & Hs1 & Hne).
    apply stem_rewrite_cells in H1 as [Hlen H1]. rewrite Hlen in Hs1.
    apply H1 in Hs1 as (s & Hs & _ & _ & Hn). exists s. split; [done|].
    intros Hnil. rewrite Hnil in Hn. by destruct (ij s1).
Qed.

Lemma traceback_sound (fuel : nat) (i j : Z) (e_cache : Cache)
    (l_fix : Z) (L : list Struct) :
  gm_traceback fuel i j e_cache l_fix = Ok L ->
  L <> []
  /\ Forall (names_cell e_cache) L
  /\ exists t, L !! 0%nat = Some t
       /\ ij t = [if 0 <? l_fix then (0, Z.of_nat (length e_cache) - 1)
                  else (i, j)].
Proof.
  unfold gm_traceback. intros H.
  assert (Hloop : forall c' i' j',
            gm_traceback_loop fuel c' i' j' [] = Ok L ->
            length c' = length e_cache ->
            (forall a b s', cell c' a b = Ok s' ->
               exists s, cell e_cache a b = Ok s /\ desc s = desc s') ->
            L <> [] /\ Forall (names_cell e_cache) L
            /\ exists t, L !! 0%nat = Some t /\ ij t = [(i', j')]).
  { intros c' i' j' HL Hlen Hcells. split_and!.
    - apply loop_nonempty in HL. destruct L; simpl in *; [lia|done].
    - eapply Forall_impl; [eapply loop_sound; [|exact HL]; constructor|].
      intros t (a & b & s' & H1 & H2 & H3).
      apply Hcells in H2 as (s & Hs & Hd). exists a, b, s.
      split_and!; congruence.
    - apply loop_prefix in HL as (root & _ & HL).
      destruct (HL 0%nat (with_ij root [(i', j')]) eq_refl) as (t & Ht & Hij & _).
      eauto. }
  destruct (1 <? l_fix) eqn:E1.
  - inv_bind H as c' Hc'. apply stem_rewrites_cells in Hc' as [Hlen Hcells].
    replace (0 <? l_fix) with true by lia. rewrite <- Hlen.
    apply (Hloop c'); [done..|].
    intros a b s' Hs'. apply Hcells in Hs' as (s & ? & ? & _). eauto.
  - destruct (l_fix =? 1) eqn:E2.
    + replace (0 <? l_fix) with true by lia. apply (Hloop e_cache); eauto.
    + replace (0 <? l_fix) with false by lia. apply (Hloop e_cache); eauto.
Qed.

(** X6.  The list that [gm_traceback] returns is never empty; each of its
    structs holds exactly one pair in [ij], the subscripts of a cell of the
    cache, under the label of that cell (so the test [tb and tb[0].ij] of
    line 395 never rejects a branch); and the first struct holds the pair
    the traceback started from: [(i, j)], or the whole sequence when a stem
    is fixed. *)
Theorem traceback_names_cells (fuel : nat) (i j : Z) (e_cache : Cache)
    (l_fix : Z) (L : list Struct) :
  gm_traceback fuel i j e_cache l_fix = Ok L ->
  L <> []
  /\ Forall (names_cell e_cache) L
  /\ exists t, L !! 0%nat = Some t
       /\ ij t = [if 0 <? l_fix then (0, Z.of_nat (length e_cache) - 1)
                  else (i, j)].
Proof. apply traceback_sound. Qed.

(** The open loop over two hairpins. *)
Lemma traceback_names_cells_witness :
  let c := Toy.two_hairpins_resolved in
  exists L,
    gm_traceback 2 0 9 c 0 = Ok L
    /\ L <> []
    /\ Forall (names_cell c) L
    /\ exists t, L !! 0%nat = Some t
         /\ ij t = [if 0 <? 0 then (0, Z.of_nat (length c) - 1) else (0, 9)].
Proof.
  intros c. eexists. split; [vm_compute; reflexivity|].
  apply (traceback_names_cells 2 0 9 c 0). vm_compute. reflexivity.
Defined.

(** ** Invariants of the fill *)

Lemma lt_irrefl (a : energy) : Float.lt a a = false.
Proof.
  destruct a as [|x| |]; try done. simpl.
  assert (Qle_bool x x = true) as -> by (apply Qle_bool_iff; lra). done.
Qed.

Lemma lt_trans (a b c : energy) :
  Float.lt a b = true -> Float.lt b c = true -> Float.lt a c = true.
Proof.
  destruct a as [|x| |], b as [|y| |], c as [|z| |]; try done.
  rewrite !FloatFacts.lt_spec_fin. lra.
Qed.

Lemma foldM_prefix_inv {A B : Type} (P : list B -> A -> Prop)
    (f : A -> B -> result A) (l pre : list B) (a a' : A) :
  (forall pre b a1 a2, b ∈ l -> P pre a1 -> f a1 b = Ok a2 ->
     P (pre ++ [b]) a2) ->
  P pre a -> foldM f a l = Ok a' -> P (pre ++ l) a'.
Proof.
  revert pre a. induction l as [|b l IH]; intros pre a Hf Ha H; simpl in H.
  - injection H as <-. by rewrite app_nil_r.
  - inv_bind H as a1 H1.
    replace (pre ++ b :: l) with ((pre ++ [b]) ++ l)
      by (by rewrite <- app_assoc).
    apply (IH _ a1); auto.
    + intros pre' b' a2 a3 Hb'. apply Hf, elem_of_cons; auto.
    + eapply Hf; [|done..]. apply elem_of_cons; auto.
Qed.

Lemma set_cell_at_pos (n : nat) (c : Cache) (i j : Z) (s : Struct)
    (c' : Cache) :
  square n c -> set_cell c i j s = Ok c' ->
  exists r k,
    py_norm n i = Some r /\ py_norm n j = Some k /\ square n c'
    /\ forall a b,
         at_pos c' a b
         = if bool_decide ((a, b) = (r, k)) then Some s else at_pos c a b.
Proof.
  intros [Hlen Hrows] (r & k & row & Hr & Hrow & Hk & ->)%set_cell_Ok.
  assert (Hrl : length row = n).
  { eapply (proj1 (Forall_forall _ _) Hrows), list_elem_of_lookup_2, Hrow. }
  rewrite Hlen in Hr. rewrite Hrl in Hk.
  pose proof (py_norm_lt _ _ _ Hr) as Hrn.
  pose proof (py_norm_lt _ _ _ Hk) as Hkn.
  exists r, k. split_and!; [done..| |].
  - split; [by rewrite length_insert|].
    apply Forall_insert; [done|]. by rewrite length_insert.
  - intros a b. unfold at_pos. case_bool_decide as E.
    + injection E as -> ->.
      rewrite list_lookup_insert_eq by lia. simpl.
      apply list_lookup_insert_eq. lia.
    + destruct (decide (a = r)) as [->|Har].
      * rewrite list_lookup_insert_eq by lia. rewrite Hrow. simpl.
        apply list_lookup_insert_ne. congruence.
      * by rewrite list_lookup_insert_ne.
Qed.

Lemma new_cache_square (n : Z) : square (Z.to_nat n) (new_cache n).
Proof.
  split; [apply length_replicate|].
  apply Forall_replicate, length_replicate.
Qed.

Lemma at_pos_new_cache (n : Z) (r k : nat) (s : Struct) :
  at_pos (new_cache n) r k = Some s -> s = STRUCT_DEFAULT.
Proof.
  unfold at_pos, new_cache. intros H.
  destruct (replicate _ _ !! r) as [row|] eqn:Hrow; [|done]. simpl in H.
  apply lookup_replicate in Hrow as [-> _].
  by apply lookup_replicate in H as [-> _].
Qed.

Lemma elem_of_concat {A : Type} (x : A) (ls : list (list A)) :
  x ∈ concat ls <-> exists l, x ∈ l /\ l ∈ ls.
Proof.
  rewrite list_elem_of_In, in_concat. split.
  - intros (l & H1 & H2). exists l. by rewrite !list_elem_of_In.
  - intros (l & H1 & H2). exists l. by rewrite <- !list_elem_of_In.
Qed.

Section Fill.
Context `{X : Externals}.

Lemma in_D_visited (D : Ddict) (bp : Z * Z) :
  in_D D bp <->
  bp ∈ concat ((fun entry : Z * list (Z * Z) => set_iter entry.2)
                 <$> sorted_by_key D).
Proof.
  rewrite elem_of_concat. split.
  - intros (d & l & Hin & Hbp). exists (set_iter l). split.
    + rewrite (set_iter_perm l). by apply elem_of_remove_dups.
    + apply list_elem_of_fmap. exists (d, l). split; [done|].
      by apply elem_of_sorted_by_key.
  - intros (l' & Hbp & Hl').
    apply list_elem_of_fmap in Hl' as (entry & Heq & Hin). subst l'.
    destruct entry as [d l].
    simpl in Hbp. rewrite (set_iter_perm l) in Hbp.
    rewrite elem_of_remove_dups in Hbp.
    apply (proj1 (elem_of_sorted_by_key _ _)) in Hin. by exists d, l.
Qed.

(** An invariant of the loops of the fill that may speak of the pairs
    visited so far. *)
Lemma for_each_bp_prefix_inv (P : list (Z * Z) -> fill_state -> Prop)
    (D : Ddict) (body : fill_state -> Z * Z -> result fill_state)
    (st st' : fill_state) :
  (forall V bp st1 st2, in_D D bp -> P V st1 -> body st1 bp = Ok st2 ->
     P (V ++ [bp]) st2) ->
  P [] st -> for_each_bp D body st = Ok st' ->
  exists V, P V st' /\ forall bp, in_D D bp <-> bp ∈ V.
Proof.
  intros Hbody Hst H. unfold for_each_bp in H.
  eexists. split; [|intros bp; apply in_D_visited].
  assert (Hsub : forall entry, entry ∈ sorted_by_key D ->
            forall bp, bp ∈ set_iter entry.2 -> in_D D bp).
  { intros entry Hin bp Hbp. apply in_D_visited, elem_of_concat.
    exists (set_iter entry.2). split; [done|].
    apply list_elem_of_fmap. eauto. }
  pose (vis := fun pre : Ddict =>
                concat ((fun entry : Z * list (Z * Z) => set_iter entry.2)
                          <$> pre)).
  change (P (vis ([] ++ sorted_by_key D)) st').
  revert H.
  apply (foldM_prefix_inv (fun pre st => P (vis pre) st)); [|done].
  intros pre entry st1 st2 Hentry HP Hin. unfold vis.
  rewrite fmap_app, concat_app. simpl. rewrite app_nil_r.
  revert Hin. apply (foldM_prefix_inv P); [|done].
  intros V bp st3 st4 Hbp HV Hb. eapply Hbody; [|done..].
  by eapply Hsub.
Qed.

Lemma for_each_bp_inv (P : fill_state -> Prop) (D : Ddict)
    (body : fill_state -> Z * Z -> result fill_state) (st st' : fill_state) :
  (forall bp st1 st2, in_D D bp -> P st1 -> body st1 bp = Ok st2 -> P st2) ->
  P st -> for_each_bp D body st = Ok st' -> P st'.
Proof.
  intros Hbody Hst H.
  destruct (for_each_bp_prefix_inv (fun _ => P) D body st st') as (V & HV & _);
    eauto.
Qed.

End Fill.

Section FillFacts.
Context `{X : Externals}.

Lemma call_e_inv seq temp emap (S : Sdict) n_branches st bp st' :
  call_e seq temp emap S n_branches st bp = Ok st' ->
  exists s0 e_,
    cell (fs_cache st) bp.1 bp.2 = Ok s0
    /\ struct_eqb s0 STRUCT_DEFAULT = true
    /\ set_cell (fs_cache st) bp.1 bp.2 e_ = Ok (fs_cache st')
    /\ fs_e st' = Some e_
    /\ fs_min_struct st' = fs_min_struct st
    /\ fs_min_ene st' = fs_min_ene st
    /\ ((bp.2 - bp.1 = 4 /\ e_ = hairpin_struct seq bp.1 bp.2 temp emap)
        \/ (bp.2 - bp.1 <> 4 /\ e e_ <> NegInf)).
Proof.
  unfold call_e. intros H. inv_bind H as cr He. destruct cr as [c ret].
  destruct ret as [|e_ nb]; [done|]. injection H as <-. simpl.
  apply e_inv in He as (s0 & Hc & He). exists s0, e_.
  destruct He as [(_ & _ & [=]) | (Hs0 & io & ii & Ho & Hi & He)].
  destruct He as [(_ & _ & [=]) | [(_ & Hspan & Hset & [= -> _])
                | (_ & Hspan & bps & e2 & HS & He2 & Hset & [= -> _])]].
  - split_and!; auto.
  - split_and!; auto. right. split; [done|].
    match goal with |- e (_min_struct ?l) <> _ =>
      destruct (min_struct_cases l) as [[-> | [_ Hfin]] _]; [done|] end.
    intros Heq. by rewrite Heq in Hfin.
Qed.

Lemma update_min_inv st bp st' :
  update_min st bp = Ok st' ->
  exists e_,
    fs_e st = Some e_
    /\ fs_cache st' = fs_cache st /\ fs_e st' = fs_e st
    /\ ((Float.lt (e e_) (fs_min_ene st) = true
         /\ fs_min_struct st' = Some bp /\ fs_min_ene st' = e e_)
        \/ (Float.lt (e e_) (fs_min_ene st) = false
            /\ fs_min_struct st' = fs_min_struct st
            /\ fs_min_ene st' = fs_min_ene st)).
Proof.
  unfold update_min. destruct (fs_e st) as [e_|] eqn:He; [|done].
  intros H. exists e_.
  destruct (Float.lt _ _) eqn:E; injection H as <-; simpl;
    split_and!; auto.
Qed.

Lemma stem_write_inv seq temp emap n (c : Cache) bp (c' : Cache) :
  stem_write seq temp emap n c bp = Ok (Some c') ->
  exists s, set_cell c bp.1 bp.2 s = Ok c'.
Proof.
  unfold stem_write. intros H. inv_bind H as nc Hnc. destruct nc; [done|].
  inv_bind H as inner Hin. inv_bind H as c2 Hset. injection H as ->. eauto.
Qed.

Lemma fill_step_writes seq temp emap (S : Sdict) n_branches st bp st' :
  fill_step seq temp emap S n_branches st bp = Ok st' ->
  exists s, set_cell (fs_cache st) bp.1 bp.2 s = Ok (fs_cache st').
Proof.
  unfold fill_step. intros H. inv_bind H as st1 H1.
  apply call_e_inv in H1 as (s0 & e_ & _ & _ & Hset & _).
  rewrite (update_min_cache _ _ _ H). eauto.
Qed.

Lemma stem_step_writes seq temp emap (S : Sdict) n_branches n l_fix st bp st' :
  stem_step seq temp emap S n_branches n l_fix st bp = Ok st' ->
  fs_cache st' = fs_cache st
  \/ exists s, set_cell (fs_cache st) bp.1 bp.2 s = Ok (fs_cache st').
Proof.
  unfold stem_step. intros H. destruct (bool_decide _).
  - inv_bind H as w Hw. destruct w as [c1|]; [|left; by injection H as <-].
    rewrite (update_min_cache _ _ _ H). simpl. right.
    by eapply stem_write_inv.
  - right. by eapply fill_step_writes.
Qed.

Lemma filled_within_step (n : nat) (D : Ddict) (c c' : Cache) (bp : Z * Z) :
  in_D D bp -> filled_within n D c ->
  c' = c \/ (exists s, set_cell c bp.1 bp.2 s = Ok c') ->
  filled_within n D c'.
Proof.
  intros Hbp [Hsq Hfill] [-> | [s Hset]]; [done|].
  destruct (set_cell_at_pos n c _ _ _ _ Hsq Hset)
    as (r & k & Hr & Hk & Hsq' & Hat).
  split; [done|]. intros r' k' s' Hs' Hne. rewrite Hat in Hs'.
  case_bool_decide as E.
  - injection E as -> ->. eauto.
  - eauto.
Qed.

Lemma cache_filled_within (seq : string) (temp : Q) (S : Sdict) (D : Ddict)
    (l_fix n_branches : Z) (mode : string) (c : Cache)
    (ms : option (Z * Z)) (me : energy) :
  _cache seq temp S D l_fix n_branches mode = Ok (c, ms, me) ->
  filled_within (String.length seq) D c.
Proof.
  unfold _cache. intros H. inv_bind H as emap Hemap.
  inv_bind H as st1 H1. inv_bind H as st2 H2. injection H as <- _ _.
  assert (Hn : Z.to_nat (len (upper seq)) = String.length seq).
  { rewrite len_upper. unfold len. lia. }
  assert (H0 : filled_within (String.length seq) D
                 (new_cache (len (upper seq)))).
  { split; [rewrite <- Hn; apply new_cache_square|].
    intros r k s Hs Hne. by apply at_pos_new_cache in Hs. }
  assert (filled_within (String.length seq) D (fs_cache st1)) as Hc1.
  { destruct (l_fix =? 0); [|by injection H1 as <-].
    revert H1.
    apply (for_each_bp_inv
             (fun st => filled_within (String.length seq) D (fs_cache st)));
      [|done].
    intros bp sta stb Hbp Hsta Hstep.
    eapply filled_within_step; [done..|]. right.
    by eapply fill_step_writes. }
  destruct (0 <? l_fix); [|by injection H2 as <-].
  revert H2.
  apply (for_each_bp_inv
           (fun st => filled_within (String.length seq) D (fs_cache st)));
    [|done].
  intros bp sta stb Hbp Hsta Hstep.
  eapply filled_within_step; [done..|].
  by eapply stem_step_writes.
Qed.

(** X8.  The cache that [_cache] returns is square: one row for each
    position of the sequence, each row of that length. *)
Theorem fill_keeps_cache_square (seq : string) (temp : Q) (S : Sdict)
    (D : Ddict) (l_fix n_branches : Z) (mode : string) (c : Cache)
    (ms : option (Z * Z)) (me : energy) :
  _cache seq temp S D l_fix n_branches mode = Ok (c, ms, me) ->
  length c = String.length seq
  /\ Forall (fun row => length row = String.length seq) c.
Proof. intros H. by apply cache_filled_within in H as [H _]. Qed.

(** X9.  The fill writes only into cells of candidate pairs: a position of
    the returned cache that does not hold [STRUCT_DEFAULT] is the position
    that some pair listed in [D] names (negative subscripts counting from
    the end). *)
Theorem fill_writes_candidate_cells_only (seq : string) (temp : Q)
    (S : Sdict) (D : Ddict) (l_fix n_branches : Z) (mode : string)
    (c : Cache) (ms : option (Z * Z)) (me : energy) :
  _cache seq temp S D l_fix n_branches mode = Ok (c, ms, me) ->
  forall r k s,
    at_pos c r k = Some s -> s <> STRUCT_DEFAULT ->
    exists bp, in_D D bp /\ py_norm (String.length seq) bp.1 = Some r
               /\ py_norm (String.length seq) bp.2 = Some k.
Proof. intros H. by apply cache_filled_within in H as [_ H]. Qed.

End FillFacts.

Lemma in_D_Forall (P : Z * Z -> Prop) (D : Ddict) :
  Forall (fun entry : Z * list (Z * Z) => Forall P entry.2) D ->
  forall bp, in_D D bp -> P bp.
Proof.
  intros H bp (d & l & Hin & Hbp).
  apply (proj1 (Forall_forall _ _) H) in Hin. simpl in Hin.
  by apply (proj1 (Forall_forall _ _) Hin).
Qed.

Lemma helix_nonneg :
  forall bp, in_D (Toy.D_of Toy.helix) bp -> 0 <= bp.1 /\ 0 <= bp.2.
Proof.
  apply in_D_Forall. vm_compute.
  repeat (constructor; [repeat constructor; discriminate|]). constructor.
Qed.

(** The fill of GGGGAAAACCCC without a stem. *)
Lemma fill_keeps_cache_square_witness :
  length Toy.helix_free_fill.1.1 = String.length "GGGGAAAACCCC"
  /\ Forall (fun row => length row = String.length "GGGGAAAACCCC")
       Toy.helix_free_fill.1.1.
Proof.
  apply (fill_keeps_cache_square (X:=Toy.with_pairs Toy.helix) "GGGGAAAACCCC"
           37 (Toy.Sij_of Toy.helix) (Toy.D_of Toy.helix) 0 4 "dna"
           Toy.helix_free_fill.1.1 Toy.helix_free_fill.1.2
           Toy.helix_free_fill.2).
  vm_compute. reflexivity.
Defined.

(** The cell (3, 8) of that fill holds the hairpin of the pair (3, 8). *)
Lemma fill_writes_candidate_cells_only_witness :
  exists bp,
    in_D (Toy.D_of Toy.helix) bp
    /\ py_norm (String.length "GGGGAAAACCCC") bp.1 = Some 3%nat
    /\ py_norm (String.length "GGGGAAAACCCC") bp.2 = Some 8%nat.
Proof.
  apply (fill_writes_candidate_cells_only (X:=Toy.with_pairs Toy.helix)
           "GGGGAAAACCCC" 37 (Toy.Sij_of Toy.helix) (Toy.D_of Toy.helix) 0 4
           "dna" Toy.helix_free_fill.1.1 Toy.helix_free_fill.1.2
           Toy.helix_free_fill.2 ltac:(vm_compute; reflexivity) 3%nat 8%nat
           (mkStruct (Fin (13 # 4)) "HAIRPIN:GA/CA" [])).
  - vm_compute. reflexivity.
  - discriminate.
Defined.


(** ** The fill has no loop that could run for ever *)

Lemma bind_no_timeout {A B : Type} (m : result A) (f : A -> result B) :
  m <> Timeout -> (forall a, f a <> Timeout) -> m ≫= f <> Timeout.
Proof. intros Hm Hf. destruct m; simpl; auto. Qed.

Lemma setitem_no_timeout {A : Type} (l : list A) (i : Z) (x : A) :
  setitem l i x <> Timeout.
Proof. unfold setitem. by destruct (py_norm _ _). Qed.

Lemma dict_get_no_timeout `{Countable K} {V : Type} (d : gmap K V) (k : K) :
  dict_get d k <> Timeout.
Proof. unfold dict_get. by destruct (d !! k). Qed.

Section NoTimeout.
Context `{X : Externals}.

Lemma not_complementary_no_timeout emap seq a b :
  not_complementary emap seq a b <> Timeout.
Proof.
  unfold not_complementary.
  repeat (apply bind_no_timeout;
          [first [apply getitem_no_timeout | apply dict_get_no_timeout]
          |intros ?]).
  done.
Qed.

Lemma e2_step_no_timeout seq i j temp (e_cache : Cache) emap n e2 bp :
  e2_step seq i j temp e_cache emap n e2 bp <> Timeout.
Proof.
  unfold e2_step. apply bind_no_timeout;
    [apply not_complementary_no_timeout|intros nc].
  destruct nc; [done|]. destruct (loop_candidate _ _ _ _ _ _ _ _) as [[? ?]|];
    [|done].
  apply bind_no_timeout; [apply cell_no_timeout|intros inner].
  by destruct (_ && _).
Qed.

Lemma e_no_timeout seq i j temp (e_cache : Cache) emap (S : Sdict)
    non_branches n_branches :
  _e seq i j temp e_cache emap S non_branches n_branches <> Timeout.
Proof.
  unfold _e. apply bind_no_timeout; [apply cell_no_timeout|intros cached].
  destruct (negb _).
  { apply bind_no_timeout; [apply cell_no_timeout|done]. }
  apply bind_no_timeout.
  { unfold isolated_outer_check. destruct (_ && _); [|done].
    apply not_complementary_no_timeout. }
  intros io. apply bind_no_timeout; [apply not_complementary_no_timeout|].
  intros ii. destruct (io && ii).
  { apply bind_no_timeout; [apply set_cell_no_timeout|intros c1].
    apply bind_no_timeout; [apply cell_no_timeout|done]. }
  destruct (j - i =? 4).
  { apply bind_no_timeout; [apply set_cell_no_timeout|intros c1].
    apply bind_no_timeout; [apply cell_no_timeout|done]. }
  apply bind_no_timeout; [apply dict_get_no_timeout|intros bps].
  apply bind_no_timeout.
  { apply foldM_no_timeout. intros a b. apply e2_step_no_timeout. }
  intros e2. apply bind_no_timeout; [apply set_cell_no_timeout|done].
Qed.

Lemma update_min_no_timeout st bp : update_min st bp <> Timeout.
Proof. unfold update_min. destruct (fs_e st); [|done]. by destruct (Float.lt _ _). Qed.

Lemma fill_step_no_timeout seq temp emap (S : Sdict) n_branches st bp :
  fill_step seq temp emap S n_branches st bp <> Timeout.
Proof.
  unfold fill_step, call_e.
  apply bind_no_timeout; [|intros ?; apply update_min_no_timeout].
  apply bind_no_timeout; [apply e_no_timeout|].
  intros [c [?|? ?]]; done.
Qed.

Lemma stem_step_no_timeout seq temp emap (S : Sdict) n_branches n l_fix st bp :
  stem_step seq temp emap S n_branches n l_fix st bp <> Timeout.
Proof.
  unfold stem_step. destruct (bool_decide _);
    [|apply fill_step_no_timeout].
  apply bind_no_timeout.
  - unfold stem_write. apply bind_no_timeout;
      [apply not_complementary_no_timeout|intros nc].
    destruct nc; [done|].
    apply bind_no_timeout; [apply cell_no_timeout|intros inner].
    apply bind_no_timeout; [apply set_cell_no_timeout|done].
  - intros [c1|]; [apply update_min_no_timeout|done].
Qed.

Lemma for_each_bp_no_timeout (D : Ddict) body st :
  (forall st bp, body st bp <> Timeout) -> for_each_bp D body st <> Timeout.
Proof.
  intros Hb. unfold for_each_bp. apply foldM_no_timeout.
  intros a entry. by apply foldM_no_timeout.
Qed.

Lemma cache_no_timeout (seq : string) (temp : Q) (S : Sdict) (D : Ddict)
    (l_fix n_branches : Z) (mode : string) :
  _cache seq temp S D l_fix n_branches mode <> Timeout.
Proof.
  unfold _cache. apply bind_no_timeout.
  { unfold emap_of_mode.
    by destruct (String.eqb mode "dna"), (String.eqb mode "rna"). }
  intros emap. apply bind_no_timeout.
  { destruct (l_fix =? 0); [|done].
    apply for_each_bp_no_timeout. intros. apply fill_step_no_timeout. }
  intros st1. apply bind_no_timeout; [|done].
  destruct (0 <? l_fix); [|done].
  apply for_each_bp_no_timeout. intros. apply stem_step_no_timeout.
Qed.

End NoTimeout.

Section Root.
Context `{X : Externals}.

Lemma struct_eqb_default (s : Struct) :
  struct_eqb s STRUCT_DEFAULT = true -> e s = NegInf.
Proof.
  unfold struct_eqb. intros [H _]%andb_true_iff. by destruct (e s).
Qed.

Lemma cell_set_cell_ne (c : Cache) (i j : Z) (s : Struct) (c' : Cache)
    (a b : Z) :
  0 <= i -> 0 <= j -> 0 <= a -> 0 <= b -> (a, b) <> (i, j) ->
  set_cell c i j s = Ok c' -> cell c' a b = cell c a b.
Proof.
  intros Hi Hj Ha Hb Hne Hset.
  assert (Hat : at_pos c' (Z.to_nat a) (Z.to_nat b)
                = at_pos c (Z.to_nat a) (Z.to_nat b)).
  { eapply at_pos_set_cell_ne; [exact Hi|exact Hj|exact Hset|].
    intros [= H1 H2]. apply Hne. f_equal; lia. }
  destruct (cell c a b) as [s1| |] eqn:E1.
  - apply cell_at_pos; [done..|]. rewrite Hat. by apply cell_at_pos.
  - destruct (cell c' a b) as [s2| |] eqn:E2.
    + apply cell_at_pos in E2; [|done..]. rewrite Hat in E2.
      apply cell_at_pos in E2; [|done..]. congruence.
    + f_equal. unfold cell, getitem in E1, E2 |- *.
      repeat (match goal with
              | H : context [match ?t with _ => _ end] |- _ =>
                  destruct t eqn:?; simpl in H; try discriminate H
              end); congruence.
    + by destruct (cell_no_timeout _ _ _ E2).
  - by destruct (cell_no_timeout _ _ _ E1).
Qed.

Lemma root_inv_step seq temp emap (S : Sdict) n_branches V st bp st' :
  0 <= bp.1 -> 0 <= bp.2 ->
  root_inv seq temp emap V st ->
  fill_step seq temp emap S n_branches st bp = Ok st' ->
  root_inv seq temp emap (V ++ [bp]) st'.
Proof.
  intros Hb1 Hb2 [HV Hms] H. unfold fill_step in H. inv_bind H as st1 H1.
  apply call_e_inv in H1
    as (s0 & e_ & Hc0 & Hdef & Hset & He1 & Hms1 & Hme1 & Hpath).
  apply update_min_inv in H as (e' & He' & Hc' & _ & Hupd).
  assert (e' = e_) as -> by congruence.
  rewrite Hme1 in Hupd. rewrite Hms1 in Hupd. rewrite <- Hc' in Hset.
  pose proof (cell_set_cell _ _ _ _ _ Hset) as Hnew.
  assert (HA : Float.lt (e e_) (fs_min_ene st') = false).
  { destruct Hupd as [(_ & _ & ->) | (Hlt & _ & ->)];
      [apply lt_irrefl|done]. }
  assert (HB : forall x, Float.lt x (fs_min_ene st) = false ->
                 Float.lt x (fs_min_ene st') = false).
  { intros x Hx. destruct Hupd as [(Hlt & _ & ->) | (_ & _ & ->)]; [|done].
    destruct (Float.lt x (e e_)) eqn:E; [|done].
    by rewrite (lt_trans _ _ _ E Hlt) in Hx. }
  assert (Hclause : struct_eqb e_ STRUCT_DEFAULT = true ->
            bp.2 - bp.1 = 4 /\ e_ = hairpin_struct seq bp.1 bp.2 temp emap).
  { intros He. destruct Hpath as [? | [_ Hne]]; [done|].
    by apply struct_eqb_default in He. }
  assert (Hother : forall a : Z * Z, 0 <= a.1 -> 0 <= a.2 -> a <> bp ->
            cell (fs_cache st') a.1 a.2 = cell (fs_cache st) a.1 a.2).
  { intros [a1 a2] Ha1 Ha2 Hne. destruct bp as [i j].
    eapply cell_set_cell_ne; [exact Hb1|exact Hb2|done..|exact Hset]. }
  split.
  - intros bp' Hin. destruct (decide (bp' = bp)) as [->|Hne].
    { split_and!; [done..|]. exists e_. auto. }
    apply elem_of_app in Hin as [Hin | Hin];
      [|by apply list_elem_of_singleton in Hin].
    destruct (HV bp' Hin) as (H1 & H2 & s & Hs & Hlt & Hcl).
    split_and!; [done..|]. exists s. rewrite Hother by done. auto.
  - destruct Hupd as [(_ & -> & ->) | (_ & -> & ->)].
    + split; [apply elem_of_app; right; by apply list_elem_of_singleton|].
      eauto.
    + destruct (fs_min_struct st) as [m|]; [|done].
      destruct Hms as (Hm & s & Hs & Hes).
      split; [apply elem_of_app; auto|].
      destruct (decide (m = bp)) as [->|Hne].
      * destruct (HV bp Hm) as (_ & _ & s' & Hs' & _ & Hcl).
        assert (s' = s0) as -> by congruence.
        assert (s = s0) as -> by congruence.
        destruct (Hcl Hdef) as [Hspan Hs0].
        destruct Hpath as [[_ ->] | [Hne _]]; [|done].
        exists s0. split; [|done]. by rewrite Hnew, Hs0.
      * destruct (HV m Hm) as (H1 & H2 & _).
        exists s. by rewrite Hother.
Qed.

Lemma cache_root_minimum (seq : string) (temp : Q) (S : Sdict)
    (D : Ddict) (n_branches : Z) (mode : string) (c : Cache)
    (ms : option (Z * Z)) (me : energy) :
  _cache seq temp S D 0 n_branches mode = Ok (c, ms, me) ->
  (forall bp, in_D D bp -> 0 <= bp.1 /\ 0 <= bp.2) ->
  (forall bp, in_D D bp ->
     exists s, cell c bp.1 bp.2 = Ok s /\ Float.lt (e s) me = false)
  /\ match ms with
     | Some m => in_D D m /\ exists s, cell c m.1 m.2 = Ok s /\ e s = me
     | None => me = PosInf
     end.
Proof.
  unfold _cache. intros H Hnn. inv_bind H as emap Hemap.
  inv_bind H as st1 H1. inv_bind H as st2 H2. simpl in H1, H2.
  injection H2 as <-. injection H as <- <- <-.
  apply (for_each_bp_prefix_inv
           (root_inv (upper seq) (temp + (27315 # 100))%Q emap)) in H1
    as (V & [HV Hms] & HD).
  - split.
    + intros bp Hbp. apply HD, HV in Hbp as (_ & _ & s & Hs & Hlt & _). eauto.
    + destruct (fs_min_struct st1) as [m|]; [|done].
      destruct Hms as [Hm Hs]. split; [by apply HD|done].
  - intros V bp sta stb Hbp Hinv Hstep.
    destruct (Hnn bp Hbp). by eapply root_inv_step.
  - split; [|done]. intros bp Hbp. by apply elem_of_nil in Hbp.
Qed.

(** X10.  Without a stem, and with candidate pairs whose subscripts are not
    negative, the root that [_cache] returns is a minimum: [min_struct] is a
    pair of [D], [min_ene] is the energy its cell holds, and no pair of [D]
    has a cell of energy below [min_ene].  When [min_struct] is left at
    [None], [min_ene] is still plus infinity. *)
Theorem fill_root_is_minimum (seq : string) (temp : Q) (S : Sdict)
    (D : Ddict) (n_branches : Z) (mode : string) (c : Cache)
    (ms : option (Z * Z)) (me : energy) :
  _cache seq temp S D 0 n_branches mode = Ok (c, ms, me) ->
  (forall bp, in_D D bp -> 0 <= bp.1 /\ 0 <= bp.2) ->
  (forall bp, in_D D bp ->
     exists s, cell c bp.1 bp.2 = Ok s /\ Float.lt (e s) me = false)
  /\ match ms with
     | Some m => in_D D m /\ exists s, cell c m.1 m.2 = Ok s /\ e s = me
     | None => me = PosInf
     end.
Proof. apply cache_root_minimum. Qed.

Lemma stem_inv_step seq temp emap (S : Sdict) n_branches n l_fix D st bp st' :
  in_D D bp ->
  stem_inv n l_fix D st ->
  stem_step seq temp emap S n_branches n l_fix st bp = Ok st' ->
  stem_inv n l_fix D st'.
Proof.
  intros Hbp [He Hm] H. unfold stem_step in H. case_bool_decide as Hfix.
  - inv_bind H as w Hw. destruct w as [c1|]; [|by injection H as <-].
    apply update_min_inv in H as (e_ & He_ & _ & Hfe & Hupd). simpl in *.
    destruct Hupd as [(Hlt & _) | (_ & Hms & Hme)].
    { by rewrite (He e_ He_) in Hlt. }
    split.
    + intros e' He'. rewrite Hme. apply He. congruence.
    + intros m Hm'. apply Hm. congruence.
  - inv_bind H as st1 H1.
    apply call_e_inv in H1 as (s0 & e_ & _ & _ & _ & He1 & Hms1 & Hme1 & _).
    apply update_min_inv in H as (e' & He' & _ & Hfe & Hupd).
    assert (e' = e_) as -> by congruence.
    destruct Hupd as [(Hlt & Hms & Hme) | (Hlt & Hms & Hme)].
    + split.
      * intros e' Hfe'. rewrite Hme.
        assert (e' = e_) as -> by congruence. apply lt_irrefl.
      * intros m Hm'. rewrite Hms in Hm'. by injection Hm' as <-.
    + split.
      * intros e' Hfe'. rewrite Hme.
        assert (e' = e_) as -> by congruence. done.
      * intros m Hm'. apply Hm. congruence.
Qed.

Lemma stem_root (seq : string) (temp : Q) (S : Sdict) (D : Ddict)
    (l_fix n_branches : Z) (mode : string) (c : Cache) (m : Z * Z)
    (me : energy) :
  0 < l_fix ->
  _cache seq temp S D l_fix n_branches mode = Ok (c, Some m, me) ->
  in_D D m /\ m ∉ fixed_bp (len seq) l_fix.
Proof.
  unfold _cache. intros Hl H. inv_bind H as emap Hemap.
  inv_bind H as st1 H1. inv_bind H as st2 H2.
  replace (l_fix =? 0) with false in H1 by lia. injection H1 as <-.
  replace (0 <? l_fix) with true in H2 by lia.
  injection H as _ Hms _.
  apply (for_each_bp_inv (stem_inv (len (upper seq)) l_fix D)) in H2.
  - destruct H2 as [_ H2]. rewrite <- len_upper. by apply H2.
  - intros bp sta stb Hbp Hinv Hstep. by eapply stem_inv_step.
  - split; [done|]. done.
Qed.

(** X11.  With a stem, the root that [_cache] returns is never one of the
    forced pairs: line 191 compares the energy left by the last call of
    [_e], which can no longer be below [min_ene], so a forced pair is never
    chosen. *)
Theorem stem_root_is_not_forced (seq : string) (temp : Q) (S : Sdict)
    (D : Ddict) (l_fix n_branches : Z) (mode : string) (c : Cache)
    (m : Z * Z) (me : energy) :
  0 < l_fix ->
  _cache seq temp S D l_fix n_branches mode = Ok (c, Some m, me) ->
  in_D D m /\ m ∉ fixed_bp (len seq) l_fix.
Proof. apply stem_root. Qed.

(** X12.  Hence a fold with a stem over a candidate index that lists only
    forced pairs returns nothing: [gmfold] raises. *)
Theorem stem_of_forced_pairs_only_raises (fuel : nat) (seq : string)
    (temp : Q) (l_fix n_branches : Z) (mode : string) (S : Sdict)
    (D : Ddict) (bps : list (Z * Z)) :
  0 < l_fix ->
  Aptamer_match mode seq 4 l_fix = Ok (S, D, bps) ->
  (forall bp, in_D D bp -> bp ∈ fixed_bp (len seq) l_fix) ->
  exists x, gmfold fuel seq temp l_fix n_branches mode = Raise x.
Proof.
  intros Hl HA HD. unfold gmfold. rewrite HA. simpl.
  destruct (_cache seq temp S D l_fix n_branches mode)
    as [[[c ms] me]|x|] eqn:Hc; simpl; [|eauto|].
  - assert (ms = None) as ->.
    { destruct ms as [m|]; [|done].
      apply stem_root in Hc as [Hin Hnot]; [|done]. by destruct (Hnot (HD m Hin)). }
    unfold resolve_exterior.
    destruct (cell c 0 (len seq - 1)) as [whole| |] eqn:Hw; simpl; [|eauto|].
    + replace (l_fix =? 0) with false by lia. rewrite andb_false_r. simpl.
      eauto.
    + by destruct (cell_no_timeout _ _ _ Hw).
  - by destruct (cache_no_timeout _ _ _ _ _ _ _ Hc).
Qed.

End Root.

(** The fill of GGGGAAAACCCC without a stem: the root is (0, 11). *)
Lemma fill_root_is_minimum_witness :
  let D := Toy.D_of Toy.helix in
  let c := Toy.helix_free_fill.1.1 in
  let me := Toy.helix_free_fill.2 in
  (forall bp, in_D D bp ->
     exists s, cell c bp.1 bp.2 = Ok s /\ Float.lt (e s) me = false)
  /\ match Toy.helix_free_fill.1.2 with
     | Some m => in_D D m /\ exists s, cell c m.1 m.2 = Ok s /\ e s = me
     | None => me = PosInf
     end.
Proof.
  intros D c me.
  apply (fill_root_is_minimum (X:=Toy.with_pairs Toy.helix) "GGGGAAAACCCC"
           37 (Toy.Sij_of Toy.helix) D 4 "dna" c Toy.helix_free_fill.1.2 me).
  - vm_compute. reflexivity.
  - apply helix_nonneg.
Defined.

(** With a stem of two pairs the root is (1, 10), and (0, 11) is forced. *)
Lemma stem_root_is_not_forced_witness :
  in_D (Toy.D_of Toy.helix) (1, 10)
  /\ (1, 10) ∉ fixed_bp (len "GGGGAAAACCCC") 2.
Proof.
  apply (stem_root_is_not_forced (X:=Toy.with_pairs Toy.helix) "GGGGAAAACCCC"
           37 (Toy.Sij_of Toy.helix) (Toy.D_of Toy.helix) 2 4 "dna"
           Toy.helix_fill.1.1 (1, 10) Toy.helix_fill.2).
  - lia.
  - vm_compute. reflexivity.
Defined.

(** GGGCCC with a stem of three pairs and the two forced pairs as the only
    candidates. *)
Lemma stem_of_forced_pairs_only_raises_witness :
  exists x,
    gmfold (X:=Toy.with_pairs [(0, 5); (1, 4)]) 10 "GGGCCC" 37 3 4 "dna"
    = Raise x.
Proof.
  apply (stem_of_forced_pairs_only_raises (X:=Toy.with_pairs [(0, 5); (1, 4)])
           10 "GGGCCC" 37 3 4 "dna" (Toy.Sij_of [(0, 5); (1, 4)])
           (Toy.D_of [(0, 5); (1, 4)]) [(0, 5); (1, 4)]).
  - lia.
  - reflexivity.
  - apply in_D_Forall. vm_compute.
    repeat (constructor; [repeat constructor|]). constructor.
Defined.

(** ** Keys of the candidate sets *)

Lemma append_cons (c : ascii) (s t : string) :
  String c s +:+ t = String c (s +:+ t).
Proof. reflexivity. Qed.

Lemma append_nil (t : string) : "" +:+ t = t.
Proof. reflexivity. Qed.

Lemma append_sep_inj (c : ascii) (a a' r r' : string) :
  free_of c a -> free_of c a' ->
  a +:+ String c r = a' +:+ String c r' -> a = a' /\ r = r'.
Proof.
  revert a'. induction a as [|x a IH]; intros [|x' a'] Ha Ha' H.
  - rewrite !append_nil in H. by injection H.
  - rewrite append_nil, append_cons in H. injection H as <- _.
    by apply Forall_cons in Ha' as [? _].
  - rewrite append_nil, append_cons in H. injection H as -> _.
    by apply Forall_cons in Ha as [? _].
  - rewrite !append_cons in H. injection H as <- H.
    apply Forall_cons in Ha as [_ Ha]. apply Forall_cons in Ha' as [_ Ha'].
    destruct (IH a' Ha Ha' H) as [-> ->]. done.
Qed.

Lemma pretty_N_char_digit (x : N) :
  pretty_N_char x <> ","%char /\ pretty_N_char x <> ")"%char.
Proof. unfold pretty_N_char. by repeat case_match. Qed.

Lemma pretty_N_go_free (c : ascii) (x : N) (s : string) :
  (forall d, pretty_N_char d <> c) ->
  free_of c s -> free_of c (pretty_N_go x s).
Proof.
  intros Hc. revert s. induction (N.lt_wf_0 x) as [x _ IH]; intros s Hs.
  assert (x = 0 \/ 0 < x)%N as [->|?] by lia.
  - by rewrite pretty_N_go_0.
  - rewrite pretty_N_go_step by done. apply IH.
    { by apply N.div_lt. }
    constructor; [apply Hc|done].
Qed.

Lemma pretty_Z_free (c : ascii) (x : Z) :
  (forall d, pretty_N_char d <> c) -> c <> "0"%char -> c <> "-"%char ->
  free_of c (pretty x).
Proof.
  intros Hc H0 Hd. unfold pretty, pretty_Z.
  assert (forall p : positive, free_of c (pretty p)) as Hp.
  { intros p. unfold pretty, pretty_positive, pretty, pretty_N.
    case_decide; [done|]. apply pretty_N_go_free; [done|constructor]. }
  destruct x as [|p|p].
  - constructor; [congruence|constructor].
  - apply Hp.
  - rewrite append_cons, append_nil. constructor; [congruence|apply Hp].
Qed.

(** X16.  The key ['({}, {})'.format(i, j)] under which [S] is consulted
    determines the pair: two pairs have the same key only if they are the
    same pair. *)
Theorem S_key_inj (i j i' j' : Z) :
  S_key i j = S_key i' j' <-> i = i' /\ j = j'.
Proof.
  split; [|by intros [-> ->]].
  unfold S_key. rewrite !append_cons, !append_nil. intros [= H].
  apply append_sep_inj in H as [Hi H];
    [|apply pretty_Z_free; [intros d; apply pretty_N_char_digit|done..]..].
  injection H as H.
  apply append_sep_inj in H as [Hj _];
    [|apply pretty_Z_free; [intros d; apply pretty_N_char_digit|done..]..].
  split; by apply (inj pretty).
Qed.

(** ** [_min_struct]: ties *)

Lemma min_struct_app (l1 l2 : list Struct) :
  _min_struct (l1 ++ l2)
  = fold_left
      (fun s struct =>
         if Float.ne (e struct) NegInf && Float.lt (e struct) (e s)
         then struct else s)
      l2 (_min_struct l1).
Proof. unfold _min_struct. by rewrite fold_left_app. Qed.

(** X17.  Ties go to the first: [_min_struct] returns the first of its
    arguments that has the least finite energy, since a later struct
    replaces the current one only if it is strictly below it.  In [_e] the
    hairpin therefore wins a tie against a loop, and a loop against a
    multi-branch. *)
Theorem min_struct_first_minimum (l1 l2 : list Struct) (x : Struct) :
  Float.is_fin (e x) = true ->
  (forall y, y ∈ l1 -> Float.is_fin (e y) = true ->
     Float.lt (e x) (e y) = true) ->
  (forall y, y ∈ l2 -> e y = NegInf \/ Float.lt (e y) (e x) = false) ->
  _min_struct (l1 ++ x :: l2) = x.
Proof.
  intros Hx H1 H2. rewrite min_struct_app. cbn [fold_left].
  assert (Hpick : Float.ne (e x) NegInf
                  && Float.lt (e x) (e (_min_struct l1)) = true).
  { apply andb_true_iff. split; [by destruct (e x)|].
    destruct (min_struct_cases l1) as [[-> | [Hin Hfin]] _].
    - by destruct (e x).
    - by apply H1. }
  rewrite Hpick. clear Hpick H1.
  induction l2 as [|y l2 IH]; [done|]. cbn [fold_left].
  assert (Float.ne (e y) NegInf && Float.lt (e y) (e x) = false) as ->.
  { destruct (H2 y) as [-> | ->]; [apply elem_of_cons; auto|done|].
    apply andb_false_r. }
  apply IH. intros z Hz. apply H2, elem_of_cons; auto.
Qed.

(** A hairpin and a stack of the same energy: the hairpin, which comes
    first, is returned. *)
Lemma min_struct_first_minimum_witness :
  _min_struct
    ([Struct1 (Fin 2)]
     ++ mkStruct (Fin 1) "HAIRPIN:GA/CA" []
        :: [mkStruct (Fin 1) "STACK:GG/CC" [(3, 8)]; Struct1 NegInf])
  = mkStruct (Fin 1) "HAIRPIN:GA/CA" [].
Proof.
  apply (min_struct_first_minimum [Struct1 (Fin 2)]
           [mkStruct (Fin 1) "STACK:GG/CC" [(3, 8)]; Struct1 NegInf]
           (mkStruct (Fin 1) "HAIRPIN:GA/CA" [])).
  - reflexivity.
  - intros y Hy _. apply list_elem_of_singleton in Hy. subst y. reflexivity.
  - intros y Hy. rewrite !elem_of_cons, elem_of_nil in Hy.
    destruct Hy as [-> | [-> | []]]; [right|left]; reflexivity.
Defined.

(** ** The traceback on a cache with a cycle *)

(** X7.  The loop of the traceback has no guard against a cycle: from a
    pair that belongs to a set of cells each linking to one cell of the set
    (a cell whose only child is itself, say), no number of iterations makes
    [gm_traceback] return. *)
Theorem traceback_cycle_never_returns (c : Cache) (P : Z * Z -> Prop) :
  (forall p, P p ->
     exists s q, cell c p.1 p.2 = Ok s /\ ij s = [q] /\ P q) ->
  forall fuel i j, P (i, j) -> gm_traceback fuel i j c 0 = Timeout.
Proof.
  intros Hcyc fuel i j Hp. unfold gm_traceback. simpl.
  generalize (@nil Struct). revert i j Hp.
  induction fuel as [|fuel IH]; intros i j Hp acc; [done|].
  destruct (Hcyc _ Hp) as (s & [i1 j1] & Hc & Hij & Hq). simpl in Hc.
  rewrite (loop_link _ _ _ _ _ _ _ _ Hc Hij). by apply IH.
Qed.

(** A cell that links to itself. *)
Lemma traceback_cycle_never_returns_witness :
  gm_traceback 50 0 1 Toy.self_linked 0 = Timeout.
Proof.
  apply (traceback_cycle_never_returns Toy.self_linked
           (fun p => p = (0, 1))); [|reflexivity].
  intros p ->. eexists; exists (0, 1). split_and!; reflexivity.
Defined.

(** ** [_e]: what is stored, and the second call *)

Section EFacts.
Context `{X : Externals}.

Lemma e_stores (seq : string) (i j : Z) (temp : Q) (c : Cache)
    (emap : Energies) (S : Sdict) (non_branches : gset (Z * Z))
    (n_branches : Z) (c' : Cache) (ret : e_ret) :
  _e seq i j temp c emap S non_branches n_branches = Ok (c', ret) ->
  exists s0,
    cell c i j = Ok s0
    /\ cell c' i j = Ok (returned ret)
    /\ ((c' = c /\ returned ret = s0)
        \/ set_cell c i j (returned ret) = Ok c')
    /\ ((j - i = 4 -> _hairpin seq i j temp emap <> NegInf) ->
        struct_eqb (returned ret) STRUCT_DEFAULT = false).
Proof.
  intros H. apply e_inv in H as (s0 & Hc & H). exists s0. split; [done|].
  assert (Hne : forall s : Struct, e s <> NegInf ->
                  struct_eqb s STRUCT_DEFAULT = false).
  { intros s Hs. unfold struct_eqb. by destruct (e s). }
  destruct H as [(Hs0 & -> & ->) | (_ & io & ii & Ho & Hi & H)];
    [split_and!; auto|].
  destruct H as [(_ & Hset & ->) | [(_ & Hspan & Hset & ->)
                | (_ & Hspan & bps & e2 & HS & He2 & Hset & ->)]]; simpl.
  - split_and!; [by eapply cell_set_cell|auto|done].
  - split_and!; [by eapply cell_set_cell|auto|].
    intros Hh. apply Hne. simpl. auto.
  - split_and!; [by eapply cell_set_cell|auto|].
    intros _. apply Hne.
    match goal with |- e (_min_struct ?l) <> _ =>
      destruct (min_struct_cases l) as [[-> | [_ Hfin]] _]; [done|] end.
    intros Heq. by rewrite Heq in Hfin.
Qed.


(** X14.  A cell is resolved once.  After a call of [_e] on a pair (for a
    pair of span four, provided its hairpin energy is not minus infinity),
    every later call on the same pair returns the stored struct, bare,
    whatever the other arguments are, and leaves the cache alone; a turn of
    the fill loop on that pair then raises a [TypeError]. *)
Theorem e_second_call_is_bare (seq : string) (i j : Z) (temp : Q)
    (c : Cache) (emap : Energies) (S : Sdict) (non_branches : gset (Z * Z))
    (n_branches : Z) (c' : Cache) (ret : e_ret) :
  _e seq i j temp c emap S non_branches n_branches = Ok (c', ret) ->
  (j - i = 4 -> _hairpin seq i j temp emap <> NegInf) ->
  (forall seq' temp' emap' (S' : Sdict) nb' n',
     _e seq' i j temp' c' emap' S' nb' n' = Ok (c', RetStruct (returned ret)))
  /\ forall seq' temp' emap' (S' : Sdict) n' st,
       fs_cache st = c' ->
       fill_step seq' temp' emap' S' n' st (i, j)
       = Raise (TypeError "cannot unpack non-iterable Struct object").
Proof.
  intros H Hh. apply e_stores in H as (s0 & _ & Hc' & _ & Hne).
  specialize (Hne Hh).
  assert (Hmemo : forall seq' temp' emap' (S' : Sdict) nb' n',
            _e seq' i j temp' c' emap' S' nb' n'
            = Ok (c', RetStruct (returned ret))).
  { intros. by apply e_memo_path. }
  split; [done|].
  intros seq' temp' emap' S' n' st <-. unfold fill_step, call_e. simpl.
  by rewrite Hmemo.
Qed.

(** X15.  A pair that is not isolated, of span other than four, whose key
    ['(i, j)'] has no entry in [S], makes [_e] raise a [KeyError] (line
    252). *)
Theorem e_missing_key_raises (seq : string) (i j : Z) (temp : Q) (c : Cache)
    (emap : Energies) (S : Sdict) (non_branches : gset (Z * Z))
    (n_branches : Z) (s0 : Struct) (io ii : bool) :
  cell c i j = Ok s0 ->
  struct_eqb s0 STRUCT_DEFAULT = true ->
  isolated_outer_check emap seq i j = Ok io ->
  not_complementary emap seq (i + 1) (j - 1) = Ok ii ->
  io && ii = false ->
  j - i <> 4 ->
  S !! S_key i j = None ->
  _e seq i j temp c emap S non_branches n_branches = Raise KeyError.
Proof.
  intros Hc Hs Ho Hi Hiso Hspan HS. unfold _e.
  rewrite (bind_Ok_l _ _ _ Hc), Hs. simpl.
  rewrite (bind_Ok_l _ _ _ Ho), (bind_Ok_l _ _ _ Hi), Hiso.
  destruct (j - i =? 4) eqn:E; [lia|].
  unfold dict_get. by rewrite HS.
Qed.

End EFacts.


Lemma e_second_call_is_bare_witness :
  let X := Toy.with_pairs Toy.helix in
  let c' := Toy.helix_inner in
  let s := hairpin_struct "GGGGAAAACCCC" 3 8 (31015 # 100) Toy.dna in
  (forall seq' temp' emap' (S' : Sdict) nb' n',
     _e seq' 3 8 temp' c' emap' S' nb' n' = Ok (c', RetStruct s))
  /\ forall seq' temp' emap' (S' : Sdict) n' st,
       fs_cache st = c' ->
       fill_step seq' temp' emap' S' n' st (3, 8)
       = Raise (TypeError "cannot unpack non-iterable Struct object").
Proof.
  intros X c' s.
  apply (e_second_call_is_bare (X:=X) "GGGGAAAACCCC" 3 8 (31015 # 100)
           (new_cache 12) Toy.dna (Toy.Sij_of Toy.helix) ∅ 4 c'
           (RetPair s {[ (3, 8) ]})).
  - vm_compute. reflexivity.
  - lia.
Defined.

(** The same pair with no candidate set at all. *)
Lemma e_missing_key_raises_witness :
  _e (X:=Toy.with_pairs Toy.helix) "GGGGAAAACCCC" 3 8 (31015 # 100)
    (new_cache 12) Toy.dna ∅ ∅ 4
  = Raise KeyError.
Proof.
  apply (e_missing_key_raises (X:=Toy.with_pairs Toy.helix) "GGGGAAAACCCC"
           3 8 (31015 # 100) (new_cache 12) Toy.dna ∅ ∅ 4 STRUCT_DEFAULT
           false true).
  - reflexivity.
  - reflexivity.
  - vm_compute. reflexivity.
  - vm_compute. reflexivity.
  - reflexivity.
  - lia.
  - reflexivity.
Defined.

(** ** From the fold to the encoders, and the stem *)

Section EndToEnd.
Context `{X : Externals}.

Lemma resolve_exterior_square (m : nat) (n l_fix n_branches : Z)
    (bps : list (Z * Z)) (c : Cache) (ms : option (Z * Z)) (me : energy)
    (c' : Cache) (ms' : option (Z * Z)) :
  resolve_exterior n l_fix n_branches bps c ms me = Ok (c', ms') ->
  square m c -> square m c'.
Proof.
  unfold resolve_exterior. intros H Hsq. inv_bind H as whole Hw.
  destruct (_ && _); [|by injection H as <- _].
  inv_bind H as branches Hb.
  change (square m (c', ms').1). revert H.
  apply (foldM_inv (fun st : Cache * option (Z * Z) => square m st.1));
    [|done].
  intros [c1 ms1] combo [c2 ms2] _ Hsq1 Hstep. simpl in *.
  apply exterior_step_spec in Hstep
    as [[-> _] | (? & ? & _ & _ & _ & Hset & _)]; [done|].
  by destruct (set_cell_at_pos m _ _ _ _ _ Hsq1 Hset) as (? & ? & _ & _ & ? & _).
Qed.

Lemma names_cell_within (n : nat) (c : Cache) (t : Struct) :
  square n c -> names_cell c t ->
  forall i j, ij t = [(i, j)] ->
    is_Some (py_norm n i) /\ is_Some (py_norm n j).
Proof.
  intros [Hlen Hrows] (a & b & s & Hij & Hc & _) i j Hij'.
  rewrite Hij in Hij'. injection Hij' as <- <-.
  apply cell_Ok in Hc as (r & k & row & Hr & Hrow & Hk & _).
  assert (length row = n) as Hrl.
  { eapply (proj1 (Forall_forall _ _) Hrows), list_elem_of_lookup_2, Hrow. }
  rewrite Hlen in Hr. rewrite Hrl in Hk. eauto.
Qed.

Lemma encoded_Forall (P : Struct -> Prop) (L : list Struct) :
  Forall P L -> Forall P (encoded L).
Proof.
  intros H. destruct L as [|first rest]; [done|]. unfold encoded, skip_open_loop.
  destruct (String.eqb _ _); [|done]. by apply Forall_drop.
Qed.

(** Both encoders accept a list of structs whose subscripts are all
    within the sequence. *)
Lemma encoders_accept (seq : string) (L : list Struct) :
  L <> [] ->
  subscripts_within (String.length seq) (encoded L) ->
  (exists str, gm_dot_bracket seq L = Ok str
               /\ String.length str = String.length seq)
  /\ exists M, gm_s_matrix seq L None = Ok M.
Proof.
  intros Hne Hw. destruct L as [|first rest]; [done|].
  set (n := String.length seq) in *.
  destruct (encoders_loop n (encoded (first :: rest)) (replicate n ".")
              (replicate n (replicate n 0)))
    as [[_ (R1 & M1 & HR & HM & _)] | (Hw' & _)];
    [by rewrite length_replicate|apply zeros_square| |done].
  split.
  - exists (String.concat "" R1). rewrite dot_bracket_unfold. fold n.
    rewrite HR. split; [done|].
    apply marked_buffer in HR as (_ & Hlen & Hone & _).
    destruct (concat_chars R1 Hone) as [Hl _]. congruence.
  - exists M1. rewrite s_matrix_unfold by (unfold matrix_size, len; lia).
    assert (Z.to_nat (matrix_size seq None) = n) as ->
      by (unfold matrix_size, len; lia).
    done.
Qed.

(** X18.  Both encoders accept what a fold returns: on the list returned by
    [gmfold], [gm_dot_bracket] returns a string of the length of the
    sequence and [gm_s_matrix] returns a matrix. *)
Theorem fold_result_is_encodable (fuel : nat) (seq : string) (temp : Q)
    (l_fix n_branches : Z) (mode : string) (L : list Struct) :
  gmfold fuel seq temp l_fix n_branches mode = Ok L ->
  (exists str, gm_dot_bracket seq L = Ok str
               /\ String.length str = String.length seq)
  /\ exists M, gm_s_matrix seq L None = Ok M.
Proof.
  unfold gmfold. intros H. inv_bind H as idx HA. destruct idx as [[Sij D] bps].
  inv_bind H as r Hc. destruct r as [[c ms] me].
  inv_bind H as r1 Hr. destruct r1 as [c1 ms1].
  inv_bind H as m Hm.
  apply cache_filled_within in Hc as [Hsq _].
  apply resolve_exterior_square with (m := String.length seq) in Hr; [|done].
  apply traceback_sound in H as (Hne & Hnames & _).
  apply encoders_accept; [done|]. apply encoded_Forall.
  eapply Forall_impl; [exact Hnames|].
  intros t Ht. by eapply names_cell_within.
Qed.

Lemma stem_write_complementary seq temp emap n (c : Cache) bp (c' : Cache) :
  stem_write seq temp emap n c bp = Ok (Some c') ->
  not_complementary emap seq (bp.1 + 1) (bp.2 - 1) = Ok false
  /\ exists s, set_cell c bp.1 bp.2 s = Ok c'.
Proof.
  unfold stem_write. intros H. inv_bind H as nc Hnc. destruct nc; [done|].
  inv_bind H as inner Hin. inv_bind H as c2 Hset. injection H as ->. eauto.
Qed.

Lemma stem_cells_inv_step seq temp emap (S : Sdict) n_branches n l_fix D st bp
    st' :
  l_fix <= n ->
  in_D D bp -> 0 <= bp.1 -> 0 <= bp.2 ->
  stem_cells_inv seq emap n l_fix D (fs_cache st) ->
  stem_step seq temp emap S n_branches n l_fix st bp = Ok st' ->
  stem_cells_inv seq emap n l_fix D (fs_cache st').
Proof.
  intros Hn Hbp Hb1 Hb2 Hinv H.
  assert (Hframe : forall s0, set_cell (fs_cache st) bp.1 bp.2 s0
                              = Ok (fs_cache st') ->
            forall k, 0 <= k < l_fix - 1 -> (k, n - 1 - k) <> bp ->
              cell (fs_cache st') k (n - 1 - k)
              = cell (fs_cache st) k (n - 1 - k)).
  { intros s0 Hset k Hk Hne. destruct bp as [i j].
    eapply cell_set_cell_ne; [exact Hb1|exact Hb2|lia|lia|done|exact Hset]. }
  unfold stem_step in H. case_bool_decide as Hfix.
  - inv_bind H as w Hw. destruct w as [c1|]; [|by injection H as <-].
    rewrite (update_min_cache _ _ _ H). simpl.
    rewrite (update_min_cache _ _ _ H) in Hframe. simpl in Hframe.
    apply stem_write_complementary in Hw as [Hnc [s0 Hset]].
    intros k s Hk Hs Hij.
    destruct (decide ((k, n - 1 - k) = bp)) as [<-|Hne].
    + split; [done|]. simpl in Hnc. rewrite <- Hnc. f_equal. lia.
    + rewrite (Hframe s0 Hset k Hk Hne) in Hs. by eapply Hinv.
  - apply fill_step_writes in H as [s0 Hset].
    intros k s Hk Hs Hij.
    assert ((k, n - 1 - k) <> bp) as Hne.
    { intros <-. apply Hfix. unfold fixed_bp.
      apply list_elem_of_fmap. exists k. split; [done|].
      apply elem_of_seqZ. lia. }
    rewrite (Hframe s0 Hset k Hk Hne) in Hs. by eapply Hinv.
Qed.

Lemma stem_cells_of_cache (seq : string) (temp : Q) (S : Sdict) (D : Ddict)
    (l_fix n_branches : Z) (mode : string) (c : Cache)
    (ms : option (Z * Z)) (me : energy) :
  0 < l_fix <= len seq ->
  (forall bp, in_D D bp -> 0 <= bp.1 /\ 0 <= bp.2) ->
  _cache seq temp S D l_fix n_branches mode = Ok (c, ms, me) ->
  exists emap,
    emap_of_mode mode = Ok emap
    /\ stem_cells_inv (upper seq) emap (len seq) l_fix D c.
Proof.
  unfold _cache. intros Hl Hnn H. inv_bind H as emap Hemap.
  exists emap. split; [done|].
  inv_bind H as st1 H1. inv_bind H as st2 H2.
  replace (l_fix =? 0) with false in H1 by lia. injection H1 as <-.
  replace (0 <? l_fix) with true in H2 by lia.
  injection H as <- _ _. rewrite len_upper in H2. revert H2.
  apply (for_each_bp_inv
           (fun st => stem_cells_inv (upper seq) emap (len seq) l_fix D
                        (fs_cache st))).
  - intros bp sta stb Hbp Hinv Hstep. destruct (Hnn bp Hbp).
    eapply stem_cells_inv_step with (n := len seq);
      [lia|done..|exact Hinv|exact Hstep].
  - intros k s Hk Hs Hij. simpl in Hs.
    apply cell_at_pos in Hs; [|lia..].
    apply at_pos_new_cache in Hs. by subst s.
Qed.

(** X19.  What a fold with a stem of two or more pairs needs in order to
    return.  With candidate pairs whose subscripts are not negative and a
    stem no longer than the sequence, [gmfold] returns a list only if each
    forced pair [(k, n-1-k)], [k < l_fix - 1], is listed in [D] and the
    bases just inside it are complementary. *)
Theorem stem_fold_needs_stacked_stem (fuel : nat) (seq : string) (temp : Q)
    (l_fix n_branches : Z) (mode : string) (S : Sdict) (D : Ddict)
    (bps : list (Z * Z)) (L : list Struct) :
  2 <= l_fix <= len seq ->
  Aptamer_match mode seq 4 l_fix = Ok (S, D, bps) ->
  (forall bp, in_D D bp -> 0 <= bp.1 /\ 0 <= bp.2) ->
  gmfold fuel seq temp l_fix n_branches mode = Ok L ->
  exists emap,
    emap_of_mode mode = Ok emap
    /\ forall k, 0 <= k < l_fix - 1 ->
         in_D D (k, len seq - 1 - k)
         /\ not_complementary emap (upper seq) (k + 1) (len seq - 2 - k)
            = Ok false.
Proof.
  intros Hl HA Hnn H. unfold gmfold in H. rewrite HA in H. simpl in H.
  inv_bind H as r Hc. destruct r as [[c ms] me].
  inv_bind H as r1 Hr. destruct r1 as [c1 ms1]. inv_bind H as m Hm.
  pose proof (cache_length _ _ _ _ _ _ _ _ _ _ Hc) as Hlen.
  assert (Hl' : 0 < l_fix <= len seq) by lia.
  destruct (stem_cells_of_cache _ _ _ _ _ _ _ _ _ _ Hl' Hnn Hc)
    as (emap & Hemap & Hinv).
  exists emap. split; [done|]. intros k Hk.
  unfold resolve_exterior in Hr. inv_bind Hr as whole Hw.
  replace (l_fix =? 0) with false in Hr by lia.
  rewrite andb_false_r in Hr. injection Hr as <- <-.
  unfold gm_traceback in H. replace (1 <? l_fix) with true in H by lia.
  inv_bind H as c' Hrw.
  destruct (stem_rewrites_need_children _ _ _ Hrw (k + 1)) as (s & Hs & Hij).
  { apply elem_of_seqZ. lia. }
  rewrite Hlen in Hs.
  replace (k + 1 - 1) with k in Hs by lia.
  replace (len seq - (k + 1)) with (len seq - 1 - k) in Hs by lia.
  by eapply Hinv.
Qed.

End EndToEnd.

(** The fold of GGGGAAAACCCC. *)
Lemma fold_result_is_encodable_witness :
  (exists str, gm_dot_bracket "GGGGAAAACCCC" Toy.helix_fold = Ok str
               /\ String.length str = String.length "GGGGAAAACCCC")
  /\ exists M, gm_s_matrix "GGGGAAAACCCC" Toy.helix_fold None = Ok M.
Proof.
  apply (fold_result_is_encodable (X:=Toy.with_pairs Toy.helix) 10
           "GGGGAAAACCCC" 37 0 4 "dna" Toy.helix_fold).
  vm_compute. reflexivity.
Defined.

(** The same sequence with a stem of two pairs. *)
Lemma stem_fold_needs_stacked_stem_witness :
  exists emap,
    emap_of_mode (X:=Toy.with_pairs Toy.helix) "dna" = Ok emap
    /\ forall k, 0 <= k < 2 - 1 ->
         in_D (Toy.D_of Toy.helix) (k, len "GGGGAAAACCCC" - 1 - k)
         /\ not_complementary emap (upper "GGGGAAAACCCC") (k + 1)
              (len "GGGGAAAACCCC" - 2 - k)
            = Ok false.
Proof.
  apply (stem_fold_needs_stacked_stem (X:=Toy.with_pairs Toy.helix) 10
           "GGGGAAAACCCC" 37 2 4 "dna" (Toy.Sij_of Toy.helix)
           (Toy.D_of Toy.helix) Toy.helix Toy.helix_fold).
  - vm_compute. split; discriminate.
  - reflexivity.
  - apply helix_nonneg.
  - vm_compute. reflexivity.
Defined.

(** ** The recurrence *)

Lemma lt_le_trans (a b c : energy) :
  Float.lt a b = true -> Float.le b c = true -> Float.lt a c = true.
Proof.
  destruct a as [|x| |], b as [|y| |], c as [|z| |]; try done.
  rewrite !FloatFacts.lt_spec_fin, FloatFacts.le_spec_fin. lra.
Qed.

Section Optimal.
Context `{X : Externals}.

Lemma e2_step_min seq i j temp (c : Cache) emap e0 bp e1 :
  e e0 <> NaN -> e e0 <> NegInf ->
  e2_step seq i j temp c emap (len seq) e0 bp = Ok e1 ->
  e e1 <> NaN /\ e e1 <> NegInf
  /\ Float.le (e e1) (e e0) = true
  /\ forall x, loop_energy seq i j temp c emap bp = Some x ->
       x <> NegInf -> Float.lt x (e e1) = false.
Proof.
  intros Hn Hi H. unfold loop_energy. unfold e2_step in H.
  inv_bind H as nc Hnc. rewrite Hnc.
  destruct nc.
  { injection H as <-. split_and!; auto using FloatFacts.le_refl. done. }
  destruct (loop_candidate _ _ _ _ _ _ _ _) as [[en ty]|] eqn:Hc.
  2: { injection H as <-. split_and!; auto using FloatFacts.le_refl. done. }
  inv_bind H as inner Hin. rewrite Hin.
  destruct (Float.ne _ _ && Float.lt _ _) eqn:E; injection H as <-.
  - apply andb_true_iff in E as [E1 E2]. simpl.
    pose proof (FloatFacts.lt_not_nan _ _ E2) as [Hx _].
    split_and!; [done| |by apply FloatFacts.lt_le|].
    + intros Heq. by rewrite Heq in E1.
    + intros x [= <-] _. apply lt_irrefl.
  - split_and!; auto using FloatFacts.le_refl.
    intros x [= <-] Hx. apply andb_false_iff in E as [E | E]; [|done].
    destruct (Float.add en (e inner)); done.
Qed.

Lemma e2_loop_min seq i j temp (c : Cache) emap bps e0 e2 :
  e e0 <> NaN -> e e0 <> NegInf ->
  foldM (e2_step seq i j temp c emap (len seq)) e0 bps = Ok e2 ->
  e e2 <> NaN /\ e e2 <> NegInf
  /\ Float.le (e e2) (e e0) = true
  /\ forall bp x, bp ∈ bps ->
       loop_energy seq i j temp c emap bp = Some x ->
       x <> NegInf -> Float.lt x (e e2) = false.
Proof.
  revert e0. induction bps as [|bp bps IH]; intros e0 Hn Hi H; simpl in H.
  - injection H as <-. split_and!; auto using FloatFacts.le_refl.
    intros bp x Hbp. by apply elem_of_nil in Hbp.
  - inv_bind H as e1 H1.
    apply e2_step_min in H1 as (Hn1 & Hi1 & Hle1 & Hmin1); [|done..].
    destruct (IH e1 Hn1 Hi1 H) as (Hn2 & Hi2 & Hle2 & Hmin2).
    split_and!; [done..|by eapply FloatFacts.le_trans|].
    intros bp' x Hbp Hx Hxi. apply elem_of_cons in Hbp as [-> | Hbp].
    + destruct (Float.lt x (e e2)) eqn:E; [|done].
      rewrite <- (Hmin1 x Hx Hxi). symmetry. by eapply lt_le_trans.
    + by eapply Hmin2.
Qed.

Lemma e3_fold_min seq i j temp (c : Cache) emap combos e0 :
  e e0 <> NaN -> e e0 <> NegInf ->
  let e3 := fold_left (e3_step seq i j temp c emap) combos e0 in
  e e3 <> NaN /\ e e3 <> NegInf
  /\ Float.le (e e3) (e e0) = true
  /\ forall combo, combo ∈ combos ->
       truthy (gm_multi_branch seq i j temp c emap combo) = true ->
       Float.lt (e (gm_multi_branch seq i j temp c emap combo)) (e e3)
       = false.
Proof.
  revert e0. induction combos as [|combo combos IH]; intros e0 Hn Hi; simpl.
  - split_and!; auto using FloatFacts.le_refl.
    intros combo Hc. by apply elem_of_nil in Hc.
  - set (e1 := e3_step seq i j temp c emap e0 combo).
    assert (H1 : e e1 <> NaN /\ e e1 <> NegInf
                 /\ Float.le (e e1) (e e0) = true
                 /\ (truthy (gm_multi_branch seq i j temp c emap combo) = true ->
                     Float.lt (e (gm_multi_branch seq i j temp c emap combo))
                       (e e1) = false)).
    { unfold e1, e3_step.
      destruct (truthy _ && Float.lt _ _) eqn:E.
      - apply andb_true_iff in E as [E1 E2].
        pose proof (FloatFacts.lt_not_nan _ _ E2) as [Hx _].
        split_and!; [done| |by apply FloatFacts.lt_le|intros _; apply lt_irrefl].
        intros Heq. unfold truthy in E1. rewrite Heq in E1. done.
      - split_and!; auto using FloatFacts.le_refl.
        intros Ht. rewrite Ht in E. done. }
    destruct H1 as (Hn1 & Hi1 & Hle1 & Hmin1).
    destruct (IH e1 Hn1 Hi1) as (Hn2 & Hi2 & Hle2 & Hmin2).
    split_and!; [done..|by eapply FloatFacts.le_trans|].
    intros combo' Hc Ht. apply elem_of_cons in Hc as [-> | Hc].
    + destruct (Float.lt _ (e (fold_left _ _ _))) eqn:E; [|done].
      rewrite <- (Hmin1 Ht). symmetry. by eapply lt_le_trans.
    + by apply Hmin2.
Qed.

(** X20.  The recurrence.  The struct that [_e] stores for a pair of span
    other than four has an energy that is a number other than minus
    infinity, and that is no larger than the finite energy of the hairpin,
    of any loop over a pair of [S['(i, j)']] (the loop energy plus the
    energy cached for the inner pair), and, where multi-branches are tried,
    of any multi-branch over a combination of the admissible branches. *)
Theorem resolution_is_minimum (seq : string) (i j : Z) (temp : Q)
    (c : Cache) (emap : Energies) (S : Sdict) (non_branches : gset (Z * Z))
    (n_branches : Z) (c' : Cache) (chosen : Struct) (nb' : gset (Z * Z)) :
  _e seq i j temp c emap S non_branches n_branches
  = Ok (c', RetPair chosen nb') ->
  j - i <> 4 ->
  exists bps io,
    S !! S_key i j = Some bps
    /\ isolated_outer_check emap seq i j = Ok io
    /\ e chosen <> NegInf /\ e chosen <> NaN
    /\ (Float.is_fin (_hairpin seq i j temp emap) = true ->
        Float.le (e chosen) (_hairpin seq i j temp emap) = true)
    /\ (forall bp x, bp ∈ bps ->
          loop_energy seq i j temp c emap bp = Some x ->
          Float.is_fin x = true -> Float.le (e chosen) x = true)
    /\ (negb io || (i =? 0) || (j =? len seq - 1) = true ->
        (2 <= length (set_diff_iter bps non_branches))%nat ->
        forall combo,
          combo ∈ all_combinations (set_diff_iter bps non_branches) (Some 2)
                    n_branches ->
          Float.is_fin (e (gm_multi_branch seq i j temp c emap combo)) = true ->
          Float.le (e chosen) (e (gm_multi_branch seq i j temp c emap combo))
          = true).
Proof.
  intros H Hspan. apply e_inv in H as (s0 & Hc & H).
  destruct H as [(_ & _ & [=]) | (_ & io & ii & Ho & Hi & H)].
  destruct H as [(_ & _ & [=]) | [(_ & ? & _) | (_ & _ & bps & e2 & HS & He2
                                               & Hset & Hret)]]; [done|].
  exists bps, io.
  set (e1 := hairpin_struct seq i j temp emap) in *.
  set (e3 := e3_candidate seq i j temp c emap bps non_branches n_branches io)
    in *.
  injection Hret as -> _.
  destruct (min_loop_inv [e1; e2; e3] STRUCT_NULL)
    as (_ & Hnan & Hinf & _ & Hall); [done..|].
  fold (_min_struct [e1; e2; e3]) in Hnan, Hinf, Hall.
  set (m := _min_struct [e1; e2; e3]) in *.
  destruct (e2_loop_min _ _ _ _ _ _ _ (Struct1 PosInf) _ ltac:(done)
              ltac:(done) He2) as (Hn2 & Hi2 & _ & Hmin2).
  assert (Hle2 : Float.le (e m) (e e2) = true).
  { apply Hall; [|done..]. rewrite !elem_of_cons. auto. }
  split_and!; auto.
  - unfold dict_get in HS. destruct (S !! S_key i j); [|done]. by injection HS as ->.
  - intros Hfin. change (_hairpin seq i j temp emap) with (e e1) in *.
    apply Hall; [apply elem_of_cons; auto| |]; by destruct (e e1).
  - intros bp x Hbp Hx Hfin.
    eapply FloatFacts.le_trans; [exact Hle2|].
    apply FloatFacts.le_total; [by destruct x|done|].
    eapply Hmin2; [done..|]. by destruct x.
  - intros Hcond Hlen combo Hin Hfin.
    assert (He3 : e3 = fold_left (e3_step seq i j temp c emap)
                         (all_combinations (set_diff_iter bps non_branches)
                            (Some 2) n_branches) STRUCT_NULL).
    { unfold e3, e3_candidate. rewrite Hcond.
      apply Nat.leb_le in Hlen. by rewrite Hlen. }
    destruct (e3_fold_min seq i j temp c emap
                (all_combinations (set_diff_iter bps non_branches) (Some 2)
                   n_branches) STRUCT_NULL)
      as (Hn3 & Hi3 & _ & Hmin3); [done..|].
    rewrite <- He3 in Hn3, Hi3, Hmin3.
    eapply FloatFacts.le_trans.
    + apply Hall; [|exact Hn3|exact Hi3]. rewrite !elem_of_cons. auto.
    + assert (Ht : truthy (gm_multi_branch seq i j temp c emap combo) = true).
      { revert Hfin. unfold truthy.
        by destruct (e (gm_multi_branch seq i j temp c emap combo)). }
      apply FloatFacts.le_total; [|done|by apply Hmin3].
      revert Hfin.
      by destruct (e (gm_multi_branch seq i j temp c emap combo)).
Qed.

Lemma resolve_exterior_root (n l_fix n_branches : Z) (bps : list (Z * Z))
    (c : Cache) (ms : option (Z * Z)) (me : energy) (c' : Cache)
    (ms' : option (Z * Z)) :
  resolve_exterior n l_fix n_branches bps c ms me = Ok (c', ms') ->
  ms' = ms \/ ms' = Some (0, n - 1).
Proof.
  unfold resolve_exterior. intros H. inv_bind H as whole Hw.
  destruct (_ && _); [|injection H as _ <-; by left].
  inv_bind H as branches Hb.
  change (ms' = ms \/ ms' = Some (0, n - 1))
    with ((fun st : Cache * option (Z * Z) =>
             st.2 = ms \/ st.2 = Some (0, n - 1)) (c', ms')).
  revert H. apply foldM_inv; [|by left].
  intros [c1 ms1] combo [c2 ms2] _ Hst Hstep. simpl in *.
  apply exterior_step_spec in Hstep
    as [[_ ->] | (? & ? & _ & _ & _ & _ & ->)]; auto.
Qed.

(** X21.  The first struct of the list returned by a fold without a stem
    names the root: the whole sequence, where the exterior resolver put an
    open loop, or else the pair that the fill returned as [min_struct], a
    pair of [D] whose cell has the least energy among the cells of the pairs
    of [D]. *)
Theorem fold_result_root (fuel : nat) (seq : string) (temp : Q)
    (n_branches : Z) (mode : string) (S : Sdict) (D : Ddict)
    (bps : list (Z * Z)) (L : list Struct) :
  Aptamer_match mode seq 4 0 = Ok (S, D, bps) ->
  (forall bp, in_D D bp -> 0 <= bp.1 /\ 0 <= bp.2) ->
  gmfold fuel seq temp 0 n_branches mode = Ok L ->
  exists c ms me t,
    _cache seq temp S D 0 n_branches mode = Ok (c, ms, me)
    /\ L !! 0%nat = Some t
    /\ (ij t = [(0, len seq - 1)]
        \/ exists m s,
             ms = Some m /\ ij t = [m] /\ in_D D m
             /\ cell c m.1 m.2 = Ok s /\ e s = me
             /\ forall bp, in_D D bp ->
                  exists s', cell c bp.1 bp.2 = Ok s'
                             /\ Float.lt (e s') me = false).
Proof.
  intros HA Hnn H. unfold gmfold in H. rewrite HA in H. simpl in H.
  inv_bind H as r Hc. destruct r as [[c ms] me].
  inv_bind H as r1 Hr. destruct r1 as [c1 ms1]. inv_bind H as m Hm.
  apply traceback_sound in H as (_ & _ & t & Ht & Hij). simpl in Hij.
  exists c, ms, me, t. split_and!; [done..|].
  destruct ms1 as [m1|]; [|done]. injection Hm as ->.
  apply resolve_exterior_root in Hr as [Hr | Hr].
  - right. destruct (cache_root_minimum _ _ _ _ _ _ _ _ _ Hc Hnn) as [Hall Hms].
    rewrite <- Hr in Hms. destruct Hms as (Hin & s & Hs & Hes).
    exists m, s. destruct m. split_and!; auto.
  - left. injection Hr as ->. done.
Qed.

End Optimal.

(** The pair (2, 9) of GGGGAAAACCCC once (3, 8) is resolved: the stack over
    (3, 8) is chosen. *)
Lemma resolution_is_minimum_witness :
  let X := Toy.with_pairs Toy.helix in
  let seq := "GGGGAAAACCCC" in
  let temp := (31015 # 100)%Q in
  let c := Toy.helix_inner in
  let chosen := mkStruct (Fin (144 # 80)) "STACK:GG/CC" [(3, 8)] in
  let nb : gset (Z * Z) := {[ (3, 8) ]} in
  exists bps io,
    Toy.Sij_of Toy.helix !! S_key 2 9 = Some bps
    /\ isolated_outer_check Toy.dna seq 2 9 = Ok io
    /\ e chosen <> NegInf /\ e chosen <> NaN
    /\ (Float.is_fin (_hairpin seq 2 9 temp Toy.dna) = true ->
        Float.le (e chosen) (_hairpin seq 2 9 temp Toy.dna) = true)
    /\ (forall bp x, bp ∈ bps ->
          loop_energy seq 2 9 temp c Toy.dna bp = Some x ->
          Float.is_fin x = true -> Float.le (e chosen) x = true)
    /\ (negb io || (2 =? 0) || (9 =? len seq - 1) = true ->
        (2 <= length (set_diff_iter bps nb))%nat ->
        forall combo,
          combo ∈ all_combinations (set_diff_iter bps nb) (Some 2) 4 ->
          Float.is_fin (e (gm_multi_branch seq 2 9 temp c Toy.dna combo)) = true ->
          Float.le (e chosen) (e (gm_multi_branch seq 2 9 temp c Toy.dna combo))
          = true).
Proof.
  intros X seq temp c chosen nb.
  apply (resolution_is_minimum (X:=X) seq 2 9 temp c Toy.dna
           (Toy.Sij_of Toy.helix) nb 4
           (<[2%nat := <[9%nat := chosen]> (replicate 12 STRUCT_DEFAULT)]> c)
           chosen ({[ (2, 9) ]} ∪ nb)).
  - vm_compute. reflexivity.
  - lia.
Defined.

(** The fold of GGGGAAAACCCC starts at (0, 11). *)
Lemma fold_result_root_witness :
  let X := Toy.with_pairs Toy.helix in
  let D := Toy.D_of Toy.helix in
  exists c ms me t,
    _cache "GGGGAAAACCCC" 37 (Toy.Sij_of Toy.helix) D 0 4 "dna"
    = Ok (c, ms, me)
    /\ Toy.helix_fold !! 0%nat = Some t
    /\ (ij t = [(0, len "GGGGAAAACCCC" - 1)]
        \/ exists m s,
             ms = Some m /\ ij t = [m] /\ in_D D m
             /\ cell c m.1 m.2 = Ok s /\ e s = me
             /\ forall bp, in_D D bp ->
                  exists s', cell c bp.1 bp.2 = Ok s'
                             /\ Float.lt (e s') me = false).
Proof.
  intros X D.
  apply (fold_result_root (X:=X) 10 "GGGGAAAACCCC" 37 4 "dna"
           (Toy.Sij_of Toy.helix) D Toy.helix Toy.helix_fold).
  - reflexivity.
  - apply helix_nonneg.
  - vm_compute. reflexivity.
Defined.

(** ** Upper case *)

Lemma upper_ascii_idemp (c : ascii) : upper_ascii (upper_ascii c) = upper_ascii c.
Proof. destruct c as [[] [] [] [] [] [] [] []]; reflexivity. Qed.

Lemma chars_of_list (l : list ascii) : chars (string_of_list_ascii l) = l.
Proof. apply list_ascii_of_string_of_list_ascii. Qed.

Lemma upper_idemp (seq : string) : upper (upper seq) = upper seq.
Proof.
  unfold upper. rewrite chars_of_list, <- list_fmap_compose. f_equal.
  apply list_fmap_ext. intros _ c _. apply upper_ascii_idemp.
Qed.

Lemma foldM_raise_first {A B : Type} (f : A -> B -> result A) (a : A)
    (l : list B) (x : exn) :
  (forall b, f a b = Ok a \/ f a b = Raise x) ->
  foldM f a l = Ok a \/ foldM f a l = Raise x.
Proof.
  intros Hf. induction l as [|b l IH]; simpl; [by left|].
  destruct (Hf b) as [-> | ->]; simpl; auto.
Qed.

Lemma getitem_nil {A : Type} (i : Z) : getitem (@nil A) i = Raise IndexError.
Proof.
  unfold getitem, py_norm. simpl.
  destruct (i <? 0) eqn:E; destruct (_ && _) eqn:E'; try done;
    apply andb_true_iff in E' as [? ?]; lia.
Qed.

Lemma cell_nil (i j : Z) : cell [] i j = Raise IndexError.
Proof. unfold cell. by rewrite getitem_nil. Qed.

Section Edges.
Context `{X : Externals}.

Lemma supported_mode (mode : string) :
  mode = "dna" \/ mode = "rna" -> exists emap, emap_of_mode mode = Ok emap.
Proof. intros [-> | ->]; eexists; reflexivity. Qed.

(** X22.  The fill does not look at the case of the sequence: upper-casing
    the sequence beforehand changes nothing. *)
Theorem cache_ignores_case (seq : string) (temp : Q) (S : Sdict) (D : Ddict)
    (l_fix n_branches : Z) (mode : string) :
  _cache (upper seq) temp S D l_fix n_branches mode
  = _cache seq temp S D l_fix n_branches mode.
Proof. unfold _cache. by rewrite upper_idemp. Qed.

Lemma cache_empty_sequence (temp : Q) (S : Sdict) (D : Ddict)
    (l_fix n_branches : Z) (mode : string) :
  mode = "dna" \/ mode = "rna" ->
  _cache "" temp S D l_fix n_branches mode = Ok ([], None, PosInf)
  \/ _cache "" temp S D l_fix n_branches mode = Raise IndexError.
Proof.
  intros Hmode. destruct (supported_mode mode Hmode) as [emap Hemap].
  unfold _cache. rewrite Hemap. cbn [mbind result_bind].
  change (upper "") with "". change (len "") with 0.
  change (new_cache 0) with (@nil (list Struct)).
  set (st0 := mkFill [] ∅ None PosInf None).
  assert (Hloop : forall body,
            (forall bp, body st0 bp = Raise IndexError) ->
            for_each_bp D body st0 = Ok st0
            \/ for_each_bp D body st0 = Raise IndexError).
  { intros body Hbody. unfold for_each_bp. apply foldM_raise_first.
    intros entry. apply foldM_raise_first. intros bp. right. apply Hbody. }
  assert (Hfill : forall bp temp',
            fill_step "" temp' emap S n_branches st0 bp = Raise IndexError).
  { intros bp temp'. unfold fill_step, call_e, _e. simpl.
    by rewrite cell_nil. }
  assert (Hstem : forall bp temp',
            stem_step "" temp' emap S n_branches 0 l_fix st0 bp
            = Raise IndexError).
  { intros bp temp'. unfold stem_step. destruct (bool_decide _).
    - unfold stem_write, not_complementary. simpl.
      change (chars "") with (@nil ascii). rewrite !getitem_nil.
      reflexivity.
    - apply Hfill. }
  destruct (l_fix =? 0) eqn:E0.
  - replace (0 <? l_fix) with false by lia.
    destruct (Hloop (fill_step "" (temp + (27315 # 100))%Q emap S n_branches)
                (fun bp => Hfill bp _)) as [-> | ->]; auto.
  - cbn [mbind result_bind mret result_ret]. destruct (0 <? l_fix).
    + destruct (Hloop (stem_step "" (temp + (27315 # 100))%Q emap S n_branches
                         0 l_fix)
                  (fun bp => Hstem bp _)) as [-> | ->]; auto.
    + by left.
Qed.

(** X23.  On the empty sequence, with a supported mode, [gmfold] raises an
    [IndexError], whatever the candidate index holds. *)
Theorem empty_sequence_raises_IndexError (fuel : nat) (temp : Q)
    (l_fix n_branches : Z) (mode : string) (S : Sdict) (D : Ddict)
    (bps : list (Z * Z)) :
  Aptamer_match mode "" 4 l_fix = Ok (S, D, bps) ->
  mode = "dna" \/ mode = "rna" ->
  gmfold fuel "" temp l_fix n_branches mode = Raise IndexError.
Proof.
  intros HA Hmode. unfold gmfold. rewrite HA. cbn [mbind result_bind].
  by destruct (cache_empty_sequence temp S D l_fix n_branches mode Hmode)
    as [-> | ->].
Qed.

(** X24.  A negative stem length switches both loops of the fill off:
    [_cache] returns the unfilled cache and no root, and [gmfold] raises a
    [TypeError] at [min_struct[0]]. *)
Theorem negative_stem_raises_TypeError (fuel : nat) (seq : string) (temp : Q)
    (l_fix n_branches : Z) (mode : string) (S : Sdict) (D : Ddict)
    (bps : list (Z * Z)) :
  l_fix < 0 -> seq <> "" ->
  Aptamer_match mode seq 4 l_fix = Ok (S, D, bps) ->
  mode = "dna" \/ mode = "rna" ->
  _cache seq temp S D l_fix n_branches mode
  = Ok (new_cache (len seq), None, PosInf)
  /\ gmfold fuel seq temp l_fix n_branches mode
     = Raise (TypeError "'NoneType' object is not subscriptable").
Proof.
  intros Hl Hseq HA Hmode. destruct (supported_mode mode Hmode) as [emap Hemap].
  assert (Hc : _cache seq temp S D l_fix n_branches mode
               = Ok (new_cache (len seq), None, PosInf)).
  { unfold _cache. rewrite Hemap. cbn [mbind result_bind].
    replace (l_fix =? 0) with false by lia.
    replace (0 <? l_fix) with false by lia. simpl. by rewrite len_upper. }
  split; [done|]. unfold gmfold. rewrite HA. cbn [mbind result_bind].
  rewrite Hc. cbn [mbind result_bind]. unfold resolve_exterior.
  assert (0 < len seq) as Hn.
  { unfold len. destruct seq; [done|]. simpl. lia. }
  assert (cell (new_cache (len seq)) 0 (len seq - 1) = Ok STRUCT_DEFAULT) as ->.
  { apply cell_at_pos; [lia..|]. unfold at_pos, new_cache.
    rewrite lookup_replicate_2 by lia. simpl.
    apply lookup_replicate_2. lia. }
  cbn [mbind result_bind]. replace (l_fix =? 0) with false by lia.
  by rewrite andb_false_r.
Qed.

End Edges.

Lemma empty_sequence_raises_IndexError_witness :
  gmfold (X:=Toy.with_pairs [(0, 5)]) 10 "" 37 0 4 "dna" = Raise IndexError.
Proof.
  apply (empty_sequence_raises_IndexError (X:=Toy.with_pairs [(0, 5)]) 10 37
           0 4 "dna" (Toy.Sij_of [(0, 5)]) (Toy.D_of [(0, 5)]) [(0, 5)]).
  - reflexivity.
  - by left.
Defined.

Lemma negative_stem_raises_TypeError_witness :
  let X := Toy.with_pairs Toy.helix in
  _cache "GGGGAAAACCCC" 37 (Toy.Sij_of Toy.helix) (Toy.D_of Toy.helix) (-1) 4
    "dna"
  = Ok (new_cache (len "GGGGAAAACCCC"), None, PosInf)
  /\ gmfold 10 "GGGGAAAACCCC" 37 (-1) 4 "dna"
     = Raise (TypeError "'NoneType' object is not subscriptable").
Proof.
  intros X.
  apply (negative_stem_raises_TypeError (X:=X) 10 "GGGGAAAACCCC" 37 (-1) 4
           "dna" (Toy.Sij_of Toy.helix) (Toy.D_of Toy.helix) Toy.helix).
  - lia.
  - discriminate.
  - reflexivity.
  - by left.
Defined.
